(** * WHISTLE cache network: relay hub and node agent

    A shallow embedding of
    - [infrastructure/relay-server/src/database.ts] (the relay hub: connection
      registry, wallet statistics, load-balancing router), and
    - [infrastructure/node-client/node.js] (the node agent's response cache),
    with the properties the specification states about them.

    Conventions.  JavaScript numbers that hold counters and millisecond
    clocks are integers well below 2^53 and are modelled by [Z];
    [Math.floor (x / 1000)] is [x / 1000] on [Z].  [Date.now ()] is an
    explicit argument [now] of every handler.  A JavaScript [Map] whose
    iteration order is observed is a list in insertion order; one that is
    only looked up is a [gmap].  Objects that handlers share by reference
    (the [node] of a connection) live in one store keyed by the connection
    id. *)

From Stdlib Require Import ZArith List String Ascii Bool Lia QArith.
From Stdlib Require Import Permutation Sorted DecimalString.
From stdpp Require Import gmap strings.
Import ListNotations.

Local Open Scope string_scope.
Local Open Scope Z_scope.

(** ** JavaScript helpers *)

Module Js.

(** Truthiness of a string-valued field that may be absent:
    [undefined], [null] and [''] are falsy. *)
Definition truthy (s : option string) : bool :=
  match s with
  | None => false
  | Some s => negb (String.eqb s "")
  end.

(** [a || b] on strings. *)
Definition or_else (a : option string) (b : string) : string :=
  match a with
  | Some s => if String.eqb s "" then b else s
  | None => b
  end.

(** Membership in the character class [[0-9a-f]] under the [i] flag. *)
Definition is_hex (c : ascii) : bool :=
  let n := nat_of_ascii c in
  ((48 <=? n) && (n <=? 57) || (97 <=? n) && (n <=? 102)
   || (65 <=? n) && (n <=? 70))%nat.

(** [/^[0-9a-f]+$/i.test(s)]: one or more characters, all hexadecimal. *)
Definition all_hex (s : string) : bool :=
  match s with
  | EmptyString => false
  | _ => forallb is_hex (list_ascii_of_string s)
  end.

(** [Map.prototype.set] on the key list of an insertion-ordered [Map]:
    a key that is present keeps its place, a new key goes last. *)
Definition keys_set (k : string) (ks : list string) : list string :=
  if existsb (String.eqb k) ks then ks else ks ++ [k].

(** [Map.prototype.delete] on the key list. *)
Definition keys_delete (k : string) (ks : list string) : list string :=
  List.filter (fun k' => negb (String.eqb k k')) ks.

End Js.

(** ** The relay hub *)

Module Stats.
(** [ConnectedNode['stats']] *)
Record t := mk {
  requestsHandled : Z;
  avgLatencyMs : Z;
  cacheHits : Z;
  cacheMisses : Z;
  errors : Z;
}.

Definition zero : t := mk 0 0 0 0 0.
End Stats.

Module Persisted.
(** [interface PersistedStats] *)
Record t := mk {
  requestsHandled : Z;
  avgLatencyMs : Z;
  cacheHits : Z;
  cacheMisses : Z;
  errors : Z;
  totalUptime : Z;
  lastDisconnect : Z;
  firstConnect : Z;
  lastIP : option string;
}.
End Persisted.

(** The on-chain account the registry verifier returns; only the fields
    the hub reads. *)
Record CacheNodeAccount := {
  acc_isActive : bool;
  acc_bondAmount : Z;
  acc_pendingEarnings : Z;
  acc_totalEarned : Z;
}.

Module Node.
(** [interface ConnectedNode], without the socket handle and the table of
    pending requests.  [totalUptime] is the field the register handler
    adds with [(node as any).totalUptime]. *)
Record t := mk {
  id : string;
  operator : string;
  name : string;
  isRegistered : bool;
  bondAmount : Z;
  pendingEarnings : Z;
  totalEarned : Z;
  connectedAt : Z;
  lastPing : Z;
  ip : string;
  location : string;
  stats : Stats.t;
  totalUptime : option Z;
}.

Definition set_stats (n : t) (s : Stats.t) : t :=
  mk (id n) (operator n) (name n) (isRegistered n) (bondAmount n)
     (pendingEarnings n) (totalEarned n) (connectedAt n) (lastPing n)
     (ip n) (location n) s (totalUptime n).

Definition set_lastPing (n : t) (p : Z) : t :=
  mk (id n) (operator n) (name n) (isRegistered n) (bondAmount n)
     (pendingEarnings n) (totalEarned n) (connectedAt n) p
     (ip n) (location n) (stats n) (totalUptime n).
End Node.

(** The frames the hub writes to a node's socket. *)
Inductive ServerMsg :=
| AuthFailed (error : string)
| NotRegistered (wallet : string)
| Registered (nodeId : string) (isRegistered : bool)
             (restoredStats : option (Z * Z)).

(** A [register] frame as the hub destructures it:
    [const { wallet, name, timestamp, signature } = msg].  A field that is
    missing is [None]; a [timestamp] that is missing makes the window test
    compare with [NaN]. *)
Record RegisterMsg := {
  wallet : option string;
  name : option string;
  timestamp : option Z;
  signature : option string;
}.

(** The hub's mutable state.
    - [sockets] holds the [node] object each [wss.on('connection')] call
      creates, keyed by its [nodeId]; the handlers of that connection and the
      router refer to it by that key, also after it left [connectedNodes].
    - [live] are the connections whose [close] event has not fired yet.
    - [connectedNodes] are the keys of the [connectedNodes] map in insertion
      order; the value under key [k] is always the object [sockets !! k].
    - [sent] and [closing] record [ws.send] and [ws.close ()] calls.
    - [db] is the [wallet_stats] table. *)
Record Hub := mkHub {
  sockets : gmap string Node.t;
  live : gset string;
  connectedNodes : list string;
  nodesByWallet : gmap string string;
  walletStats : gmap string Persisted.t;
  roundRobinIndex : nat;
  sent : list (string * ServerMsg);
  closing : list string;
  db : gmap string Persisted.t;
}.

Module Relay.

(** [verifySignature]: the timestamp must lie within five minutes of the
    server clock and the signature must be 64 hexadecimal characters.
    [wallet] only enters the digest, which is computed and dropped. *)
Definition verifySignature (now : Z) (wallet : string) (timestamp : option Z)
    (signature : string) : bool :=
  if match timestamp with
     | Some ts => 5 * 60 * 1000 <? Z.abs (now - ts)
     | None => false
     end
  then false
  else if negb (String.eqb signature "")
          && (String.length signature =? 64)%nat
          && Js.all_hex signature
  then true
  else false.

Definition set_sockets (h : Hub) (s : gmap string Node.t) : Hub :=
  mkHub s (live h) (connectedNodes h) (nodesByWallet h) (walletStats h)
        (roundRobinIndex h) (sent h) (closing h) (db h).

Definition set_connectedNodes (h : Hub) (c : list string) : Hub :=
  mkHub (sockets h) (live h) c (nodesByWallet h) (walletStats h)
        (roundRobinIndex h) (sent h) (closing h) (db h).

Definition set_nodesByWallet (h : Hub) (m : gmap string string) : Hub :=
  mkHub (sockets h) (live h) (connectedNodes h) m (walletStats h)
        (roundRobinIndex h) (sent h) (closing h) (db h).

Definition set_walletStats (h : Hub) (w : gmap string Persisted.t) : Hub :=
  mkHub (sockets h) (live h) (connectedNodes h) (nodesByWallet h) w
        (roundRobinIndex h) (sent h) (closing h) (db h).

Definition set_roundRobinIndex (h : Hub) (i : nat) : Hub :=
  mkHub (sockets h) (live h) (connectedNodes h) (nodesByWallet h)
        (walletStats h) i (sent h) (closing h) (db h).

(** [ws.send (JSON.stringify (m))] on the socket of connection [nid]. *)
Definition ws_send (nid : string) (m : ServerMsg) (h : Hub) : Hub :=
  mkHub (sockets h) (live h) (connectedNodes h) (nodesByWallet h)
        (walletStats h) (roundRobinIndex h) (sent h ++ [(nid, m)])
        (closing h) (db h).

(** [ws.close ()] on the socket of connection [nid]; its [close] event
    fires later, as an event of its own. *)
Definition ws_close (nid : string) (h : Hub) : Hub :=
  mkHub (sockets h) (live h) (connectedNodes h) (nodesByWallet h)
        (walletStats h) (roundRobinIndex h) (sent h) (closing h ++ [nid])
        (db h).

(** [Array.from (connectedNodes.values ())] *)
Definition connectedNodes_values (h : Hub) : list Node.t :=
  omap (fun k => sockets h !! k) (connectedNodes h).

(** [connectedNodes.get (k)] *)
Definition connectedNodes_get (h : Hub) (k : string) : option Node.t :=
  if existsb (String.eqb k) (connectedNodes h) then sockets h !! k else None.

Section Hub.

(** [process.env.REQUIRE_REGISTRATION !== 'false'] *)
Variable REQUIRE_REGISTRATION : bool.

(** The two floating-point averages, as functions of their integer
    operands: [Math.floor (existing * 0.7 + session * 0.3)] in
    [persistWalletStats] and [Math.floor (avg * 0.8 + capped * 0.2)] in
    the router.  No property below depends on their values. *)
Variable ema_persist : Z -> Z -> Z.
Variable ema_route : Z -> Z -> Z.

(** [persistWalletStats (wallet, stats, connectedAt)] *)
Definition persistWalletStats (now : Z) (wallet : string)
    (stats : Stats.t) (connectedAt : Z)
    (ws : gmap string Persisted.t) : gmap string Persisted.t :=
  let currentUptime := (now - connectedAt) / 1000 in
  match ws !! wallet with
  | Some existing =>
      <[wallet :=
        Persisted.mk
          (Z.max (Persisted.requestsHandled existing)
                 (Stats.requestsHandled stats))
          (if 0 <? Stats.avgLatencyMs stats
           then if Persisted.avgLatencyMs existing =? 0
                then Stats.avgLatencyMs stats
                else ema_persist (Persisted.avgLatencyMs existing)
                                 (Stats.avgLatencyMs stats)
           else Persisted.avgLatencyMs existing)
          (Z.max (Persisted.cacheHits existing) (Stats.cacheHits stats))
          (Z.max (Persisted.cacheMisses existing)
                 (Stats.cacheMisses stats))
          (Z.max (Persisted.errors existing) (Stats.errors stats))
          (Persisted.totalUptime existing)
          (Persisted.lastDisconnect existing)
          (Persisted.firstConnect existing)
          (Persisted.lastIP existing)]> ws
  | None =>
      <[wallet :=
        Persisted.mk
          (Stats.requestsHandled stats)
          (Stats.avgLatencyMs stats)
          (Stats.cacheHits stats)
          (Stats.cacheMisses stats)
          (Stats.errors stats)
          currentUptime
          0
          connectedAt
          None]> ws
  end.

(** [wss.on('connection')]: a fresh [node] object; nothing is entered
    in the registry before a [register] frame arrives. *)
Definition on_connection (now : Z) (nodeId ip location : string)
    (h : Hub) : Hub :=
  let node :=
    Node.mk nodeId "" "Unknown" false 0 0 0 now now ip location
            Stats.zero None in
  mkHub (<[nodeId := node]> (sockets h)) ({[nodeId]} ∪ live h)
        (connectedNodes h) (nodesByWallet h) (walletStats h)
        (roundRobinIndex h) (sent h) (closing h) (db h).

(** "Track by wallet (disconnect old connection if exists)": when the
    wallet index names another connection that is still in the registry,
    its counters are persisted, its socket is closed and it leaves the
    registry. *)
Definition take_over (now : Z) (nodeId wallet : string) (h : Hub) : Hub :=
  match nodesByWallet h !! wallet with
  | Some oldNodeId =>
      if negb (String.eqb oldNodeId "") && negb (String.eqb oldNodeId nodeId)
      then
        match connectedNodes_get h oldNodeId with
        | Some oldNode =>
            let h' :=
              set_walletStats h
                (persistWalletStats now wallet (Node.stats oldNode)
                   (Node.connectedAt oldNode) (walletStats h)) in
            let h' := ws_close oldNodeId h' in
            set_connectedNodes h'
              (Js.keys_delete oldNodeId (connectedNodes h'))
        | None => h
        end
      else h
  | None => h
  end.

(** "RESTORE PERSISTED STATS on reconnect": the counters of the node are
    seeded from the wallet's entry; the latency average and the error
    count start from zero when the entry records an address other than
    the one this connection comes from. *)
Definition restore_stats (persistedStats : Persisted.t) (node : Node.t)
    : Node.t :=
  let reset :=
    match Persisted.lastIP persistedStats with
    | Some lastIP =>
        negb (String.eqb lastIP "") && negb (String.eqb lastIP (Node.ip node))
    | None => false
    end in
  Node.mk (Node.id node) (Node.operator node) (Node.name node)
    (Node.isRegistered node) (Node.bondAmount node)
    (Node.pendingEarnings node) (Node.totalEarned node)
    (Node.connectedAt node) (Node.lastPing node) (Node.ip node)
    (Node.location node)
    (Stats.mk
       (Persisted.requestsHandled persistedStats)
       (if reset then 0 else Persisted.avgLatencyMs persistedStats)
       (Persisted.cacheHits persistedStats)
       (Persisted.cacheMisses persistedStats)
       (if reset then 0 else Persisted.errors persistedStats))
    (Some (Persisted.totalUptime persistedStats)).

(** The on-chain result the register handler acts on: the account when it
    is active. *)
Definition active_account (onChainAccount : option CacheNodeAccount)
    : option CacheNodeAccount :=
  match onChainAccount with
  | Some acc => if acc_isActive acc then Some acc else None
  | None => None
  end.

(** "Update node info": operator and name are set; an active account
    marks the node registered and copies its balances; without one the
    flag is left as it is when registration is required and set in
    development mode. *)
Definition update_node_info (nodeId wallet : string) (name : option string)
    (onChainAccount : option CacheNodeAccount) (node : Node.t) : Node.t :=
  match active_account onChainAccount with
  | Some acc =>
      Node.mk (Node.id node) wallet (Js.or_else name ("Node-" ++ nodeId))
        true (acc_bondAmount acc) (acc_pendingEarnings acc)
        (acc_totalEarned acc)
        (Node.connectedAt node) (Node.lastPing node) (Node.ip node)
        (Node.location node) (Node.stats node) (Node.totalUptime node)
  | None =>
      Node.mk (Node.id node) wallet (Js.or_else name ("Node-" ++ nodeId))
        (if REQUIRE_REGISTRATION then Node.isRegistered node else true)
        (Node.bondAmount node) (Node.pendingEarnings node)
        (Node.totalEarned node)
        (Node.connectedAt node) (Node.lastPing node) (Node.ip node)
        (Node.location node) (Node.stats node) (Node.totalUptime node)
  end.

(** The part of [case 'register'] that runs once the frame passed the
    authentication checks and the on-chain lookup returned. *)
Definition admit_node (now : Z) (nodeId wallet : string)
    (name : option string) (onChainAccount : option CacheNodeAccount)
    (node : Node.t) (h : Hub) : Hub :=
  let node1 := update_node_info nodeId wallet name onChainAccount node in
  let h1 :=
    match active_account onChainAccount with
    | Some _ => h
    | None =>
        if REQUIRE_REGISTRATION
        then ws_send nodeId (NotRegistered wallet) h
        else h
    end in
  let h2 := take_over now nodeId wallet h1 in
  let persistedStats := walletStats h2 !! wallet in
  let node2 :=
    match persistedStats with
    | Some p => restore_stats p node1
    | None => node1
    end in
  let h3 := set_sockets h2 (<[nodeId := node2]> (sockets h2)) in
  let h4 := set_nodesByWallet h3 (<[wallet := nodeId]> (nodesByWallet h3)) in
  let h5 := set_connectedNodes h4 (Js.keys_set nodeId (connectedNodes h4)) in
  ws_send nodeId
    (Registered nodeId (Node.isRegistered node2)
       (match persistedStats with
        | Some p => Some (Persisted.requestsHandled p,
                          Persisted.totalUptime p)
        | None => None
        end))
    h5.

(** The authentication checks at the head of [case 'register']: the
    error of the [auth_failed] frame, or [None] when the frame passes.  The
    signature and, inside [verifySignature], the timestamp are looked at
    only when registration is required and the frame carries a
    signature. *)
Definition auth_error (now : Z) (msg : RegisterMsg) : option string :=
  if negb (Js.truthy (wallet msg)) then Some "Wallet address required"
  else if REQUIRE_REGISTRATION && Js.truthy (signature msg)
          && negb (verifySignature now (Js.or_else (wallet msg) "")
                     (timestamp msg) (Js.or_else (signature msg) ""))
  then Some "Invalid signature"
  else None.

(** [case 'register'] of [ws.on('message')] on connection [nodeId].
    [onChainAccount] is what [getOnChainNodeAccount (wallet)] resolves
    to; the handler touches no shared state before that call returns. *)
Definition on_register (now : Z) (nodeId : string) (msg : RegisterMsg)
    (onChainAccount : option CacheNodeAccount) (h : Hub) : Hub :=
  if negb (bool_decide (nodeId ∈ live h)) then h else
  match sockets h !! nodeId with
  | None => h
  | Some node =>
      match auth_error now msg with
      | Some err => ws_close nodeId (ws_send nodeId (AuthFailed err) h)
      | None =>
          admit_node now nodeId (Js.or_else (wallet msg) "") (name msg)
            (if REQUIRE_REGISTRATION then onChainAccount else None)
            node h
      end
  end.

(** [case 'pong'] *)
Definition on_pong (now : Z) (nodeId : string) (h : Hub) : Hub :=
  if negb (bool_decide (nodeId ∈ live h)) then h else
  match sockets h !! nodeId with
  | None => h
  | Some node =>
      set_sockets h (<[nodeId := Node.set_lastPing node now]> (sockets h))
  end.

(** [ws.on('close')] of connection [nodeId]. *)
Definition on_close (now : Z) (nodeId : string) (h : Hub) : Hub :=
  if negb (bool_decide (nodeId ∈ live h)) then h else
  match sockets h !! nodeId with
  | None => h
  | Some node =>
      let h1 :=
        if negb (String.eqb (Node.operator node) "") then
          let sessionUptime := (now - Node.connectedAt node) / 1000 in
          let st := Node.stats node in
          let entry :=
            match walletStats h !! Node.operator node with
            | Some persisted =>
                Persisted.mk
                  (Z.max (Persisted.requestsHandled persisted)
                         (Stats.requestsHandled st))
                  (Persisted.avgLatencyMs persisted)
                  (Z.max (Persisted.cacheHits persisted)
                         (Stats.cacheHits st))
                  (Z.max (Persisted.cacheMisses persisted)
                         (Stats.cacheMisses st))
                  (Z.max (Persisted.errors persisted) (Stats.errors st))
                  (Persisted.totalUptime persisted + sessionUptime)
                  now
                  (Persisted.firstConnect persisted)
                  (Some (Node.ip node))
            | None =>
                Persisted.mk
                  (Stats.requestsHandled st) (Stats.avgLatencyMs st)
                  (Stats.cacheHits st) (Stats.cacheMisses st)
                  (Stats.errors st)
                  sessionUptime now (Node.connectedAt node)
                  (Some (Node.ip node))
            end in
          set_nodesByWallet
            (set_walletStats h
               (<[Node.operator node := entry]> (walletStats h)))
            (delete (Node.operator node) (nodesByWallet h))
        else h in
      mkHub (sockets h1) (live h1 ∖ {[nodeId]})
            (Js.keys_delete nodeId (connectedNodes h1))
            (nodesByWallet h1) (walletStats h1) (roundRobinIndex h1)
            (sent h1) (closing h1) (db h1)
  end.

(** *** The router: [app.post (['/', '/rpc'])] *)

(** The nodes a call may go to: registered ones that answered a ping
    in the last two minutes, or all of them in development mode. *)
Definition eligible (now : Z) (n : Node.t) : bool :=
  if negb REQUIRE_REGISTRATION then true
  else if negb (Node.isRegistered n) then false
  else now - Node.lastPing n <? 120000.

(** [errors / requestsHandled], read only when [requestsHandled >= 5].
    Both operands are integers, and for fewer than 2^52 requests the
    double quotient compares with the double [0.3] as the rational
    quotient compares with 3/10. *)
Definition errorRate (st : Stats.t) : Q :=
  (inject_Z (Stats.errors st) / inject_Z (Stats.requestsHandled st))%Q.

(** The predicate of [nodes.filter] that builds [healthyNodes]. *)
Definition healthy (n : Node.t) : bool :=
  let st := Node.stats n in
  if Stats.requestsHandled st <? 5 then true
  else if negb (Qle_bool (errorRate st) (3 # 10)) then false
  else if 3000 <? Stats.avgLatencyMs st then false
  else true.

(** [healthyNodes.length > 0 ? healthyNodes : nodes] *)
Definition availableNodes (nodes : list Node.t) : list Node.t :=
  let healthyNodes := List.filter (fun n => healthy n) nodes in
  if (0 <? length healthyNodes)%nat then healthyNodes else nodes.

(** The latency the comparator ranks a node by. *)
Definition effectiveLatency (n : Node.t) : Z :=
  if Stats.requestsHandled (Node.stats n) <? 5 then 500
  else Stats.avgLatencyMs (Node.stats n).

(** [Array.prototype.sort] with the comparator [latA - latB]: a stable
    sort by [effectiveLatency]. *)
Fixpoint sort_insert (x : Node.t) (l : list Node.t) : list Node.t :=
  match l with
  | [] => [x]
  | y :: l' =>
      if effectiveLatency x <=? effectiveLatency y then x :: y :: l'
      else y :: sort_insert x l'
  end.

Definition sortByLatency (l : list Node.t) : list Node.t :=
  foldr sort_insert [] l.

(** [availableNodes.slice (0, Math.max (3, Math.ceil (length / 2)))] *)
Definition fastPool (sorted : list Node.t) : list Node.t :=
  take (Nat.max 3 (Nat.div2 (length sorted + 1))) sorted.

(** [roundRobinIndex = (roundRobinIndex + 1) % fastPool.length] *)
Definition nextIndex (roundRobinIndex poolSize : nat) : nat :=
  ((roundRobinIndex + 1) mod poolSize)%nat.

(** The fast pool of a call that arrives at time [now]. *)
Definition pool_at (now : Z) (h : Hub) : list Node.t :=
  fastPool
    (sortByLatency
       (availableNodes
          (List.filter (fun n => eligible now n) (connectedNodes_values h)))).

(** The selection step of the router.  [None] is the 503 answer when no
    node is eligible; otherwise the chosen node and the hub with the
    advanced index. *)
Definition route (now : Z) (h : Hub) : option (Node.t * Hub) :=
  let nodes := List.filter (fun n => eligible now n) (connectedNodes_values h) in
  if (length nodes =? 0)%nat then None
  else
    let pool := fastPool (sortByLatency (availableNodes nodes)) in
    let i := nextIndex (roundRobinIndex h) (length pool) in
    match pool !! i with
    | Some node => Some (node, set_roundRobinIndex h i)
    | None => None
    end.

(** The nodes that consecutive calls arriving at the times [nows] are
    sent to, each call starting from the index the one before left. *)
Fixpoint route_calls (nows : list Z) (h : Hub) : list (option Node.t) :=
  match nows with
  | [] => []
  | now :: nows' =>
      match route now h with
      | Some (node, h') => Some node :: route_calls nows' h'
      | None => None :: route_calls nows' h
      end
  end.

(** The indices [M] consecutive calls select in a fast pool that keeps
    the size [K], starting from the index [rr]. *)
Fixpoint rr_indices (K rr M : nat) : list nat :=
  match M with
  | O => []
  | S M' => let i := nextIndex rr K in i :: rr_indices K i M'
  end.

(** How many of [calls] went to the node of connection [nodeId]. *)
Definition calls_to (nodeId : string) (calls : list (option Node.t)) : nat :=
  length (List.filter (fun r => match r with
                                | Some n => String.eqb (Node.id n) nodeId
                                | None => false
                                end) calls).

(** The router after [sendToNode] resolved for the node of connection
    [nodeId], [latency] milliseconds after the call was sent, with a
    result other than [null] and [undefined], so that the [try] block
    runs to its end; [cached] is the truthiness of [result._cached].
    The other resolutions are [rpc_resolved_null] below. *)
Definition rpc_resolved (now : Z) (nodeId : string) (latency : Z)
    (cached : bool) (h : Hub) : Hub :=
  match sockets h !! nodeId with
  | None => h
  | Some node =>
      let st := Node.stats node in
      let cappedLatency := Z.min latency 5000 in
      let st' :=
        Stats.mk
          (Stats.requestsHandled st + 1)
          (if Stats.avgLatencyMs st =? 0 then cappedLatency
           else ema_route (Stats.avgLatencyMs st) cappedLatency)
          (if cached then Stats.cacheHits st + 1 else Stats.cacheHits st)
          (if cached then Stats.cacheMisses st
           else Stats.cacheMisses st + 1)
          (Stats.errors st) in
      let h1 :=
        set_sockets h (<[nodeId := Node.set_stats node st']> (sockets h)) in
      if negb (String.eqb (Node.operator node) "") then
        set_walletStats h1
          (persistWalletStats now (Node.operator node) st'
             (Node.connectedAt node) (walletStats h1))
      else h1
  end.

(** The router after [sendToNode] rejected (node error or the
    30-second timeout). *)
Definition rpc_rejected (now : Z) (nodeId : string) (h : Hub) : Hub :=
  match sockets h !! nodeId with
  | None => h
  | Some node =>
      let st := Node.stats node in
      let st' :=
        Stats.mk (Stats.requestsHandled st) (Stats.avgLatencyMs st)
                 (Stats.cacheHits st) (Stats.cacheMisses st)
                 (Stats.errors st + 1) in
      let h1 :=
        set_sockets h (<[nodeId := Node.set_stats node st']> (sockets h)) in
      if negb (String.eqb (Node.operator node) "") then
        set_walletStats h1
          (persistWalletStats now (Node.operator node) st'
             (Node.connectedAt node) (walletStats h1))
      else h1
  end.

(** The router after [sendToNode] resolved with [null] or [undefined]
    (an [rpc_response] frame without an error, with such a result and
    without a [latencyMs] that is truthy): the request is counted and the
    latency averaged, then [result._cached] throws, and the [catch] branch
    adds an error and persists. *)
Definition rpc_resolved_null (now : Z) (nodeId : string) (latency : Z)
    (h : Hub) : Hub :=
  match sockets h !! nodeId with
  | None => h
  | Some node =>
      let st := Node.stats node in
      let cappedLatency := Z.min latency 5000 in
      let st' :=
        Stats.mk
          (Stats.requestsHandled st + 1)
          (if Stats.avgLatencyMs st =? 0 then cappedLatency
           else ema_route (Stats.avgLatencyMs st) cappedLatency)
          (Stats.cacheHits st) (Stats.cacheMisses st)
          (Stats.errors st + 1) in
      let h1 :=
        set_sockets h (<[nodeId := Node.set_stats node st']> (sockets h)) in
      if negb (String.eqb (Node.operator node) "") then
        set_walletStats h1
          (persistWalletStats now (Node.operator node) st'
             (Node.connectedAt node) (walletStats h1))
      else h1
  end.

(** *** Durable store *)

(** The row [db.saveWalletStats] writes: the table has no column for
    [lastIP]. *)
Definition to_row (p : Persisted.t) : Persisted.t :=
  Persisted.mk (Persisted.requestsHandled p) (Persisted.avgLatencyMs p)
    (Persisted.cacheHits p) (Persisted.cacheMisses p)
    (Persisted.errors p) (Persisted.totalUptime p)
    (Persisted.lastDisconnect p) (Persisted.firstConnect p) None.

(** [saveWalletStats]: one [INSERT OR REPLACE] per wallet in memory. *)
Definition saveWalletStats (h : Hub) : Hub :=
  mkHub (sockets h) (live h) (connectedNodes h) (nodesByWallet h)
        (walletStats h) (roundRobinIndex h) (sent h) (closing h)
        ((to_row <$> walletStats h) ∪ db h).

(** A new process: [loadWalletStats] fills [walletStats] from the table
    and every other variable has its initial value. *)
Definition boot (table : gmap string Persisted.t) : Hub :=
  mkHub ∅ ∅ [] ∅ (to_row <$> table) 0%nat [] [] table.

Definition restart (h : Hub) : Hub := boot (db h).

(** *** Events

    [SaveWalletStats] is the five-minute timer, [Shutdown] the
    [SIGTERM]/[SIGINT] handler (save, exit) followed by the start of the
    next process, [Crash] the start of the next process after an exit
    that saved nothing. *)

Inductive Event :=
| Connection (now : Z) (nodeId ip location : string)
| Register (now : Z) (nodeId : string) (msg : RegisterMsg)
           (onChainAccount : option CacheNodeAccount)
| Pong (now : Z) (nodeId : string)
| Close (now : Z) (nodeId : string)
| Route (now : Z)
| RpcResolved (now : Z) (nodeId : string) (latency : Z) (cached : bool)
| RpcRejected (now : Z) (nodeId : string)
| RpcResolvedNull (now : Z) (nodeId : string) (latency : Z)
| SaveWalletStats
| Shutdown
| Crash.

Definition step (e : Event) (h : Hub) : Hub :=
  match e with
  | Connection now nodeId ip location =>
      on_connection now nodeId ip location h
  | Register now nodeId msg onChainAccount =>
      on_register now nodeId msg onChainAccount h
  | Pong now nodeId => on_pong now nodeId h
  | Close now nodeId => on_close now nodeId h
  | Route now =>
      match route now h with
      | Some (_, h') => h'
      | None => h
      end
  | RpcResolved now nodeId latency cached =>
      rpc_resolved now nodeId latency cached h
  | RpcRejected now nodeId => rpc_rejected now nodeId h
  | RpcResolvedNull now nodeId latency =>
      rpc_resolved_null now nodeId latency h
  | SaveWalletStats => saveWalletStats h
  | Shutdown => restart (saveWalletStats h)
  | Crash => restart h
  end.

(** The events of a list, first to last. *)
Definition run (es : list Event) (h : Hub) : Hub :=
  fold_left (fun h e => step e h) es h.

(** The seconds of the session that event [e] ends for wallet [w]: the
    time since [connectedAt] when [e] is the close event of a live
    connection whose operator is [w], and zero for any other event. *)
Definition closed_session (e : Event) (h : Hub) (w : string) : Z :=
  match e with
  | Close now nodeId =>
      if bool_decide (nodeId ∈ live h) then
        match sockets h !! nodeId with
        | Some node =>
            if negb (String.eqb (Node.operator node) "")
               && String.eqb (Node.operator node) w
            then (now - Node.connectedAt node) / 1000
            else 0
        | None => 0
        end
      else 0
  | _ => 0
  end.

(** The sum of the sessions of wallet [w] that the events [es] end. *)
Fixpoint closed_sessions (es : list Event) (h : Hub) (w : string) : Z :=
  match es with
  | [] => 0
  | e :: es' => closed_session e h w + closed_sessions es' (step e h) w
  end.

End Hub.

(** *** Observations the properties are stated with *)

(** The frame was refused: an [auth_failed] frame went out on the socket,
    the socket was closed, and the registry is as it was. *)
Definition auth_refused (nodeId : string) (h h' : Hub) : Prop :=
  (exists err, sent h' = (sent h ++ [(nodeId, AuthFailed err)])%list)
  /\ closing h' = (closing h ++ [nodeId])%list
  /\ sockets h' = sockets h
  /\ connectedNodes h' = connectedNodes h
  /\ nodesByWallet h' = nodesByWallet h
  /\ walletStats h' = walletStats h.

(** The timestamp of a frame is more than five minutes from the clock. *)
Definition stale (now : Z) (timestamp : option Z) : Prop :=
  match timestamp with
  | Some ts => 5 * 60 * 1000 < Z.abs (now - ts)
  | None => False
  end.

(** The signature is a string of 64 hexadecimal characters. *)
Definition hex64 (signature : string) : Prop :=
  String.length signature = 64%nat /\ Js.all_hex signature = true.

(** The [requestsHandled] counter a table holds for a wallet. *)
Definition requests_of (m : gmap string Persisted.t) (w : string) : option Z :=
  Persisted.requestsHandled <$> m !! w.

(** The [totalUptime] a table holds for a wallet. *)
Definition uptime_of (m : gmap string Persisted.t) (w : string) : option Z :=
  Persisted.totalUptime <$> m !! w.


(** The registry is well formed: no connection is listed twice, and every
    node object carries the id it is stored under. *)
Definition registry_wf (h : Hub) : Prop :=
  NoDup (connectedNodes h)
  /\ forall k n, sockets h !! k = Some n -> Node.id n = k.


End Relay.

(** ** The node agent's cache *)

(** A parsed JSON text. *)
#[local] Unset Elimination Schemes.
Inductive Json :=
| JNull
| JBool (b : bool)
| JNumber (q : Q)
| JString (s : string)
| JArray (items : list Json)
| JObject (fields : list (string * Json)).
#[local] Set Elimination Schemes.

Module NodeAgent.

(** Truthiness of a value that may be [undefined]. *)
Definition truthy (v : option Json) : bool :=
  match v with
  | None | Some JNull => false
  | Some (JBool b) => b
  | Some (JNumber q) => negb (Qeq_bool q 0)
  | Some (JString s) => negb (String.eqb s "")
  | Some (JArray _) | Some (JObject _) => true
  end.

(** [v.key] on a parsed value: the last field of that name of an object,
    [undefined] on anything else. *)
Definition prop (v : Json) (key : string) : option Json :=
  match v with
  | JObject fields =>
      snd <$> List.find (fun kv => String.eqb (fst kv) key) (rev fields)
  | _ => None
  end.

(** [msg.payload] of an [rpc_request] frame. *)
Record Payload := {
  method : option string;
  params : option Json;
}.

Record RpcRequest := {
  id : string;
  payload : option Payload;
}.

(** A cache entry: [{ data, ts, size }]. *)
Record CacheEntry := {
  data : Json;
  ts : Z;
  size : Z;
}.

(** The [cache] map, in insertion order; its keys are pairwise distinct. *)
Definition Cache := list (string * CacheEntry).

Fixpoint cache_get (key : string) (c : Cache) : option CacheEntry :=
  match c with
  | [] => None
  | (k, e) :: c' => if String.eqb key k then Some e else cache_get key c'
  end.

(** [cache.set]: an existing key keeps its place in the order. *)
Fixpoint cache_set (key : string) (e : CacheEntry) (c : Cache) : Cache :=
  match c with
  | [] => [(key, e)]
  | (k, e') :: c' =>
      if String.eqb key k then (k, e) :: c'
      else (k, e') :: cache_set key e c'
  end.

Definition CACHE_MAX_SIZE : Z := 5000.

(** The eviction loop: [n] steps of the key iterator, each deleting the
    key it yields unless that key is the empty string. *)
Fixpoint evict_oldest (n : nat) (c : Cache) : Cache :=
  match n, c with
  | O, _ => c
  | S _, [] => []
  | S n', (k, e) :: c' =>
      if String.eqb k "" then (k, e) :: evict_oldest n' c'
      else evict_oldest n' c'
  end.

(** [Math.floor (CACHE_MAX_SIZE * 0.1)]: the double product is 500. *)
Definition toDelete : nat := 500.

(** [cache.set (key, entry)] followed by the size check. *)
Definition cache_store (key : string) (e : CacheEntry) (c : Cache) : Cache :=
  let c' := cache_set key e c in
  if CACHE_MAX_SIZE <? Z.of_nat (length c') then evict_oldest toDelete c'
  else c'.

(** What the lookup [CACHE_TTL[method]] can yield: a number of the table,
    [undefined], or a member of [Object.prototype], which as an operand
    of [<] converts to [NaN]. *)
Inductive TtlValue :=
| Ms (ms : Z)
| Undefined
| Inherited.

Definition object_prototype_keys : list string :=
  [ "constructor"; "hasOwnProperty"; "isPrototypeOf";
    "propertyIsEnumerable"; "toLocaleString"; "toString"; "valueOf";
    "__defineGetter__"; "__defineSetter__"; "__lookupGetter__";
    "__lookupSetter__"; "__proto__" ].

Fixpoint own (table : list (string * Z)) (key : string) : option Z :=
  match table with
  | [] => None
  | (k, v) :: table' => if String.eqb key k then Some v else own table' key
  end.

Definition table_get (table : list (string * Z)) (key : string) : TtlValue :=
  match own table key with
  | Some v => Ms v
  | None =>
      if existsb (String.eqb key) object_prototype_keys then Inherited
      else Undefined
  end.

(** [CACHE_TTL[method] || CACHE_TTL['default']] *)
Definition ttl_of (table : list (string * Z)) (method : string) : TtlValue :=
  match table_get table method with
  | Ms 0 | Undefined => table_get table "default"
  | v => v
  end.

(** [age < ttl] *)
Definition younger (age : Z) (ttl : TtlValue) : bool :=
  match ttl with
  | Ms ms => age <? ms
  | Undefined | Inherited => false
  end.

Definition CACHE_TTL : list (string * Z) :=
  [ ("getSlot", 500); ("getBlockHeight", 500);
    ("getRecentBlockhash", 500); ("getLatestBlockhash", 500);
    ("getAccountInfo", 800); ("getBalance", 1500);
    ("getTokenAccountBalance", 1500); ("getTokenAccountsByOwner", 3000);
    ("getProgramAccounts", 5000); ("getMultipleAccounts", 800);
    ("getBlock", 60000); ("getTransaction", 300000);
    ("getSignaturesForAddress", 5000); ("getConfirmedTransaction", 300000);
    ("getEpochInfo", 30000); ("getEpochSchedule", 300000);
    ("getHealth", 5000); ("getVersion", 300000);
    ("getGenesisHash", 3600000);
    ("getMinimumBalanceForRentExemption", 60000);
    ("getClusterNodes", 60000); ("getVoteAccounts", 30000);
    ("getSupply", 30000); ("getInflationRate", 60000);
    ("default", 1000) ].

Definition NO_CACHE_METHODS : list string :=
  [ "sendTransaction"; "sendRawTransaction"; "simulateTransaction";
    "requestAirdrop"; "getSignatureStatuses";
    "getRecentPerformanceSamples"; "getFeeForMessage" ].

(** [NO_CACHE_METHODS.has (method)] *)
Definition no_cache (method : string) : bool :=
  existsb (String.eqb method) NO_CACHE_METHODS.

(** How [fetchRPC] settles. *)
Inductive Fetched :=
| Resolved (data : Json) (size : Z)
| Rejected (message : string).

(** What one run of [handleRequest] leaves behind: the cache, the
    [rpc_response] fields, and the payloads it passed to [fetchRPC]. *)
Record Handled := {
  cache_after : Cache;
  result : option Json;
  error : option string;
  cached : bool;
  upstreamCalls : list (option Payload);
}.

Section Agent.

(** [JSON.stringify] *)
Variable JSON_stringify : Json -> string.

(** The TTL table; the agent runs with [CACHE_TTL]. *)
Variable table : list (string * Z).

(** [msg.payload?.method || 'unknown'] *)
Definition method_of (msg : RpcRequest) : string :=
  match payload msg with
  | Some p => Js.or_else (method p) "unknown"
  | None => "unknown"
  end.

(** [method + ':' + JSON.stringify (msg.payload?.params || [])] *)
Definition key_of (msg : RpcRequest) : string :=
  let p := match payload msg with
           | Some p => params p
           | None => None
           end in
  method_of msg ++ ":"
  ++ JSON_stringify (if truthy p then default (JArray []) p
                     else JArray []).

(** "Try cache first": the entry under [key], when there is one and it is
    younger than [ttl] at the time [t_lookup]. *)
Definition cache_lookup (ttl : TtlValue) (t_lookup : Z) (key : string)
    (cache : Cache) : option CacheEntry :=
  match cache_get key cache with
  | Some cachedData =>
      if younger (t_lookup - ts cachedData) ttl then Some cachedData
      else None
  | None => None
  end.

(** [handleRequest (msg)].  [t_lookup] and [t_store] are the clock
    readings at the cache check and at [cache.set]; [fetchRPC] is the
    upstream endpoint.  The session counters and the request log, which
    the cache does not read, are left out. *)
Definition handleRequest (t_lookup t_store : Z)
    (fetchRPC : option Payload -> Fetched) (msg : RpcRequest)
    (cache : Cache) : Handled :=
  let method := method_of msg in
  let key := key_of msg in
  let shouldCache := negb (no_cache method) in
  let ttl := ttl_of table method in
  let hit :=
    if shouldCache then cache_lookup ttl t_lookup key cache else None in
  match hit with
  | Some cachedData =>
      Build_Handled cache (Some (data cachedData)) None true []
  | None =>
      match fetchRPC (payload msg) with
      | Resolved res_data res_size =>
          Build_Handled
            (if shouldCache && truthy (Some res_data)
                && negb (truthy (prop res_data "error"))
             then cache_store key (Build_CacheEntry res_data t_store
                                     res_size) cache
             else cache)
            (Some res_data) None false [payload msg]
      | Rejected message =>
          Build_Handled cache None (Some message) false [payload msg]
      end
  end.

(** One request as the agent receives it: the clock readings of its run
    and the upstream endpoint as it answers at that time. *)
Record Call := {
  at_lookup : Z;
  at_store : Z;
  endpoint : option Payload -> Fetched;
  request : RpcRequest;
}.

(** Requests handled one after the other on the same cache: the outcome
    of each, and the cache after the last. *)
Fixpoint serve (calls : list Call) (cache : Cache) : list Handled * Cache :=
  match calls with
  | [] => ([], cache)
  | c :: calls' =>
      let r := handleRequest (at_lookup c) (at_store c) (endpoint c)
                 (request c) cache in
      let (rs, cache') := serve calls' (cache_after r) in
      (r :: rs, cache')
  end.

End Agent.

(** The size bound of the cache, with the fact the eviction loop relies
    on: no key is the empty string. *)
Definition cache_bounded (c : Cache) : Prop :=
  Z.of_nat (length c) <= CACHE_MAX_SIZE
  /\ Forall (fun kv => fst kv <> "") c.

End NodeAgent.

(** ** The SQLite module

    The statements of [database.ts], each on the table it names.  A table
    with a primary key is a finite map from the key to the other columns;
    [global_stats], whose only admissible key is [1], holds one row or
    none.  The clock reading [Date.now ()] of a statement is its [now]
    argument. *)

(** [interface GlobalStats], the same in the module and in the relay. *)
Module GlobalStats.
Record t := mk {
  totalDataServed : Z;
  totalRequests : Z;
  totalErrors : Z;
  startedAt : Z;
}.
End GlobalStats.

Module Database.

(** The columns of [wallet_stats] beside the key [wallet]. *)
Module Row.
Record t := mk {
  requests_handled : Z;
  avg_latency_ms : Z;
  cache_hits : Z;
  cache_misses : Z;
  errors : Z;
  total_uptime : Z;
  last_disconnect : Z;
  first_connect : Z;
  updated_at : Z;
}.
End Row.

(** [interface WalletStats] *)
Module WalletStats.
Record t := mk {
  wallet : string;
  requestsHandled : Z;
  avgLatencyMs : Z;
  cacheHits : Z;
  cacheMisses : Z;
  errors : Z;
  totalUptime : Z;
  lastDisconnect : Z;
  firstConnect : Z;
}.
End WalletStats.

(** [Partial<WalletStats>]: the fields an update carries. *)
Module Updates.
Record t := mk {
  wallet : option string;
  requestsHandled : option Z;
  avgLatencyMs : option Z;
  cacheHits : option Z;
  cacheMisses : option Z;
  errors : option Z;
  totalUptime : option Z;
  lastDisconnect : option Z;
  firstConnect : option Z;
}.
Definition none : t := mk None None None None None None None None None.
End Updates.

Abbreviation Table := (gmap string Row.t).

(** The column list of the two [SELECT] statements on [wallet_stats]. *)
Definition select (wallet : string) (r : Row.t) : WalletStats.t :=
  WalletStats.mk wallet (Row.requests_handled r) (Row.avg_latency_ms r)
    (Row.cache_hits r) (Row.cache_misses r) (Row.errors r)
    (Row.total_uptime r) (Row.last_disconnect r) (Row.first_connect r).

(** [getWalletStats (wallet)]: [row || null]. *)
Definition getWalletStats (wallet : string) (t : Table)
    : option WalletStats.t :=
  select wallet <$> t !! wallet.

(** [getAllWalletStats ()]: the rows as a map keyed by [row.wallet]. *)
Definition getAllWalletStats (t : Table) : gmap string WalletStats.t :=
  map_imap (fun wallet r => Some (select wallet r)) t.

(** [saveWalletStats (stats)]: [INSERT OR REPLACE] of the whole row. *)
Definition saveWalletStats (now : Z) (stats : WalletStats.t) (t : Table)
    : Table :=
  <[WalletStats.wallet stats :=
      Row.mk (WalletStats.requestsHandled stats)
        (WalletStats.avgLatencyMs stats) (WalletStats.cacheHits stats)
        (WalletStats.cacheMisses stats) (WalletStats.errors stats)
        (WalletStats.totalUptime stats) (WalletStats.lastDisconnect stats)
        (WalletStats.firstConnect stats) now]> t.

(** [updateWalletUptime (wallet, sessionUptime, disconnectTime)]: an
    [UPDATE ... WHERE wallet = ?], which changes the row of that key when
    there is one. *)
Definition updateWalletUptime (now : Z) (wallet : string)
    (sessionUptime disconnectTime : Z) (t : Table) : Table :=
  match t !! wallet with
  | Some r =>
      <[wallet :=
          Row.mk (Row.requests_handled r) (Row.avg_latency_ms r)
            (Row.cache_hits r) (Row.cache_misses r) (Row.errors r)
            (Row.total_uptime r + sessionUptime) disconnectTime
            (Row.first_connect r) now]> t
  | None => t
  end.

(** [{ ...existing, ...updates }] *)
Definition merge (existing : WalletStats.t) (updates : Updates.t)
    : WalletStats.t :=
  WalletStats.mk
    (default (WalletStats.wallet existing) (Updates.wallet updates))
    (default (WalletStats.requestsHandled existing)
             (Updates.requestsHandled updates))
    (default (WalletStats.avgLatencyMs existing)
             (Updates.avgLatencyMs updates))
    (default (WalletStats.cacheHits existing) (Updates.cacheHits updates))
    (default (WalletStats.cacheMisses existing)
             (Updates.cacheMisses updates))
    (default (WalletStats.errors existing) (Updates.errors updates))
    (default (WalletStats.totalUptime existing)
             (Updates.totalUptime updates))
    (default (WalletStats.lastDisconnect existing)
             (Updates.lastDisconnect updates))
    (default (WalletStats.firstConnect existing)
             (Updates.firstConnect updates)).

(** [updateWalletStats (wallet, updates)] *)
Definition updateWalletStats (now : Z) (wallet : string)
    (updates : Updates.t) (t : Table) : Table :=
  match getWalletStats wallet t with
  | None => t
  | Some existing => saveWalletStats now (merge existing updates) t
  end.

(** The sessions of a wallet written one after the other with
    [updateWalletUptime], each a pair of its length and its end. *)
Definition log_uptimes (now : Z) (wallet : string) (sessions : list (Z * Z))
    (t : Table) : Table :=
  fold_left (fun t s => updateWalletUptime now wallet (fst s) (snd s) t)
            sessions t.

(** *** [global_stats] *)

Abbreviation GlobalTable := (option GlobalStats.t).

(** [getGlobalStats ()]: the row, or zeros that start at the time of the
    call. *)
Definition getGlobalStats (now : Z) (g : GlobalTable) : GlobalStats.t :=
  match g with
  | Some row => row
  | None => GlobalStats.mk 0 0 0 now
  end.

(** [updateGlobalStats (bytes, isError)]: each column from
    [COALESCE ((SELECT column FROM global_stats WHERE id = 1), d)]. *)
Definition updateGlobalStats (now : Z) (bytes : Z) (isError : bool)
    (g : GlobalTable) : GlobalTable :=
  Some (GlobalStats.mk
          (default 0 (GlobalStats.totalDataServed <$> g) + bytes)
          (default 0 (GlobalStats.totalRequests <$> g) + 1)
          (default 0 (GlobalStats.totalErrors <$> g)
           + (if isError then 1 else 0))
          (default now (GlobalStats.startedAt <$> g))).

(** [saveGlobalStats (stats)] *)
Definition saveGlobalStats (stats : GlobalStats.t) (g : GlobalTable)
    : GlobalTable :=
  Some stats.

End Database.

(** ** The relay's global counters

    [globalStats] in memory, its row in the table and the JSON file that
    [loadGlobalStats] and [saveGlobalStats] fall back on when the
    database call throws.  Whether a call throws is an input of the
    model. *)

Module Global.

(** [json_file] is what [GLOBAL_STATS_FILE] parses to: [None] when the
    file does not exist or cannot be read or parsed. *)
Record State := mkState {
  globalStats : GlobalStats.t;
  global_stats : Database.GlobalTable;
  json_file : option GlobalStats.t;
}.

(** The initializer of [globalStats]. *)
Definition initial (now : Z) : GlobalStats.t :=
  GlobalStats.mk (40 * 1024 * 1024) 0 0 now.

(** [loadGlobalStats ()]: the four fields are assigned from
    [db.getGlobalStats ()]; when that call throws, [globalStats] is
    replaced by the contents of the JSON file if there is one, and is
    left as it is otherwise. *)
Definition loadGlobalStats (db_throws : bool) (now : Z) (s : State)
    : State :=
  if db_throws then
    match json_file s with
    | Some parsed => mkState parsed (global_stats s) (json_file s)
    | None => s
    end
  else
    let dbStats := Database.getGlobalStats now (global_stats s) in
    mkState
      (GlobalStats.mk (GlobalStats.totalDataServed dbStats)
         (GlobalStats.totalRequests dbStats)
         (GlobalStats.totalErrors dbStats)
         (GlobalStats.startedAt dbStats))
      (global_stats s) (json_file s).

(** [saveGlobalStats ()]: the row is written; when that call throws the
    JSON file is written instead, and when that throws too nothing is
    saved. *)
Definition saveGlobalStats (db_throws fs_throws : bool) (s : State)
    : State :=
  if db_throws then
    if fs_throws then s
    else mkState (globalStats s) (global_stats s) (Some (globalStats s))
  else
    mkState (globalStats s)
      (Database.saveGlobalStats
         (GlobalStats.mk (GlobalStats.totalDataServed (globalStats s))
            (GlobalStats.totalRequests (globalStats s))
            (GlobalStats.totalErrors (globalStats s))
            (GlobalStats.startedAt (globalStats s)))
         (global_stats s))
      (json_file s).

(** [addToGlobalStats (bytes, isError)] *)
Definition addToGlobalStats (bytes : Z) (isError : bool) (s : State)
    : State :=
  let g := globalStats s in
  mkState
    (GlobalStats.mk (GlobalStats.totalDataServed g + bytes)
       (GlobalStats.totalRequests g + 1)
       (if isError then GlobalStats.totalErrors g + 1
        else GlobalStats.totalErrors g)
       (GlobalStats.startedAt g))
    (global_stats s) (json_file s).

(** A process that starts at [now] on the table [g] and the file
    [file]. *)
Definition boot (db_throws : bool) (now : Z) (g : Database.GlobalTable)
    (file : option GlobalStats.t) : State :=
  loadGlobalStats db_throws now (mkState (initial now) g file).

(** [Answered] and [Failed] are the two calls of [addToGlobalStats] in the
    router, [Save] the one-minute timer, [Shutdown] the signal handler
    followed by the next start, [Crash] a start after an exit that saved
    nothing.  Each save says whether the database call and the write of
    the file throw, each start whether the database call throws. *)
Inductive Event :=
| Answered (responseSize : Z)
| Failed
| Save (db_throws fs_throws : bool)
| Shutdown (db_throws fs_throws : bool) (now : Z) (load_throws : bool)
| Crash (now : Z) (load_throws : bool).

Definition step (e : Event) (s : State) : State :=
  match e with
  | Answered responseSize => addToGlobalStats responseSize false s
  | Failed => addToGlobalStats 0 true s
  | Save db_throws fs_throws => saveGlobalStats db_throws fs_throws s
  | Shutdown db_throws fs_throws now load_throws =>
      let s' := saveGlobalStats db_throws fs_throws s in
      boot load_throws now (global_stats s') (json_file s')
  | Crash now load_throws =>
      boot load_throws now (global_stats s) (json_file s)
  end.

Definition run (es : list Event) (s : State) : State :=
  fold_left (fun s e => step e s) es s.

(** The counters are consistent: no more errors than requests, and
    neither negative. *)
Definition consistent (g : GlobalStats.t) : Prop :=
  0 <= GlobalStats.totalErrors g <= GlobalStats.totalRequests g.

End Global.
(** ** Failed calls of the router *)

Module Failures.

(** The two ways a routed call fails once a node was picked:
    [sendToNode] rejects (the node answered with an error, or nothing
    came within 30 s), or it resolves with [null] or [undefined] and the
    router throws on [result._cached]. *)
Inductive t :=
| Rejects (now : Z)
| ResolvesNull (now : Z) (latency : Z).

Definition event (nodeId : string) (f : t) : Relay.Event :=
  match f with
  | Rejects now => Relay.RpcRejected now nodeId
  | ResolvesNull now latency => Relay.RpcResolvedNull now nodeId latency
  end.

(** How many of the failures were resolutions. *)
Fixpoint resolved (fs : list t) : Z :=
  match fs with
  | [] => 0
  | Rejects _ :: fs' => resolved fs'
  | ResolvesNull _ _ :: fs' => 1 + resolved fs'
  end.

End Failures.


(** ** The relay's on-chain lookup *)

Module OnChain.

(** How the body of the [try] block in [getOnChainNodeAccount] ends for a
    wallet: with the deserialized account, with no account at the derived
    address, or with an exception ([PublicKey], the RPC call or the
    deserializer threw). *)
Inductive Lookup :=
| Account (nodeAccount : CacheNodeAccount)
| NoAccount
| Threw.

(** [onChainCache]: wallet to [{ data, timestamp }]. *)
Abbreviation Cache := (gmap string (option CacheNodeAccount * Z)).

Definition CACHE_TTL : Z := 5 * 60 * 1000.

(** What one call leaves behind: the value it resolves to, the cache, and
    the wallets it ran the [try] block for instead of answering from the
    cache. *)
Record Answer := mkAnswer {
  resolved : option CacheNodeAccount;
  cache_after : Cache;
  asked : list string;
}.

(** [getOnChainNodeAccount (walletAddress)].  [t_check] and [t_set] are
    the clock readings at the freshness test and at [onChainCache.set];
    [chain] is the chain as it answers during the call. *)
Definition getOnChainNodeAccount (t_check t_set : Z)
    (chain : string -> Lookup) (walletAddress : string) (cache : Cache)
    : Answer :=
  let fetch :=
    match chain walletAddress with
    | NoAccount =>
        mkAnswer None (<[walletAddress := (None, t_set)]> cache)
                 [walletAddress]
    | Account nodeAccount =>
        mkAnswer (Some nodeAccount)
                 (<[walletAddress := (Some nodeAccount, t_set)]> cache)
                 [walletAddress]
    | Threw => mkAnswer None cache [walletAddress]
    end in
  match cache !! walletAddress with
  | Some (data, timestamp) =>
      if t_check - timestamp <? CACHE_TTL then mkAnswer data cache []
      else fetch
  | None => fetch
  end.

(** What happens to [onChainCache] between two calls: another call from
    its start to its end; [onChainCache.delete], which [?refresh=true]
    and the two-minute refresh of the registered connected wallets run;
    or the [onChainCache.set] that ends a call which was in flight, having
    found no fresh entry when it started. *)
Inductive Op :=
| Get (t_check t_set : Z) (chain : string -> Lookup) (walletAddress : string)
| Delete (wallet : string)
| Store (walletAddress : string) (data : option CacheNodeAccount)
    (timestamp : Z).

Definition apply (op : Op) (cache : Cache) : Cache :=
  match op with
  | Get t_check t_set chain walletAddress =>
      cache_after (getOnChainNodeAccount t_check t_set chain walletAddress
                     cache)
  | Delete wallet => delete wallet cache
  | Store walletAddress data timestamp =>
      <[walletAddress := (data, timestamp)]> cache
  end.

Definition run (ops : list Op) (cache : Cache) : Cache :=
  fold_left (fun c op => apply op c) ops cache.

(** The operation is not a delete or a late store for [wallet], and not
    a call for it five minutes or more after [stored]. *)
Definition keeps (wallet : string) (stored : Z) (op : Op) : Prop :=
  match op with
  | Get t_check _ _ walletAddress =>
      walletAddress = wallet -> t_check - stored < CACHE_TTL
  | Delete w => w <> wallet
  | Store walletAddress _ _ => walletAddress <> wallet
  end.

(** [GET /node/:wallet]: the [registered] field of the answer and the
    cache, with [refresh] for the query [?refresh=true]. *)
Definition node_endpoint (refresh : bool) (t_check t_set : Z)
    (chain : string -> Lookup) (wallet : string) (cache : Cache) : Answer :=
  getOnChainNodeAccount t_check t_set chain wallet
    (if refresh then delete wallet cache else cache).

End OnChain.

(** ** Calls in flight

    [sendToNode], the [rpc_response] case of the message handler and the
    thirty-second timer, on the [pendingRequests] map of one node.  Each
    call of [sendToNode] makes a promise, numbered in the order of the
    calls; its [resolve], [reject] and timer are the value stored under
    the request id. *)

Module Pending.

(** A call of [resolve] or [reject]; the reason of a rejection is the
    argument of [new Error]. *)
Inductive Settlement :=
| Resolve (value : option Json)
| Reject (message : Json).

(** An [rpc_response] frame after [JSON.parse]. *)
Record RpcResponse := {
  id : option Json;
  result : option Json;
  error : option Json;
  latencyMs : option Json;
}.

(** - [pendingRequests]: request id to the promise stored under it.
    - [timers]: the timers that are set and have neither fired nor been
      cleared, each with the request id its callback closes over.
    - [promises]: how many calls of [sendToNode] there were.
    - [settled]: the calls of [resolve] and [reject], oldest first.
    - [frames]: the [rpc_request] frames written to the socket. *)
Record t := mk {
  pendingRequests : gmap string nat;
  timers : gmap nat string;
  promises : nat;
  settled : list (nat * Settlement);
  frames : list (string * Json);
}.

Definition empty : t := mk ∅ ∅ 0 [] [].

(** [sendToNode (node, requestId, payload)] *)
Definition sendToNode (requestId : string) (payload : Json) (s : t) : t :=
  let p := promises s in
  mk (<[requestId := p]> (pendingRequests s))
     (<[p := requestId]> (timers s))
     (S p) (settled s)
     (frames s ++ [(requestId, payload)]).

(** The callback of the timer of promise [p], when the timer is still
    set. *)
Definition timeout (p : nat) (s : t) : t :=
  match timers s !! p with
  | Some requestId =>
      mk (delete requestId (pendingRequests s))
         (delete p (timers s))
         (promises s)
         (settled s ++ [(p, Reject (JString "Request timeout"))])
         (frames s)
  | None => s
  end.

(** The key [pendingRequests.get (msg.id)] looks up: the map has string
    keys only, so any other value finds nothing. *)
Definition key_of_id (v : option Json) : option string :=
  match v with
  | Some (JString k) => Some k
  | _ => None
  end.

(** [msg.result._nodeLatencyMs = msg.latencyMs]: the value after the
    assignment, or [None] when the assignment throws a [TypeError].  On
    [undefined] and [null] it always throws; on a string, number or
    boolean it throws in strict code and does nothing otherwise; a
    property added to an array is not one of its items. *)
Definition set_nodeLatencyMs (strict : bool) (result : option Json)
    (latencyMs : Json) : option (option Json) :=
  match result with
  | None | Some JNull => None
  | Some (JObject fields) =>
      Some (Some (JObject (fields ++ [("_nodeLatencyMs", latencyMs)])))
  | Some (JArray items) => Some (Some (JArray items))
  | Some v => if strict then None else Some (Some v)
  end.

Section Handler.

(** Whether the module runs as strict code. *)
Variable strict : bool.

(** [case 'rpc_response'].  An exception inside it is caught by the
    [try] around the message handler, which logs it. *)
Definition rpc_response (msg : RpcResponse) (s : t) : t :=
  match key_of_id (id msg) with
  | None => s
  | Some k =>
      match pendingRequests s !! k with
      | None => s
      | Some p =>
          let s1 :=
            mk (delete k (pendingRequests s)) (delete p (timers s))
               (promises s) (settled s) (frames s) in
          let settle x :=
            mk (pendingRequests s1) (timers s1) (promises s1)
               (settled s1 ++ [(p, x)]) (frames s1) in
          if NodeAgent.truthy (error msg)
          then settle (Reject (default JNull (error msg)))
          else if NodeAgent.truthy (latencyMs msg)
          then match set_nodeLatencyMs strict (result msg)
                       (default JNull (latencyMs msg)) with
               | Some value => settle (Resolve value)
               | None => s1
               end
          else settle (Resolve (result msg))
      end
  end.

Inductive Event :=
| Send (requestId : string) (payload : Json)
| Response (msg : RpcResponse)
| Timeout (p : nat).

Definition step (e : Event) (s : t) : t :=
  match e with
  | Send requestId payload => sendToNode requestId payload s
  | Response msg => rpc_response msg s
  | Timeout p => timeout p s
  end.

Definition run (es : list Event) (s : t) : t :=
  fold_left (fun s e => step e s) es s.

End Handler.

(** The promises that [resolve] or [reject] was called for. *)
Definition settled_promises (s : t) : list nat := fst <$> settled s.

(** The bookkeeping of a node is coherent: an entry of [pendingRequests]
    names a promise whose timer is set and closes over the entry's key,
    timers belong to promises that exist, and a promise with a timer has
    not been settled. *)
Definition coherent (s : t) : Prop :=
  (forall k p, pendingRequests s !! k = Some p -> timers s !! p = Some k)
  /\ (forall p k, timers s !! p = Some k -> (p < promises s)%nat)
  /\ (forall p, In p (settled_promises s) ->
                timers s !! p = None /\ (p < promises s)%nat)
  /\ NoDup (settled_promises s).

(** The promise exists, has no timer and was not settled. *)
Definition lost (p : nat) (s : t) : Prop :=
  (p < promises s)%nat
  /\ timers s !! p = None
  /\ ~ In p (settled_promises s).

End Pending.

(** ** The node list of the relay: [GET /nodes] *)

Module Listing.

(** An entry of the answer.  The bond and the earnings, which the entry
    shows as floating-point quotients, are left out. *)
Record Entry := mkEntry {
  id : string;
  operator : string;
  registered : bool;
  uptime : Z;
  sessionUptime : Z;
  stats : Stats.t;
  isOnline : bool;
  location : string;
}.

(** [walletMap.get] and [walletMap.set] on an insertion-ordered map. *)
Fixpoint walletMap_get (wallet : string) (m : list (string * Node.t))
    : option Node.t :=
  match m with
  | [] => None
  | (k, n) :: m' =>
      if String.eqb wallet k then Some n else walletMap_get wallet m'
  end.

Fixpoint walletMap_set (wallet : string) (node : Node.t)
    (m : list (string * Node.t)) : list (string * Node.t) :=
  match m with
  | [] => [(wallet, node)]
  | (k, n) :: m' =>
      if String.eqb wallet k then (k, node) :: m'
      else (k, n) :: walletMap_set wallet node m'
  end.

(** [node.operator || 'unknown'] *)
Definition wallet_key (node : Node.t) : string :=
  if String.eqb (Node.operator node) "" then "unknown"
  else Node.operator node.

(** The body of the loop over [allNodes]. *)
Definition keep_best (walletMap : list (string * Node.t)) (node : Node.t)
    : list (string * Node.t) :=
  let wallet := wallet_key node in
  match walletMap_get wallet walletMap with
  | None => walletMap_set wallet node walletMap
  | Some existing =>
      if (Stats.requestsHandled (Node.stats existing)
          <? Stats.requestsHandled (Node.stats node))
         || (Node.lastPing existing <? Node.lastPing node)
      then walletMap_set wallet node walletMap
      else walletMap
  end.

(** "Aggregate by wallet - keep only the best connection per wallet" *)
Definition aggregate (allNodes : list Node.t) : list (string * Node.t) :=
  fold_left keep_best allNodes [].

(** The function mapped over [walletMap.values ()]; [now] stands for the
    two clock readings of one call of it. *)
Definition entry (now : Z) (walletStats : gmap string Persisted.t)
    (n : Node.t) : Entry :=
  let currentSessionUptime := (now - Node.connectedAt n) / 1000 in
  let persisted :=
    if String.eqb (Node.operator n) "" then None
    else walletStats !! Node.operator n in
  let totalUptime :=
    default 0 (Persisted.totalUptime <$> persisted)
    + currentSessionUptime in
  let requestsHandled :=
    Z.max (Stats.requestsHandled (Node.stats n))
          (default 0 (Persisted.requestsHandled <$> persisted)) in
  mkEntry (Node.id n) (Node.operator n) (Node.isRegistered n)
    totalUptime currentSessionUptime
    (Stats.mk requestsHandled
       (Stats.avgLatencyMs (Node.stats n)) (Stats.cacheHits (Node.stats n))
       (Stats.cacheMisses (Node.stats n)) (Stats.errors (Node.stats n)))
    (now - Node.lastPing n <? 120000)
    (if String.eqb (Node.location n) "" then "Unknown"
     else Node.location n).

(** What the loop keeps true of [walletMap] once it has looked at the
    nodes [seen]: the keys are distinct, each value is one of [seen] and
    is stored under its own wallet, and each of [seen] finds a value
    under its wallet. *)
Definition walletMap_inv (seen : list Node.t) (m : list (string * Node.t))
    : Prop :=
  NoDup (fst <$> m)
  /\ (forall k n, In (k, n) m -> k = wallet_key n /\ In n seen)
  /\ (forall n, In n seen ->
                exists n', walletMap_get (wallet_key n) m = Some n').

(** The nodes the endpoint starts from; [all] is the query [?all=true]. *)
Definition allNodes (all : bool) (h : Hub) : list Node.t :=
  List.filter (fun n => Node.isRegistered n || all)
              (Relay.connectedNodes_values h).

(** The [nodes] array of the answer. *)
Definition nodes (all : bool) (now : Z) (h : Hub) : list Entry :=
  entry now (walletStats h) <$> (snd <$> aggregate (allNodes all h)).

End Listing.

(** ** The relay's latency window: [GET /health] *)

Module Health.

Definition MAX_LATENCY_SAMPLES : nat := 100.

(** [recentLatencies.push (latency)] and the [shift] that follows when
    the array is longer than [MAX_LATENCY_SAMPLES]. *)
Definition push_latency (recentLatencies : list Z) (latency : Z) : list Z :=
  let l := (recentLatencies ++ [latency])%list in
  if (MAX_LATENCY_SAMPLES <? length l)%nat then tail l else l.

(** The window after the calls with the latencies [ls] were answered, in
    this order, by a process that has just started. *)
Definition recentLatencies (ls : list Z) : list Z :=
  fold_left push_latency ls [].

(** [Math.round (sum / length)], or [0] for an empty window.  The sum of
    a hundred latencies and the count are integers that a double holds
    exactly; the quotient is rounded half up. *)
Definition effectiveLatencyMs (recentLatencies : list Z) : Z :=
  if (0 <? length recentLatencies)%nat
  then (2 * fold_right Z.add 0 recentLatencies
        + Z.of_nat (length recentLatencies))
       / (2 * Z.of_nat (length recentLatencies))
  else 0.

End Health.

(** ** The node agent's link to the relays *)

Module AgentLink.

(** [RELAYS.EU.url], [RELAYS.US.url], [RELAYS.PL.url] *)
Definition EU_url : string := "wss://earn.whistle.ninja/ws".
Definition US_url : string := "wss://us.relay.whistle.ninja/ws".
Definition PL_url : string := "wss://pl.relay.whistle.ninja/ws".

Definition REGION_MAP : list (string * string) :=
  [ ("NA", "US"); ("US", "US"); ("CA", "US"); ("MX", "US");
    ("EU", "EU"); ("DE", "EU"); ("FR", "EU"); ("GB", "EU"); ("NL", "EU");
    ("IT", "EU"); ("ES", "EU");
    ("PL", "PL"); ("CZ", "PL"); ("SK", "PL"); ("HU", "PL"); ("RO", "PL");
    ("UA", "PL"); ("BY", "PL");
    ("SA", "US"); ("BR", "US"); ("AR", "US"); ("CL", "US"); ("CO", "US");
    ("AS", "EU"); ("OC", "EU"); ("AU", "EU"); ("JP", "EU"); ("KR", "EU");
    ("SG", "EU"); ("IN", "EU");
    ("AF", "EU"); ("ZA", "EU"); ("NG", "EU"); ("EG", "EU") ].

(** What [REGION_MAP[key]] yields: a relay code of the table,
    [undefined], or a member of [Object.prototype], which is truthy and
    equal to no string.  A key that is [undefined] reads the property
    named "undefined". *)
Inductive Looked :=
| Code (relay : string)
| Absent
| Inherited.

Fixpoint own (table : list (string * string)) (key : string)
    : option string :=
  match table with
  | [] => None
  | (k, v) :: table' => if String.eqb key k then Some v else own table' key
  end.

Definition region_get (key : option string) : Looked :=
  let k := default "undefined" key in
  match own REGION_MAP k with
  | Some v => Code v
  | None =>
      if existsb (String.eqb k) NodeAgent.object_prototype_keys
      then Inherited else Absent
  end.

(** [REGION_MAP[country] || REGION_MAP[continent] || 'EU']; every code
    of the table is a non-empty string. *)
Definition preferredRelay (country continent : option string) : Looked :=
  match region_get country with
  | Absent =>
      match region_get continent with
      | Absent => Code "EU"
      | v => v
      end
  | v => v
  end.

(** The order [detectRegion] gives [RELAY_URLS] once the lookup
    answered. *)
Definition reorder (preferred : Looked) : list string :=
  match preferred with
  | Code "US" => [US_url; EU_url; PL_url]
  | Code "PL" => [PL_url; EU_url; US_url]
  | _ => [EU_url; PL_url; US_url]
  end.

(** The initializer of [RELAY_URLS], which stays when the lookup fails. *)
Definition default_order : list string := [EU_url; US_url; PL_url].

(** [RELAY_URLS] after [detectRegion]: [geo] is the pair
    [(country, continent)] of the answer, or [None] when the request
    failed. *)
Definition detectRegion (geo : option (option string * option string))
    : list string :=
  match geo with
  | Some (country, continent) => reorder (preferredRelay country continent)
  | None => default_order
  end.

Definition MAX_FAILS_BEFORE_SWITCH : nat := 3.

(** The module variables the connection logic reads and writes, with
    - [dialled]: the argument of each [new WebSocket (relayUrl)], oldest
      first, [None] for [undefined];
    - [scheduled]: the delay of each [setTimeout (connect, delay)]. *)
Record Link := mkLink {
  RELAY_URLS : list string;
  currentRelayIndex : nat;
  reconnectAttempts : nat;
  connected : bool;
  lastPing : Z;
  sessions : Z;
  totalUptime : Z;
  sessionStart : Z;
  dialled : list (option string);
  scheduled : list Z;
}.

(** The state [start ()] calls [connect ()] in: the module was loaded at
    [now], [loadData] read [sessions] and [totalUptime] from the data
    file, and [detectRegion] ordered the relays. *)
Definition initial (now sessions totalUptime : Z)
    (geo : option (option string * option string)) : Link :=
  mkLink (detectRegion geo) 0 0 false now sessions totalUptime now [] [].

(** [connect ()]; [throws] tells whether [new WebSocket] throws.  The
    [ws.close ()] it starts with has no effect on these variables: the
    close event of that socket, when it comes, is an event of its own. *)
Definition connect (throws : bool) (l : Link) : Link :=
  let switch := (MAX_FAILS_BEFORE_SWITCH <=? reconnectAttempts l)%nat in
  let index :=
    if switch
    then ((currentRelayIndex l + 1) mod length (RELAY_URLS l))%nat
    else currentRelayIndex l in
  let attempts := if switch then 0%nat else reconnectAttempts l in
  mkLink (RELAY_URLS l) index
    (if throws then S attempts else attempts)
    (connected l) (lastPing l) (sessions l) (totalUptime l)
    (sessionStart l)
    (dialled l ++ [RELAY_URLS l !! index])
    (if throws then scheduled l ++ [5000] else scheduled l).

(** [onOpen] *)
Definition onOpen (now : Z) (l : Link) : Link :=
  mkLink (RELAY_URLS l) (currentRelayIndex l) 0 (connected l) now
    (sessions l) (totalUptime l) (sessionStart l) (dialled l)
    (scheduled l).

(** [Math.min (2000 * Math.pow (2, reconnectAttempts - 1), 30000)] for a
    count of one or more. *)
Definition backoff (reconnectAttempts : nat) : Z :=
  Z.min (2000 * 2 ^ (Z.of_nat reconnectAttempts - 1)) 30000.

(** [onClose] *)
Definition onClose (l : Link) : Link :=
  let attempts := S (reconnectAttempts l) in
  mkLink (RELAY_URLS l) (currentRelayIndex l) attempts false (lastPing l)
    (sessions l) (totalUptime l) (sessionStart l) (dialled l)
    (scheduled l ++ [backoff attempts]).

(** The frames [onMessage] acts on, beside [rpc_request]. *)
Inductive Frame :=
| registered
| not_registered
| auth_failed
| ping.

(** [onMessage] *)
Definition onMessage (now : Z) (m : Frame) (l : Link) : Link :=
  match m with
  | registered =>
      mkLink (RELAY_URLS l) (currentRelayIndex l) (reconnectAttempts l)
        true (lastPing l) (sessions l + 1) (totalUptime l) (sessionStart l)
        (dialled l) (scheduled l)
  | not_registered | auth_failed =>
      mkLink (RELAY_URLS l) (currentRelayIndex l) (reconnectAttempts l)
        false (lastPing l) (sessions l) (totalUptime l) (sessionStart l)
        (dialled l) (scheduled l)
  | ping =>
      mkLink (RELAY_URLS l) (currentRelayIndex l) (reconnectAttempts l)
        (connected l) now (sessions l) (totalUptime l) (sessionStart l)
        (dialled l) (scheduled l)
  end.

(** [saveData ()], on the two variables it changes. *)
Definition saveData (now : Z) (l : Link) : Link :=
  mkLink (RELAY_URLS l) (currentRelayIndex l) (reconnectAttempts l)
    (connected l) (lastPing l) (sessions l)
    (totalUptime l + (now - sessionStart l) / 1000) now
    (dialled l) (scheduled l).

(** The thirty-second interval: "Health check & proactive failover". *)
Definition healthCheck (now : Z) (throws : bool) (l : Link) : Link :=
  let timeSincePing := now - lastPing l in
  let l1 :=
    if connected l && (60000 <? timeSincePing) then
      connect throws
        (mkLink (RELAY_URLS l) (currentRelayIndex l)
           MAX_FAILS_BEFORE_SWITCH false (lastPing l) (sessions l)
           (totalUptime l) (sessionStart l) (dialled l) (scheduled l))
    else if negb (connected l) && (120000 <? timeSincePing) then
      connect throws l
    else l in
  saveData now l1.

Inductive Event :=
| Connect (throws : bool)
| Open (now : Z)
| Message (now : Z) (m : Frame)
| Close
| HealthCheck (now : Z) (throws : bool).

Definition step (e : Event) (l : Link) : Link :=
  match e with
  | Connect throws => connect throws l
  | Open now => onOpen now l
  | Message now m => onMessage now m l
  | Close => onClose l
  | HealthCheck now throws => healthCheck now throws l
  end.

Definition run (es : list Event) (l : Link) : Link :=
  fold_left (fun l e => step e l) es l.

(** [k] sessions that end one after the other without a socket opening
    in between: the close event, then the reconnect it scheduled. *)
Definition failures (k : nat) : list Event :=
  concat (repeat [Close; Connect false] k).

(** The first attempt and five such failures, with a reconnect forced by
    the health check at [at_check] after the third. *)
Definition forced_reconnect (at_check : Z) : list Event :=
  (Connect false :: failures 3
   ++ [HealthCheck at_check false] ++ failures 2)%list.

(** The events of sessions that open and then end, one for each clock
    reading of the openings. *)
Definition short_sessions (nows : list Z) : list Event :=
  concat (map (fun now => [Open now; Close; Connect false]) nows).

End AgentLink.

(** ** The node agent's session counters *)

Module AgentSession.

(** [session] *)
Record Session := mkSession {
  requests : Z;
  hits : Z;
  errors : Z;
  latencySum : Z;
  peak : Z;
  bytes : Z;
  bypassedCache : Z;
}.

Definition zero : Session := mkSession 0 0 0 0 0 0 0.

(** An entry of [requestLog], without the wall-clock string. *)
Record LogEntry := mkLogEntry {
  log_method : string;
  log_latency : Z;
  log_cached : bool;
  log_error : bool;
}.

(** [requestLog.push (entry)] and the [shift] that follows when the log
    is longer than fifty. *)
Definition log_push (requestLog : list LogEntry) (e : LogEntry)
    : list LogEntry :=
  let l := (requestLog ++ [e])%list in
  if (50 <? length l)%nat then tail l else l.

Section Agent.
Variable JSON_stringify : Json -> string.
Variable table : list (string * Z).

(** The variable [size] at the end of [handleRequest]: the size of the
    entry on a hit, the size of the upstream answer on a miss, zero when
    the upstream call failed. *)
Definition size_of (t_lookup : Z)
    (fetchRPC : option NodeAgent.Payload -> NodeAgent.Fetched)
    (msg : NodeAgent.RpcRequest) (cache : NodeAgent.Cache) : Z :=
  let method := NodeAgent.method_of msg in
  let hit :=
    if negb (NodeAgent.no_cache method)
    then NodeAgent.cache_lookup (NodeAgent.ttl_of table method) t_lookup
           (NodeAgent.key_of JSON_stringify msg) cache
    else None in
  match hit with
  | Some cachedData => NodeAgent.size cachedData
  | None =>
      match fetchRPC (NodeAgent.payload msg) with
      | NodeAgent.Resolved _ res_size => res_size
      | NodeAgent.Rejected _ => 0
      end
  end.

(** A request with the two further clock readings of its run: [start]
    and the one [lat] is taken from. *)
Record Timed := {
  call : NodeAgent.Call;
  at_start : Z;
  at_end : Z;
}.

(** The [catch] branch ran: the upstream call failed. *)
Definition failed (r : NodeAgent.Handled) : bool :=
  match NodeAgent.error r with Some _ => true | None => false end.

(** The counters and the log after [handleRequest] ran on [c] with the
    outcome [r]. *)
Definition count (c : Timed) (cache : NodeAgent.Cache) (r : NodeAgent.Handled)
    (s : Session * list LogEntry) : Session * list LogEntry :=
  let msg := NodeAgent.request (call c) in
  let method := NodeAgent.method_of msg in
  let shouldCache := negb (NodeAgent.no_cache method) in
  let lat := at_end c - at_start c in
  let size := size_of (NodeAgent.at_lookup (call c))
                (NodeAgent.endpoint (call c)) msg cache in
  let ss := fst s in
  (mkSession
     (requests ss + 1)
     (if NodeAgent.cached r then hits ss + 1 else hits ss)
     (if failed r then errors ss + 1 else errors ss)
     (latencySum ss + lat)
     (if peak ss <? lat then lat else peak ss)
     (bytes ss + size)
     (if shouldCache then bypassedCache ss else bypassedCache ss + 1),
   log_push (snd s)
     (mkLogEntry method lat (NodeAgent.cached r)
        (Js.truthy (NodeAgent.error r)))).

(** Requests handled one after the other: the outcomes, the cache, the
    counters and the log. *)
Fixpoint serve (calls : list Timed) (cache : NodeAgent.Cache)
    (s : Session * list LogEntry)
    : list NodeAgent.Handled * NodeAgent.Cache * (Session * list LogEntry) :=
  match calls with
  | [] => ([], cache, s)
  | c :: calls' =>
      let r := NodeAgent.handleRequest JSON_stringify table
                 (NodeAgent.at_lookup (call c)) (NodeAgent.at_store (call c))
                 (NodeAgent.endpoint (call c)) (NodeAgent.request (call c))
                 cache in
      let '(rs, cache', s') :=
        serve calls' (NodeAgent.cache_after r) (count c cache r s) in
      (r :: rs, cache', s')
  end.

End Agent.

(** No entry of the cache holds a failed answer: the stored value is
    truthy and has no truthy [error] member. *)
Definition clean (c : NodeAgent.Cache) : Prop :=
  List.Forall
    (fun kv =>
       NodeAgent.truthy (Some (NodeAgent.data (snd kv))) = true
       /\ NodeAgent.truthy (NodeAgent.prop (NodeAgent.data (snd kv)) "error")
          = false) c.

(** How many of the outcomes satisfy [f]. *)
Definition how_many (f : NodeAgent.Handled -> bool)
    (rs : list NodeAgent.Handled) : Z :=
  Z.of_nat (length (List.filter f rs)).

(** The upstream calls of a list of outcomes. *)
Definition upstream_calls (rs : list NodeAgent.Handled) : Z :=
  Z.of_nat (length (concat (NodeAgent.upstreamCalls <$> rs))).

End AgentSession.

(** * Example inputs

    Concrete hubs, frames and requests that the examples below run the
    model on. *)

Module Examples.
Import Relay.

(** The two averages, computed with exact arithmetic. *)
Definition ema_7_3 (a b : Z) : Z := (7 * a + 3 * b) / 10.
Definition ema_8_2 (a b : Z) : Z := (8 * a + 2 * b) / 10.

Definition no_node : Node.t :=
  Node.mk "" "" "" false 0 0 0 0 0 "" "" Stats.zero None.

Definition no_entry : Persisted.t := Persisted.mk 0 0 0 0 0 0 0 0 None.

(** The node object of a connection, and the entry of a wallet. *)
Definition node_of (h : Hub) (nodeId : string) : Node.t :=
  default no_node (sockets h !! nodeId).

Definition entry_of (h : Hub) (w : string) : Persisted.t :=
  default no_entry (walletStats h !! w).

Definition register_frame (w : string) : RegisterMsg :=
  {| wallet := Some w; name := None; timestamp := None; signature := None |}.

Definition no_fields : RegisterMsg :=
  {| wallet := None; name := None; timestamp := None; signature := None |}.

(** A frame with a wallet, no signature and a timestamp of zero. *)
Definition unsigned_stale : RegisterMsg :=
  {| wallet := Some "W1"; name := None; timestamp := Some 0;
     signature := None |}.

Definition bonded : CacheNodeAccount :=
  {| acc_isActive := true; acc_bondAmount := 1000000;
     acc_pendingEarnings := 0; acc_totalEarned := 0 |}.

(** One open socket that has not registered. *)
Definition one_socket : Hub := on_connection 0 "n1" "1.1.1.1" "EU" (boot ∅).

(** Three fresh nodes of three wallets. *)
Definition three_connections : list Event :=
  [ Connection 0 "a1" "10.0.0.1" "Local";
    Register 10 "a1" (register_frame "WalletA") (Some bonded);
    Connection 20 "b1" "10.0.0.2" "Local";
    Register 30 "b1" (register_frame "WalletB") (Some bonded);
    Connection 40 "c1" "10.0.0.3" "Local";
    Register 50 "c1" (register_frame "WalletC") (Some bonded) ].

Definition three_nodes : Hub :=
  run true ema_7_3 ema_8_2 three_connections (boot ∅).

Definition pool3 : list Node.t := pool_at true 1000 three_nodes.

Definition node_b : Node.t := default no_node (pool3 !! 1%nat).

Definition nows4 : list Z := [1000; 2000; 3000; 4000].

Definition nows3 : list Z := [1000; 2000; 3000].

(** Node A after ten answered calls of 50 ms, node B after ten answered
    calls of 40 ms and four failed ones. *)
Definition nodes_A_and_B : Hub :=
  run true ema_7_3 ema_8_2
    ([ Connection 0 "a1" "10.0.0.1" "Local";
       Register 10 "a1" (register_frame "WalletA") (Some bonded);
       Connection 20 "b1" "10.0.0.2" "Local";
       Register 30 "b1" (register_frame "WalletB") (Some bonded) ]
     ++ repeat (RpcResolved 100 "a1" 50 false) 10
     ++ repeat (RpcResolved 100 "b1" 40 false) 10
     ++ repeat (RpcRejected 100 "b1") 4)%list
    (boot ∅).

(** A wallet served one session from 1.1.1.1 and a socket from 2.2.2.2
    has just opened. *)
Definition before_reconnect : Hub :=
  run true ema_7_3 ema_8_2
    [ Connection 0 "n1" "1.1.1.1" "EU";
      Register 10 "n1" (register_frame "W1") (Some bonded);
      RpcResolved 5000 "n1" 40 true;
      RpcRejected 6000 "n1";
      Close 20000 "n1";
      Connection 30000 "n2" "2.2.2.2" "US" ]
    (boot ∅).

(** A table with one row, and a process that starts on it, serves one
    call for that wallet and has not saved since. *)
(** The same session, followed by a graceful shutdown and the start of
    the next process before the socket from 2.2.2.2 opens. *)
Definition before_reconnect_restarted : Hub :=
  run true ema_7_3 ema_8_2
    [ Connection 0 "n1" "1.1.1.1" "EU";
      Register 10 "n1" (register_frame "W1") (Some bonded);
      RpcResolved 5000 "n1" 40 true;
      RpcRejected 6000 "n1";
      Close 20000 "n1";
      Shutdown;
      Connection 30000 "n2" "2.2.2.2" "EU" ]
    (boot ∅).




(** A wallet that was never seen connects, answers one routed call ten
    seconds later and disconnects after twenty seconds. *)
Definition first_session : list Event :=
  [ Connection 0 "n1" "1.1.1.1" "EU";
    Register 0 "n1" (register_frame "W1") (Some bonded);
    Route 9960;
    RpcResolved 10000 "n1" 40 false;
    Close 20000 "n1" ].

(** The same wallet then serves a second session of five seconds. *)
Definition second_session : list Event :=
  [ Connection 30000 "n2" "1.1.1.1" "EU";
    Register 30000 "n2" (register_frame "W1") (Some bonded);
    RpcResolved 31000 "n2" 40 false;
    Close 35000 "n2" ].

(** A second connection registers a wallet whose first connection is
    live; the first socket's close event follows; a third connection
    registers the same wallet. *)
Definition takeover : list Event :=
  [ Connection 0 "n1" "1.1.1.1" "EU";
    Register 10 "n1" (register_frame "W1") (Some bonded);
    RpcResolved 5000 "n1" 40 false;
    Connection 20000 "n2" "1.1.1.1" "EU";
    Register 20010 "n2" (register_frame "W1") (Some bonded) ].

Definition old_socket_closes : list Event :=
  (takeover ++ [ Close 20500 "n1" ])%list.

Definition third_connection : list Event :=
  (old_socket_closes
   ++ [ Connection 30000 "n3" "1.1.1.1" "EU";
        Register 30010 "n3" (register_frame "W1") (Some bonded) ])%list.

(** One connection registers a bonded wallet and then a wallet that is
    not on chain. *)
Definition second_wallet : list Event :=
  [ Connection 0 "n1" "1.1.1.1" "EU";
    Register 10 "n1" (register_frame "W1") (Some bonded);
    Register 20 "n1" (register_frame "W2") None ].

(** A wallet that is not on chain registers on a fresh connection. *)
Definition unbonded_register : Hub :=
  on_register true ema_7_3 1000 "n1" (register_frame "W1") None one_socket.

Import NodeAgent.

(** A serializer for the examples. *)
Definition show_params (j : Json) : string :=
  match j with
  | JArray [] => "[]"
  | JArray [JString s] => "[" ++ s ++ "]"
  | _ => "?"
  end.

Definition balance_request : RpcRequest :=
  {| id := "r1";
     payload := Some {| method := Some "getBalance";
                        params := Some (JArray [JString "W1"]) |} |}.





Definition balance_response : Json :=
  JObject [("jsonrpc", JString "2.0"); ("result", JNumber (5 # 1))].

Definition upstream (p : option Payload) : Fetched :=
  Resolved balance_response 42.

End Examples.

(** * Further example inputs *)

Module Scenarios.
Import Relay.
Import Examples.

(** The hub of the three fresh nodes after the call that arrives at
    time 1000 was routed. *)
Definition after_first_call : Hub := set_roundRobinIndex three_nodes 1.

(** Two calls, a save that falls back on the file, a crash and a start
    whose database call throws, one more failed call, and a save into the
    table. *)
Definition global_events : list Global.Event :=
  [ Global.Answered 120; Global.Failed; Global.Save true false;
    Global.Crash 5000 true; Global.Failed; Global.Save false false ].

(** A call for another wallet, a delete of that wallet's entry, and a
    second call for the first wallet two minutes after its entry was
    stored. *)
Definition other_lookups : list OnChain.Op :=
  [ OnChain.Get 5000 5010 (fun _ => OnChain.Account bonded) "W2";
    OnChain.Delete "W2";
    OnChain.Get 121010 121020 (fun _ => OnChain.Account bonded) "W1" ].

Definition three_rejections : list Failures.t :=
  [ Failures.Rejects 1000; Failures.Rejects 2000; Failures.Rejects 3000 ].

Definition five_null_answers : list Failures.t :=
  [ Failures.ResolvesNull 1000 12; Failures.ResolvesNull 2000 12;
    Failures.ResolvesNull 3000 12; Failures.ResolvesNull 4000 12;
    Failures.ResolvesNull 5000 12 ].

(** One call in flight, and the answer of a node whose upstream
    returned [null] twelve milliseconds after it was asked. *)
Definition one_call : list Pending.Event :=
  [ Pending.Send "r1" (JObject [("method", JString "getHealth")]) ].

Definition null_answer : Pending.RpcResponse :=
  {| Pending.id := Some (JString "r1");
     Pending.result := Some JNull;
     Pending.error := None;
     Pending.latencyMs := Some (JNumber (12 # 1)) |}.

Definition after_null_answer : list Pending.Event :=
  [ Pending.Timeout 0; Pending.Response null_answer ].

(** An agent whose region lookup failed, after its first socket was
    opened. *)
Definition first_dial : AgentLink.Link :=
  AgentLink.connect false (AgentLink.initial 0 4 3600 None).

(** A registered agent that was pinged last at time 1000. *)
Definition pinged_at_1000 : AgentLink.Link :=
  AgentLink.run
    [ AgentLink.Open 500; AgentLink.Message 600 AgentLink.registered;
      AgentLink.Message 1000 AgentLink.ping ]
    first_dial.

(** The health checks that follow, thirty seconds apart, while the
    relay stays silent. *)
Definition quiet_ticks : list (Z * bool) := [(30500, false); (60500, false)].

(** A cache with one entry, stored at time 1010. *)
Definition slot_entry : NodeAgent.CacheEntry :=
  {| NodeAgent.data := JObject [("result", JNumber (7 # 1))];
     NodeAgent.ts := 1010;
     NodeAgent.size := 30 |}.

Definition one_entry : NodeAgent.Cache := [("getSlot:[]", slot_entry)].

Definition newer_entry : NodeAgent.CacheEntry :=
  {| NodeAgent.data := JObject [("result", JNumber (8 # 1))];
     NodeAgent.ts := 2000;
     NodeAgent.size := 30 |}.

(** A cache at its bound: 5000 entries, stored one millisecond apart
    under the keys [getAccountInfo:[0]] to [getAccountInfo:[4999]]. *)
Definition numbered_key (i : nat) : string :=
  "getAccountInfo:[" ++ NilEmpty.string_of_uint (Nat.to_uint i) ++ "]".

Definition numbered_entry (i : nat) : NodeAgent.CacheEntry :=
  {| NodeAgent.data := JObject [("result", JNumber (inject_Z (Z.of_nat i)))];
     NodeAgent.ts := Z.of_nat i;
     NodeAgent.size := 30 |}.

Definition full_cache : NodeAgent.Cache :=
  map (fun i => (numbered_key i, numbered_entry i)) (seq 0 5000).

(** A request for a method named like a member of [Object.prototype]. *)
Definition toString_request : NodeAgent.RpcRequest :=
  {| NodeAgent.id := "r3";
     NodeAgent.payload :=
       Some {| NodeAgent.method := Some "toString";
               NodeAgent.params := None |} |}.

End Scenarios.

(** * Properties *)

Import Relay.
Import Examples.

(** ** Round-robin selection *)

Section RoundRobin.
Local Open Scope nat_scope.

Lemma rr_indices_seq K rr M :
  0 < K ->
  rr_indices K rr M = map (fun j => (rr + 1 + j) mod K) (seq 0 M).
Proof.
  intros HK. revert rr. induction M as [|M IH]; intros rr; [reflexivity|].
  cbn [rr_indices seq map]. unfold nextIndex at 1.
  rewrite Nat.add_0_r. f_equal.
  rewrite IH, <- seq_shift, map_map. apply List.map_ext. intros j.
  unfold nextIndex.
  rewrite <- Nat.add_assoc, Nat.Div0.add_mod_idemp_l. f_equal; lia.
Qed.

Lemma rr_indices_lt K rr M :
  0 < K -> Forall (fun i => i < K) (rr_indices K rr M).
Proof.
  intros HK. rewrite rr_indices_seq by done. apply List.Forall_forall.
  intros i Hi. apply in_map_iff in Hi as (j & <- & _).
  apply Nat.mod_upper_bound. lia.
Qed.

(** One more call reaches residue [i] exactly when the call number is
    congruent to [i]. *)
Lemma div_step K x i :
  i < K ->
  (x + 1 + (K - 1 - i)) / K
  = (x + (K - 1 - i)) / K + (if Nat.eq_dec (x mod K) i then 1 else 0).
Proof.
  intros Hi.
  pose proof (Nat.div_mod_eq x K) as Hx.
  pose proof (Nat.mod_upper_bound x K ltac:(lia)) as Hr.
  set (q := x / K) in *. set (r := x mod K) in *.
  destruct (Nat.eq_dec r i) as [E|E].
  - replace (x + 1 + (K - 1 - i)) with ((q + 1) * K + 0) by nia.
    replace (x + (K - 1 - i)) with (q * K + (K - 1)) by nia.
    rewrite !Nat.div_add_l, !Nat.div_small by lia. lia.
  - destruct (Nat.lt_ge_cases r i).
    + replace (x + 1 + (K - 1 - i)) with (q * K + (K - (i - r))) by nia.
      replace (x + (K - 1 - i)) with (q * K + (K - 1 - (i - r))) by nia.
      rewrite !Nat.div_add_l, !Nat.div_small by lia. lia.
    + replace (x + 1 + (K - 1 - i)) with ((q + 1) * K + (r - i)) by nia.
      replace (x + (K - 1 - i)) with ((q + 1) * K + (r - i - 1)) by nia.
      rewrite !Nat.div_add_l, !Nat.div_small by lia. lia.
Qed.

Lemma count_residue K c i M :
  i < K ->
  count_occ Nat.eq_dec (map (fun j => (c + j) mod K) (seq 0 M)) i
  + (c + (K - 1 - i)) / K
  = (c + M + (K - 1 - i)) / K.
Proof.
  intros Hi. induction M as [|M IH].
  - cbn. rewrite Nat.add_0_r. lia.
  - rewrite seq_S, map_app, count_occ_app. cbn [map count_occ Nat.add].
    replace (c + S M) with (c + M + 1) by lia. rewrite div_step by done.
    destruct (Nat.eq_dec ((c + M) mod K) i); lia.
Qed.

Lemma div_window K a M :
  0 < K ->
  (a + M) / K = a / K + M / K \/
  ((a + M) / K = a / K + M / K + 1 /\ M mod K <> 0).
Proof.
  intros HK.
  pose proof (Nat.div_mod_eq M K) as HM.
  pose proof (Nat.mod_upper_bound M K ltac:(lia)) as Hs.
  pose proof (Nat.div_mod_eq a K) as Ha.
  pose proof (Nat.mod_upper_bound a K ltac:(lia)) as Hr.
  set (m := M / K) in *. set (s := M mod K) in *.
  set (q := a / K) in *. set (r := a mod K) in *.
  destruct (Nat.lt_ge_cases (r + s) K).
  - left. replace (a + M) with ((q + m) * K + (r + s)) by nia.
    rewrite Nat.div_add_l, Nat.div_small by lia. lia.
  - right. split; [|lia].
    replace (a + M) with ((q + m + 1) * K + (r + s - K)) by nia.
    rewrite Nat.div_add_l, Nat.div_small by lia. lia.
Qed.

Lemma ceil_div K M :
  0 < K ->
  (M + K - 1) / K = M / K + (if Nat.eq_dec (M mod K) 0 then 0 else 1).
Proof.
  intros HK.
  pose proof (Nat.div_mod_eq M K) as HM.
  pose proof (Nat.mod_upper_bound M K ltac:(lia)) as Hs.
  set (m := M / K) in *. set (s := M mod K) in *.
  destruct (Nat.eq_dec s 0).
  - replace (M + K - 1) with (m * K + (K - 1)) by nia.
    rewrite Nat.div_add_l, Nat.div_small by lia. lia.
  - replace (M + K - 1) with ((m + 1) * K + (s - 1)) by nia.
    rewrite Nat.div_add_l, Nat.div_small by lia. lia.
Qed.

(** Over [M] steps of the index, position [i] of a pool of size [K] is
    selected floor (M / K) or ceil (M / K) times. *)
Lemma rr_share K rr M i :
  i < K ->
  count_occ Nat.eq_dec (rr_indices K rr M) i = M / K \/
  count_occ Nat.eq_dec (rr_indices K rr M) i = (M + K - 1) / K.
Proof.
  intros Hi. rewrite rr_indices_seq by lia.
  pose proof (count_residue K (rr + 1) i M Hi) as Hc.
  replace (rr + 1 + M + (K - 1 - i)) with (rr + 1 + (K - 1 - i) + M) in Hc
    by lia.
  rewrite ceil_div by lia.
  destruct (div_window K (rr + 1 + (K - 1 - i)) M ltac:(lia)) as [E|[E Hne]].
  - left. lia.
  - right. destruct (Nat.eq_dec (M mod K) 0); lia.
Qed.

End RoundRobin.

Section RouteFacts.
Context (REQUIRE_REGISTRATION : bool).
Local Abbreviation pool_at' := (pool_at REQUIRE_REGISTRATION).
Local Abbreviation route' := (route REQUIRE_REGISTRATION).
Local Abbreviation route_calls' := (route_calls REQUIRE_REGISTRATION).
Local Open Scope nat_scope.

Lemma sort_insert_length x l : length (sort_insert x l) = S (length l).
Proof.
  induction l as [|y l IH]; cbn; [done|].
  destruct (_ <=? _)%Z; cbn; congruence.
Qed.

Lemma sortByLatency_length l : length (sortByLatency l) = length l.
Proof.
  induction l as [|x l IH]; cbn; [done|].
  rewrite sort_insert_length. unfold sortByLatency in IH. congruence.
Qed.

Lemma availableNodes_nil nodes : availableNodes nodes = [] -> nodes = [].
Proof.
  unfold availableNodes.
  destruct (List.filter _ nodes) as [|n l]; cbn; [done|discriminate].
Qed.

(** The fast pool is empty only when no node is eligible. *)
Lemma pool_nil nodes :
  fastPool (sortByLatency (availableNodes nodes)) = [] -> nodes = [].
Proof.
  intros H. apply availableNodes_nil.
  apply (f_equal (@length _)) in H. unfold fastPool in H.
  rewrite length_take, sortByLatency_length in H. cbn in H.
  destruct (availableNodes nodes); [done|]. cbn in H. lia.
Qed.

(** With a non-empty pool the router advances the index by one modulo
    the pool size and picks the node at the new index. *)
Lemma route_pool now h pool :
  pool_at' now h = pool -> pool <> [] ->
  exists node,
    pool !! nextIndex (roundRobinIndex h) (length pool) = Some node /\
    route' now h
    = Some (node, set_roundRobinIndex h
                    (nextIndex (roundRobinIndex h) (length pool))).
Proof.
  intros Hp Hne. unfold pool_at in Hp. unfold route.
  destruct (List.filter _ (connectedNodes_values h)) as [|n nodes] eqn:E.
  { subst pool. done. }
  cbn [length Nat.eqb]. rewrite Hp.
  destruct (lookup_lt_is_Some_2 pool
              (nextIndex (roundRobinIndex h) (length pool))) as [node Hn].
  { apply Nat.mod_upper_bound. destruct pool; [done|]. cbn. lia. }
  exists node. by rewrite Hn.
Qed.

Lemma route_calls_indices nows h pool :
  (forall now, In now nows -> pool_at' now h = pool) -> pool <> [] ->
  route_calls' nows h
  = map (fun i => pool !! i)
        (rr_indices (length pool) (roundRobinIndex h) (length nows)).
Proof.
  intros Hfix Hne. revert h Hfix.
  induction nows as [|now nows IH]; intros h Hfix; [done|].
  destruct (route_pool now h pool) as (node & Hn & Hr);
    [apply Hfix; by left|done|].
  cbn [route_calls length rr_indices map]. rewrite Hr, Hn. f_equal.
  apply IH. intros now' Hin. rewrite <- (Hfix now') by (by right). done.
Qed.

Lemma calls_to_indices (pool : list Node.t) (c : Node.t) (i : nat)
    (idxs : list nat) :
  NoDup (map Node.id pool) -> pool !! i = Some c ->
  Forall (fun j => j < length pool) idxs ->
  calls_to (Node.id c) (map (fun j => pool !! j) idxs)
  = count_occ Nat.eq_dec idxs i.
Proof.
  intros Hnd Hi Hall. unfold calls_to.
  induction Hall as [|j idxs Hj _ IH]; [done|].
  cbn [map List.filter count_occ].
  destruct (lookup_lt_is_Some_2 pool j Hj) as [c' Hc']. rewrite Hc'.
  destruct (Nat.eq_dec j i) as [->|Hne].
  - assert (c' = c) as -> by congruence.
    rewrite String.eqb_refl. cbn. by rewrite IH.
  - destruct (String.eqb_spec (Node.id c') (Node.id c)) as [E|E]; [|done].
    exfalso. apply Hne. eapply NoDup_lookup; [exact Hnd| |];
      rewrite list_lookup_fmap; [by rewrite Hc'|].
    rewrite Hi. cbn. by rewrite E.
Qed.

(** While the fast pool stays the same list of [K] nodes with distinct
    ids, [M] consecutive calls send floor (M / K) or ceil (M / K) calls to
    each node of the pool. *)
Lemma round_robin_share_by_id nows h pool c :
  (forall now, In now nows -> pool_at' now h = pool) ->
  NoDup (map Node.id pool) ->
  In c pool ->
  let K := length pool in
  let M := length nows in
  calls_to (Node.id c) (route_calls' nows h) = M / K \/
  calls_to (Node.id c) (route_calls' nows h) = (M + K - 1) / K.
Proof.
  intros Hfix Hnd Hc K M.
  assert (pool <> []) as Hne by (intros ->; done).
  apply list_elem_of_In, list_elem_of_lookup in Hc as [i Hi].
  pose proof (lookup_lt_Some _ _ _ Hi) as Hlt.
  rewrite (route_calls_indices nows h pool Hfix Hne).
  rewrite (calls_to_indices pool c i) by (try done; apply rr_indices_lt; lia).
  apply rr_share. done.
Qed.

End RouteFacts.

(** ** The registry lists every connection once *)

Section Registry.
Context (REQUIRE_REGISTRATION : bool) (ema_persist ema_route : Z -> Z -> Z).
Local Abbreviation step' := (step REQUIRE_REGISTRATION ema_persist ema_route).
Local Abbreviation run' := (run REQUIRE_REGISTRATION ema_persist ema_route).

Lemma keys_set_NoDup k ks : NoDup ks -> NoDup (Js.keys_set k ks).
Proof.
  intros Hnd. unfold Js.keys_set. destruct (existsb _ ks) eqn:E; [done|].
  apply NoDup_app. split; [done|]. split; [|apply NoDup_singleton].
  intros x Hx Hk. apply list_elem_of_singleton in Hk as ->.
  assert (existsb (String.eqb k) ks = true); [|congruence].
  apply existsb_exists. exists k. split; [by apply list_elem_of_In|].
  apply String.eqb_refl.
Qed.

Lemma keys_delete_NoDup k ks : NoDup ks -> NoDup (Js.keys_delete k ks).
Proof.
  intros Hnd. unfold Js.keys_delete.
  by apply NoDup_ListNoDup, List.NoDup_filter, NoDup_ListNoDup.
Qed.

Lemma take_over_wf now nodeId w h :
  registry_wf h -> registry_wf (take_over ema_persist now nodeId w h).
Proof.
  intros [Hnd Hid]. unfold take_over.
  repeat case_match; try done. split; [|done]. cbn. by apply keys_delete_NoDup.
Qed.

Lemma admit_node_wf req now nodeId w name acc node h :
  registry_wf h -> Node.id node = nodeId ->
  registry_wf (admit_node req ema_persist now nodeId w name acc node h).
Proof.
  intros Hwf Hnode. unfold admit_node.
  set (h1 := match active_account acc with Some _ => h | None => _ end).
  assert (registry_wf h1) as Hwf1.
  { subst h1. destruct (active_account acc); [done|]. by destruct req. }
  destruct (take_over_wf now nodeId w h1 Hwf1) as [Hnd Hid].
  split; cbn.
  - by apply keys_set_NoDup.
  - intros k n. destruct (decide (nodeId = k)) as [<-|Hne].
    + rewrite lookup_insert_eq. intros [= <-].
      unfold update_node_info, restore_stats.
      by repeat case_match.
    + rewrite lookup_insert_ne by done. apply Hid.
Qed.

Lemma step_wf e h : registry_wf h -> registry_wf (step' e h).
Proof.
  intros Hwf. pose proof Hwf as [Hnd Hid].
  assert (forall nodeId node (f : Node.t -> Node.t),
            sockets h !! nodeId = Some node ->
            (forall n, Node.id (f n) = Node.id n) ->
            forall k n, <[nodeId := f node]> (sockets h) !! k = Some n ->
                        Node.id n = k) as Hupd.
  { intros nodeId node f Hn Hf k n.
    destruct (decide (nodeId = k)) as [<-|Hne].
    - rewrite lookup_insert_eq. intros [= <-]. rewrite Hf. by eapply Hid.
    - rewrite lookup_insert_ne by done. apply Hid. }
  destruct e; cbn [step].
  - split; [done|]. cbn. intros k n.
    destruct (decide (nodeId = k)) as [<-|Hne].
    + rewrite lookup_insert_eq. by intros [= <-].
    + rewrite lookup_insert_ne by done. apply Hid.
  - unfold on_register. destruct (negb _); [done|].
    destruct (sockets h !! nodeId) as [node|] eqn:E; [|done].
    destruct (auth_error _ _ _); [done|].
    apply admit_node_wf; [done|]. by eapply Hid.
  - unfold on_pong. destruct (negb _); [done|].
    destruct (sockets h !! nodeId) as [node|] eqn:E; [|done].
    split; [done|]. cbn.
    by apply (Hupd nodeId node (fun n => Node.set_lastPing n now)).
  - unfold on_close. destruct (negb _); [done|].
    destruct (sockets h !! nodeId) as [node|] eqn:E; [|done].
    destruct (negb _); (split; cbn; [by apply keys_delete_NoDup|done]).
  - unfold route. repeat case_match; by simplify_eq.
  - unfold rpc_resolved.
    destruct (sockets h !! nodeId) as [node|] eqn:E; [|done].
    destruct (negb _); (split; [done|]; cbn;
      by apply (Hupd nodeId node (fun n => Node.set_stats n _))).
  - unfold rpc_rejected.
    destruct (sockets h !! nodeId) as [node|] eqn:E; [|done].
    destruct (negb _); (split; [done|]; cbn;
      by apply (Hupd nodeId node (fun n => Node.set_stats n _))).
  - unfold rpc_resolved_null.
    destruct (sockets h !! nodeId) as [node|] eqn:E; [|done].
    destruct (negb _); (split; [done|]; cbn;
      by apply (Hupd nodeId node (fun n => Node.set_stats n _))).
  - done.
  - split; [constructor|]. cbn. intros k n. by rewrite lookup_empty.
  - split; [constructor|]. cbn. intros k n. by rewrite lookup_empty.
Qed.

Lemma run_wf es table : registry_wf (run' es (boot table)).
Proof.
  unfold run. rewrite <- fold_left_rev_right.
  induction (rev es) as [|e l IH]; cbn.
  - split; [constructor|]. cbn. intros k n. by rewrite lookup_empty.
  - by apply step_wf.
Qed.

Lemma values_ids h :
  registry_wf h -> NoDup (map Node.id (connectedNodes_values h)).
Proof.
  intros [Hnd Hid]. unfold connectedNodes_values.
  induction Hnd as [|k ks Hk Hnd IH]; cbn; [constructor|].
  destruct (sockets h !! k) as [n|] eqn:E; [|exact IH].
  cbn. constructor; [|exact IH].
  rewrite (Hid k n E). intros Hin. apply Hk.
  apply list_elem_of_fmap in Hin as (n' & -> & Hin).
  apply list_elem_of_omap in Hin as (k' & Hk' & E').
  by rewrite (Hid k' n' E').
Qed.

Lemma sort_insert_perm x l : Permutation (sort_insert x l) (x :: l).
Proof.
  induction l as [|y l IH]; cbn; [done|].
  destruct (_ <=? _); [done|]. rewrite IH. apply perm_swap.
Qed.

Lemma sortByLatency_perm l : Permutation (sortByLatency l) l.
Proof.
  induction l as [|x l IH]; cbn; [done|].
  rewrite sort_insert_perm. by constructor.
Qed.

Lemma filter_ids (f : Node.t -> bool) l :
  NoDup (map Node.id l) -> NoDup (map Node.id (List.filter f l)).
Proof.
  induction l as [|x l IH]; cbn; [done|].
  intros Hnd. apply NoDup_cons in Hnd as [Hx Hnd].
  destruct (f x); cbn; [|by apply IH].
  apply NoDup_cons. split; [|by apply IH].
  intros Hin. apply Hx.
  apply list_elem_of_fmap in Hin as (y & -> & Hy).
  apply list_elem_of_fmap. exists y. split; [done|].
  apply list_elem_of_In. apply list_elem_of_In in Hy.
  by apply filter_In in Hy as [? _].
Qed.

(** The nodes of a fast pool are distinct connections. *)
Lemma pool_ids now h :
  registry_wf h ->
  NoDup (map Node.id (pool_at REQUIRE_REGISTRATION now h)).
Proof.
  intros Hwf. unfold pool_at, fastPool.
  rewrite <- firstn_map. eapply sublist_NoDup; [|apply sublist_take].
  eapply NoDup_Permutation_proper;
    [apply Permutation_map, sortByLatency_perm|].
  unfold availableNodes. destruct (_ <? _)%nat.
  - by apply filter_ids, filter_ids, values_ids.
  - by apply filter_ids, values_ids.
Qed.

(** C6.  In a hub reached by any events from the start of a process,
    while the fast pool stays the same list of [K] nodes, [M] consecutive
    calls send floor (M / K) or ceil (M / K) calls to each node of the
    pool, whatever the index was before the first call. *)
Theorem round_robin_share table es nows pool c :
  let h := run' es (boot table) in
  (forall now, In now nows -> pool_at REQUIRE_REGISTRATION now h = pool) ->
  In c pool ->
  let K := length pool in
  let M := length nows in
  (calls_to (Node.id c) (route_calls REQUIRE_REGISTRATION nows h) = M / K \/
   calls_to (Node.id c) (route_calls REQUIRE_REGISTRATION nows h)
   = (M + K - 1) / K)%nat.
Proof.
  intros h Hfix Hc K M.
  destruct nows as [|now nows].
  - left. subst M. cbn. by rewrite Nat.Div0.div_0_l.
  - apply round_robin_share_by_id; [done| |done].
    rewrite <- (Hfix now) by (by left). apply pool_ids, run_wf.
Qed.

End Registry.

Lemma round_robin_share_witness :
  (calls_to (Node.id node_b) (route_calls true nows4 three_nodes)
   = length nows4 / length pool3 \/
   calls_to (Node.id node_b) (route_calls true nows4 three_nodes)
   = (length nows4 + length pool3 - 1) / length pool3)%nat.
Proof.
  refine (round_robin_share true ema_7_3 ema_8_2 ∅ three_connections nows4
            pool3 node_b _ _).
  - intros now [<-|[<-|[<-|[<-|[]]]]]; vm_compute; reflexivity.
  - vm_compute; right; left; reflexivity.
Defined.

(** ** The health filter *)

Lemma healthy_false_iff (n : Node.t) :
  healthy n = false <->
  5 <= Stats.requestsHandled (Node.stats n)
  /\ ((3 # 10 < errorRate (Node.stats n))%Q
      \/ 3000 < Stats.avgLatencyMs (Node.stats n)).
Proof.
  unfold healthy.
  destruct (Z.ltb_spec (Stats.requestsHandled (Node.stats n)) 5) as [Hlt|Hge].
  { split; [done|]. intros [? _]. lia. }
  destruct (Qle_bool (errorRate (Node.stats n)) (3 # 10)) eqn:E; cbn [negb].
  - apply Qle_bool_iff in E.
    destruct (Z.ltb_spec 3000 (Stats.avgLatencyMs (Node.stats n))) as [Hs|Hs].
    + split; [|done]. intros _. split; [done|by right].
    + split; [done|]. intros [_ [Hq|Hl]]; [|lia].
      exfalso. by apply (Qlt_not_le _ _ Hq).
  - split; [|done]. intros _. split; [done|]. left.
    apply Qnot_le_lt. intros Hle. apply Qle_bool_iff in Hle. congruence.
Qed.

(** The quotient of two counters is above 3/10 exactly when ten times
    the errors are more than three times the requests. *)
Lemma quotient_above_three_tenths (errors requestsHandled : Z) :
  0 < requestsHandled ->
  (3 # 10 < inject_Z errors / inject_Z requestsHandled)%Q
  <-> 3 * requestsHandled < 10 * errors.
Proof.
  intros Hpos. destruct requestsHandled as [|p|p]; try lia.
  unfold Qlt, Qdiv, Qmult, Qinv, inject_Z. cbn. lia.
Qed.

Lemma healthy_false_iff_quotient (n : Node.t) :
  healthy n = false <->
  5 <= Stats.requestsHandled (Node.stats n)
  /\ ((3 # 10 < inject_Z (Stats.errors (Node.stats n))
               / inject_Z (Stats.requestsHandled (Node.stats n)))%Q
      \/ 3000 < Stats.avgLatencyMs (Node.stats n)).
Proof. apply healthy_false_iff. Qed.

Lemma healthy_false_iff_counters (n : Node.t) :
  healthy n = false <->
  5 <= Stats.requestsHandled (Node.stats n)
  /\ (3 * Stats.requestsHandled (Node.stats n)
        < 10 * Stats.errors (Node.stats n)
      \/ 3000 < Stats.avgLatencyMs (Node.stats n)).
Proof.
  rewrite healthy_false_iff_quotient.
  split; (intros [Hge [Hq|Hl]]; split; [done| |done|]; try (by right));
    left; by apply quotient_above_three_tenths; [lia|].
Qed.

Lemma availableNodes_fallback (nodes : list Node.t) :
  availableNodes nodes
  = match List.filter (fun n => healthy n) nodes with
    | [] => nodes
    | healthyNodes => healthyNodes
    end.
Proof. unfold availableNodes. by destruct (List.filter _ nodes). Qed.

(** With node A at 0 errors in 10 requests and 50 ms, and node B at 4
    errors in 10 requests and 40 ms, the fast pool is A alone. *)
Lemma pool_of_A_and_B REQUIRE_REGISTRATION now h A B :
  Stats.requestsHandled (Node.stats A) = 10 ->
  Stats.errors (Node.stats A) = 0 ->
  Stats.avgLatencyMs (Node.stats A) = 50 ->
  Stats.requestsHandled (Node.stats B) = 10 ->
  Stats.errors (Node.stats B) = 4 ->
  Stats.avgLatencyMs (Node.stats B) = 40 ->
  connectedNodes_values h = [A; B] \/ connectedNodes_values h = [B; A] ->
  eligible REQUIRE_REGISTRATION now A = true ->
  eligible REQUIRE_REGISTRATION now B = true ->
  pool_at REQUIRE_REGISTRATION now h = [A].
Proof.
  intros HA1 HA2 HA3 HB1 HB2 HB3 Hnodes HeA HeB.
  assert (healthy A = true) as HhA.
  { unfold healthy, errorRate. by rewrite HA1, HA2, HA3. }
  assert (healthy B = false) as HhB.
  { unfold healthy, errorRate. by rewrite HB1, HB2. }
  unfold pool_at.
  destruct Hnodes as [-> | ->]; cbn [List.filter]; rewrite HeA, HeB;
    unfold availableNodes; cbn [List.filter]; rewrite HhA, HhB; reflexivity.
Qed.

(** C5.  The filter drops a node exactly when it has handled five requests
    or more and its error rate, the quotient [errors / requestsHandled], is
    above 0.3 or its average latency above 3000 ms; in whole numbers the
    rate is above 0.3 when ten times the errors exceed three times the
    requests.  When the filter drops every node the unfiltered list is
    used; and with node A (0 errors in 10 requests, 50 ms) and node B (4
    errors in 10 requests, 40 ms) as the two eligible nodes every call
    goes to A. *)
Theorem health_filter :
  (forall n : Node.t,
     healthy n = false <->
     5 <= Stats.requestsHandled (Node.stats n)
     /\ ((3 # 10 < inject_Z (Stats.errors (Node.stats n))
                  / inject_Z (Stats.requestsHandled (Node.stats n)))%Q
         \/ 3000 < Stats.avgLatencyMs (Node.stats n)))
  /\ (forall n : Node.t,
        healthy n = false <->
        5 <= Stats.requestsHandled (Node.stats n)
        /\ (3 * Stats.requestsHandled (Node.stats n)
              < 10 * Stats.errors (Node.stats n)
            \/ 3000 < Stats.avgLatencyMs (Node.stats n)))
  /\ (forall nodes : list Node.t,
        availableNodes nodes
        = match List.filter (fun n => healthy n) nodes with
          | [] => nodes
          | healthyNodes => healthyNodes
          end)
  /\ (forall REQUIRE_REGISTRATION (h : Hub) (A B : Node.t) (nows : list Z),
        Stats.requestsHandled (Node.stats A) = 10 ->
        Stats.errors (Node.stats A) = 0 ->
        Stats.avgLatencyMs (Node.stats A) = 50 ->
        Stats.requestsHandled (Node.stats B) = 10 ->
        Stats.errors (Node.stats B) = 4 ->
        Stats.avgLatencyMs (Node.stats B) = 40 ->
        connectedNodes_values h = [A; B] \/ connectedNodes_values h = [B; A] ->
        (forall now, In now nows ->
           eligible REQUIRE_REGISTRATION now A = true
           /\ eligible REQUIRE_REGISTRATION now B = true) ->
        Forall (fun r => r = Some A) (route_calls REQUIRE_REGISTRATION nows h)).
Proof.
  split; [exact healthy_false_iff_quotient|].
  split; [exact healthy_false_iff_counters|].
  split; [exact availableNodes_fallback|].
  intros REQ h A B nows HA1 HA2 HA3 HB1 HB2 HB3 Hnodes Hel.
  rewrite (route_calls_indices REQ nows h [A]); [|
    intros now Hin; destruct (Hel now Hin);
      by apply (pool_of_A_and_B REQ now h A B) | done].
  apply List.Forall_forall. intros r Hr.
  apply in_map_iff in Hr as (i & <- & Hi).
  pose proof (rr_indices_lt 1 (roundRobinIndex h) (length nows) ltac:(lia))
    as Hlt.
  rewrite List.Forall_forall in Hlt. specialize (Hlt i Hi).
  cbn in Hlt. by replace i with 0%nat by lia.
Qed.

(** Nodes A and B of the scenario, and a node with two errors in ten
    requests, which the filter keeps: its rate is 0.2. *)
Lemma health_filter_witness :
  Forall (fun r => r = Some (node_of nodes_A_and_B "a1"))
         (route_calls true nows3 nodes_A_and_B)
  /\ healthy (node_of nodes_A_and_B "b1") = false
  /\ healthy (Node.set_stats (node_of nodes_A_and_B "b1")
                (Stats.mk 10 40 0 10 2)) = true
  /\ healthy (Node.set_stats (node_of nodes_A_and_B "b1")
                (Stats.mk 10 40 0 10 3)) = true
  /\ healthy (Node.set_stats (node_of nodes_A_and_B "b1")
                (Stats.mk 4 5000 0 4 4)) = true
  /\ healthy (Node.set_stats (node_of nodes_A_and_B "b1")
                (Stats.mk 10 3001 0 10 0)) = false.
Proof.
  split.
  { refine (proj2 (proj2 (proj2 health_filter)) true nodes_A_and_B
              (node_of nodes_A_and_B "a1") (node_of nodes_A_and_B "b1")
              nows3 _ _ _ _ _ _ _ _); try (vm_compute; reflexivity).
    - left. vm_compute. reflexivity.
    - intros now [<-|[<-|[<-|[]]]]; vm_compute; split; reflexivity. }
  split.
  { apply (proj1 (proj2 health_filter)). vm_compute. split; [discriminate|].
    left. reflexivity. }
  split.
  { apply not_false_iff_true. intros H.
    apply (proj1 (proj2 health_filter)) in H. vm_compute in H.
    destruct H as [_ [H|H]]; discriminate H. }
  split.
  { apply not_false_iff_true. intros H.
    apply (proj1 (proj2 health_filter)) in H. vm_compute in H.
    destruct H as [_ [H|H]]; discriminate H. }
  split.
  { apply not_false_iff_true. intros H.
    apply (proj1 (proj2 health_filter)) in H. vm_compute in H.
    destruct H as [H _]. apply H. reflexivity. }
  apply (proj1 (proj2 health_filter)). vm_compute. split; [discriminate|].
  right. reflexivity.
Defined.

(** ** Monotone counters *)

Section Monotone.
Context (REQUIRE_REGISTRATION : bool) (ema_persist ema_route : Z -> Z -> Z).
Local Abbreviation persist := (persistWalletStats ema_persist).
Local Abbreviation step := (Relay.step REQUIRE_REGISTRATION ema_persist ema_route).
Local Abbreviation run := (Relay.run REQUIRE_REGISTRATION ema_persist ema_route).




















End Monotone.



(** ** Registration *)

Section Registration.
Context (REQUIRE_REGISTRATION : bool) (ema_persist : Z -> Z -> Z).
Local Abbreviation auth_error := (Relay.auth_error REQUIRE_REGISTRATION).
Local Abbreviation on_register := (Relay.on_register REQUIRE_REGISTRATION ema_persist).

Lemma verifySignature_spec now w ts sig :
  verifySignature now w ts sig = true <-> ~ stale now ts /\ hex64 sig.
Proof.
  unfold verifySignature, stale, hex64.
  destruct ts as [ts|].
  - destruct (Z.ltb_spec (5 * 60 * 1000) (Z.abs (now - ts))).
    + split; [done|]. intros [Hs _]. lia.
    + destruct (String.eqb_spec sig ""); cbn.
      * subst. split; [done|]. intros [_ [H' _]]. done.
      * destruct (Nat.eqb_spec (String.length sig) 64); cbn;
          [|split; [done|]; intros [_ [? _]]; done].
        destruct (Js.all_hex sig); split; try done; try tauto.
        intros _. split; [lia|done].
  - destruct (String.eqb_spec sig ""); cbn.
    + subst. split; [done|]. intros [_ [H' _]]. done.
    + destruct (Nat.eqb_spec (String.length sig) 64); cbn;
        [|split; [done|]; intros [_ [? _]]; done].
      destruct (Js.all_hex sig); split; try done; try tauto.
Qed.

Lemma auth_error_spec now msg :
  is_Some (auth_error now msg) <->
  Js.truthy (wallet msg) = false \/
  (REQUIRE_REGISTRATION = true /\ Js.truthy (signature msg) = true /\
   (stale now (timestamp msg) \/ ~ hex64 (Js.or_else (signature msg) ""))).
Proof.
  unfold Relay.auth_error.
  destruct (Js.truthy (wallet msg)); cbn; [|split; eauto].
  destruct REQUIRE_REGISTRATION; cbn;
    [|split; [intros [? ?]; done|intros [?|[? _]]; done]].
  destruct (Js.truthy (signature msg)); cbn;
    [|split; [intros [? ?]; done|intros [?|(_ & ? & _)]; done]].
  destruct (verifySignature _ _ _ _) eqn:E; cbn.
  - apply verifySignature_spec in E as [Hs Hh].
    split; [intros [? ?]; done|]. intros [?|(_ & _ & [?|?])]; done.
  - split; [|eauto]. intros _. right. split; [done|]. split; [done|].
    destruct (timestamp msg) as [ts|]; cbn.
    + destruct (Z.lt_ge_cases (5 * 60 * 1000) (Z.abs (now - ts))); [by left|right].
      intros Hh. assert (verifySignature now (Js.or_else (wallet msg) "") (Some ts)
          (Js.or_else (signature msg) "") = true); [|congruence].
      apply verifySignature_spec. split; [cbn; lia|done].
    + right. intros Hh. assert (verifySignature now (Js.or_else (wallet msg) "") None
          (Js.or_else (signature msg) "") = true); [|congruence].
      apply verifySignature_spec. split; [cbn; tauto|done].
Qed.

Lemma admit_node_sent req now nodeId w name acc node h :
  exists l r s, sent (admit_node req ema_persist now nodeId w name acc node h)
            = (l ++ [(nodeId, Registered nodeId r s)])%list.
Proof. unfold admit_node, ws_send. cbn. eauto. Qed.

(** C3, amended.  A [register] frame on a live connection is refused
    exactly when it carries no wallet, or registration is required and the
    frame carries a signature and either its timestamp is more than five
    minutes from the clock or the signature is not 64 hexadecimal
    characters. *)
Theorem register_refused_iff now nodeId msg onChainAccount h node :
  nodeId ∈ live h ->
  sockets h !! nodeId = Some node ->
  auth_refused nodeId h (on_register now nodeId msg onChainAccount h) <->
  Js.truthy (wallet msg) = false \/
  (REQUIRE_REGISTRATION = true /\ Js.truthy (signature msg) = true /\
   (stale now (timestamp msg) \/ ~ hex64 (Js.or_else (signature msg) ""))).
Proof.
  intros Hlive Hnode. rewrite <- auth_error_spec.
  unfold Relay.on_register. rewrite bool_decide_true by done. cbn [negb].
  rewrite Hnode. destruct (auth_error now msg) as [err|].
  - split; [eauto|]. intros _. unfold auth_refused. cbn. eauto 10.
  - split; [|intros [? ?]; done]. intros [[err Hsent] _]. exfalso.
    destruct (admit_node_sent REQUIRE_REGISTRATION now nodeId (Js.or_else (wallet msg) "")
                (name msg) (if REQUIRE_REGISTRATION then onChainAccount else None) node h)
      as (l & r & s & E).
    rewrite E in Hsent. apply app_inj_tail in Hsent as [_ Hsent]. done.
Qed.

End Registration.

Lemma register_refused_iff_witness :
  auth_refused "n1" one_socket
    (on_register true ema_7_3 1000 "n1" no_fields None one_socket).
Proof.
  apply (register_refused_iff true ema_7_3 1000 "n1" no_fields None one_socket
           (node_of one_socket "n1")).
  - vm_compute. reflexivity.
  - vm_compute. reflexivity.
  - left. reflexivity.
Defined.

(** C3 as stated fails: with registration required, a frame whose
    signature is missing and whose timestamp is an hour old is not
    refused; the connection enters the registry and the wallet index. *)
Lemma unsigned_register_admitted :
  let h' := on_register true ema_7_3 3600000 "n1" unsigned_stale None
              one_socket in
  signature unsigned_stale = None
  /\ ~ hex64 (Js.or_else (signature unsigned_stale) "")
  /\ stale 3600000 (timestamp unsigned_stale)
  /\ ~ auth_refused "n1" one_socket h'
  /\ connectedNodes h' = ["n1"]
  /\ nodesByWallet h' !! "W1" = Some "n1".
Proof.
  cbv zeta. split; [reflexivity|].
  split; [intros [H _]; vm_compute in H; discriminate|].
  split; [vm_compute; reflexivity|].
  split.
  - intros (_ & _ & _ & Hc & _). vm_compute in Hc. discriminate.
  - split; vm_compute; reflexivity.
Qed.

(** ** Reconnecting from another address *)

Section Reconnect.
Context (REQUIRE_REGISTRATION : bool) (ema_persist : Z -> Z -> Z).
Local Abbreviation auth_error := (Relay.auth_error REQUIRE_REGISTRATION).
Local Abbreviation on_register := (Relay.on_register REQUIRE_REGISTRATION ema_persist).
Local Abbreviation persist := (persistWalletStats ema_persist).

Lemma persist_existing now wallet st cAt ws p :
  ws !! wallet = Some p ->
  exists p', persist now wallet st cAt ws !! wallet = Some p'
    /\ Persisted.totalUptime p' = Persisted.totalUptime p
    /\ Persisted.lastIP p' = Persisted.lastIP p.
Proof.
  intros E. unfold persistWalletStats. rewrite E, lookup_insert_eq. eauto.
Qed.

Lemma take_over_entry now nodeId wallet h p :
  walletStats h !! wallet = Some p ->
  exists p', walletStats (take_over ema_persist now nodeId wallet h) !! wallet = Some p'
    /\ Persisted.totalUptime p' = Persisted.totalUptime p
    /\ Persisted.lastIP p' = Persisted.lastIP p
    /\ (nodesByWallet h !! wallet = None -> p' = p).
Proof.
  intros E. unfold take_over.
  destruct (nodesByWallet h !! wallet) as [old|]; [|by eauto].
  destruct (_ && _); [|by eauto 10].
  destruct (connectedNodes_get h old) as [oldNode|]; [|by eauto 10].
  cbn. destruct (persist_existing now wallet (Node.stats oldNode)
                   (Node.connectedAt oldNode) _ _ E) as (p' & ? & ? & ?).
  exists p'. by eauto.
Qed.

(** When a frame is admitted for a wallet whose entry records a last
    address other than the one of this connection, the node starts with
    [avgLatencyMs] and [errors] at zero and with [requestsHandled],
    [cacheHits] and [cacheMisses] of the wallet's entry, and the entry
    keeps its [totalUptime]; the entry is untouched when the wallet index
    names no other connection. *)
Lemma address_change_resets_penalties
    now nodeId msg onChainAccount h node p lastIP :
  nodeId ∈ live h ->
  sockets h !! nodeId = Some node ->
  auth_error now msg = None ->
  walletStats h !! Js.or_else (wallet msg) "" = Some p ->
  Persisted.lastIP p = Some lastIP ->
  lastIP <> "" ->
  lastIP <> Node.ip node ->
  let h' := on_register now nodeId msg onChainAccount h in
  exists node' p',
    sockets h' !! nodeId = Some node'
    /\ walletStats h' !! Js.or_else (wallet msg) "" = Some p'
    /\ Stats.avgLatencyMs (Node.stats node') = 0
    /\ Stats.errors (Node.stats node') = 0
    /\ Stats.requestsHandled (Node.stats node') = Persisted.requestsHandled p'
    /\ Stats.cacheHits (Node.stats node') = Persisted.cacheHits p'
    /\ Stats.cacheMisses (Node.stats node') = Persisted.cacheMisses p'
    /\ Node.totalUptime node' = Some (Persisted.totalUptime p)
    /\ Persisted.totalUptime p' = Persisted.totalUptime p
    /\ (nodesByWallet h !! Js.or_else (wallet msg) "" = None -> p' = p).
Proof.
  intros Hlive Hnode Hauth Hp Hip Hne1 Hne2 h'. subst h'.
  unfold Relay.on_register. rewrite bool_decide_true by done. cbn [negb].
  rewrite Hnode, Hauth. set (w := Js.or_else (wallet msg) "") in *.
  unfold admit_node.
  set (h1 := match active_account _ with Some _ => h | None => _ end).
  assert (walletStats h1 = walletStats h /\ nodesByWallet h1 = nodesByWallet h)
    as [Hw1 Hn1].
  { subst h1. destruct (active_account _); [done|]. by destruct REQUIRE_REGISTRATION. }
  destruct (take_over_entry now nodeId w h1 p) as (p' & Hp' & Hup & Hip' & Hsame).
  { by rewrite Hw1. }
  cbn. rewrite Hp', lookup_insert_eq.
  eexists _, p'. split; [reflexivity|]. split; [done|].
  unfold restore_stats. rewrite Hip', Hip. cbn.
  assert (Node.ip (update_node_info REQUIRE_REGISTRATION nodeId w (name msg)
             (if REQUIRE_REGISTRATION then onChainAccount else None) node)
          = Node.ip node) as ->.
  { unfold update_node_info. by destruct (active_account _). }
  destruct (String.eqb_spec lastIP ""); [done|].
  destruct (String.eqb_spec lastIP (Node.ip node)); [done|]. cbn.
  rewrite Hup. repeat split; try done. intros Hn. apply Hsame. by rewrite Hn1.
Qed.

End Reconnect.

Lemma address_change_resets_penalties_witness :
  let h' := on_register true ema_7_3 30010 "n2" (register_frame "W1")
              (Some bonded) before_reconnect in
  exists node' p',
    sockets h' !! "n2" = Some node'
    /\ walletStats h' !! Js.or_else (wallet (register_frame "W1")) ""
       = Some p'
    /\ Stats.avgLatencyMs (Node.stats node') = 0
    /\ Stats.errors (Node.stats node') = 0
    /\ Stats.requestsHandled (Node.stats node') = Persisted.requestsHandled p'
    /\ Stats.cacheHits (Node.stats node') = Persisted.cacheHits p'
    /\ Stats.cacheMisses (Node.stats node') = Persisted.cacheMisses p'
    /\ Node.totalUptime node'
       = Some (Persisted.totalUptime (entry_of before_reconnect "W1"))
    /\ Persisted.totalUptime p'
       = Persisted.totalUptime (entry_of before_reconnect "W1")
    /\ (nodesByWallet before_reconnect
          !! Js.or_else (wallet (register_frame "W1")) "" = None ->
        p' = entry_of before_reconnect "W1").
Proof.
  refine (address_change_resets_penalties true ema_7_3 30010 "n2"
            (register_frame "W1") (Some bonded) before_reconnect
            (node_of before_reconnect "n2") (entry_of before_reconnect "W1")
            "1.1.1.1" _ _ _ _ _ _ _); try (vm_compute; reflexivity).
  - discriminate.
  - vm_compute. discriminate.
Defined.

(** C9.  The wallet served a session from 1.1.1.1 that left an average
    latency of 40 ms and one error, and now registers from 2.2.2.2.  In
    the process that closed the session the entry records 1.1.1.1 and the
    node starts with [avgLatencyMs] and [errors] at zero.  After a
    graceful shutdown and a new start the entry records no address, the
    table having no column for it, and the node starts with the old
    node's 40 ms and one error; [requestsHandled], the cache counters and
    [totalUptime] are those of the entry both times. *)
Theorem address_change_forgotten_by_restart :
  let register := on_register true ema_7_3 30010 "n2" (register_frame "W1")
                    (Some bonded) in
  let same_process := node_of (register before_reconnect) "n2" in
  let restarted := node_of (register before_reconnect_restarted) "n2" in
  Persisted.lastIP (entry_of before_reconnect "W1") = Some "1.1.1.1"
  /\ Persisted.lastIP (entry_of before_reconnect_restarted "W1") = None
  /\ Node.ip same_process = "2.2.2.2" /\ Node.ip restarted = "2.2.2.2"
  /\ Node.operator same_process = "W1" /\ Node.operator restarted = "W1"
  /\ "n2" ∈ live (register before_reconnect_restarted)
  /\ Node.stats same_process = Stats.mk 1 0 1 0 0
  /\ Node.stats restarted = Stats.mk 1 40 1 0 1
  /\ Node.totalUptime same_process = Some 25
  /\ Node.totalUptime restarted = Some 25.
Proof. cbv zeta. repeat split; vm_compute; reflexivity. Qed.

(** ** Uptime of a wallet that has an entry *)

Section Uptime.
Context (REQUIRE_REGISTRATION : bool) (ema_persist ema_route : Z -> Z -> Z).
Local Abbreviation persist' := (persistWalletStats ema_persist).
Local Abbreviation step' := (step REQUIRE_REGISTRATION ema_persist ema_route).
Local Abbreviation run' := (run REQUIRE_REGISTRATION ema_persist ema_route).
Local Abbreviation closed_sessions' :=
  (closed_sessions REQUIRE_REGISTRATION ema_persist ema_route).


(** On a wallet without an entry the per-request path starts
    [totalUptime] at the seconds since the connection opened. *)
Lemma persist_new_wallet_uptime now w st cAt ws :
  ws !! w = None ->
  uptime_of (persist' now w st cAt ws) w = Some ((now - cAt) / 1000).
Proof.
  intros E. unfold uptime_of, persistWalletStats.
  by rewrite E, lookup_insert_eq.
Qed.





End Uptime.


(** C1 at the failing input: the call is routed to the node; the
    per-request path creates the wallet's entry with the ten seconds of
    uptime so far; the close handler then adds the whole session of twenty
    seconds, and the entry ends with thirty.  After a second session of
    five seconds it holds thirty-five, for sessions that sum to
    twenty-five. *)
Theorem first_session_uptime :
  let h2 := run true ema_7_3 ema_8_2 (take 2 first_session) (boot ∅) in
  let h4 := run true ema_7_3 ema_8_2 (take 4 first_session) (boot ∅) in
  let h5 := run true ema_7_3 ema_8_2 first_session (boot ∅) in
  let h9 := run true ema_7_3 ema_8_2 second_session h5 in
  uptime_of (walletStats h2) "W1" = None
  /\ (Node.id ∘ fst <$> route true 9960 h2) = Some "n1"
  /\ uptime_of (walletStats h4) "W1" = Some 10
  /\ uptime_of (walletStats h5) "W1" = Some 30
  /\ closed_sessions true ema_7_3 ema_8_2 first_session (boot ∅) "W1" = 20
  /\ uptime_of (walletStats h9) "W1" = Some 35
  /\ closed_sessions true ema_7_3 ema_8_2 (first_session ++ second_session)
       (boot ∅) "W1" = 25.
Proof. vm_compute. repeat split; reflexivity. Qed.

(** ** What registration does to the registry *)

Section Admission.
Context (REQUIRE_REGISTRATION : bool) (ema_persist : Z -> Z -> Z).
Local Abbreviation on_register' :=
  (on_register REQUIRE_REGISTRATION ema_persist).
Local Abbreviation take_over' := (take_over ema_persist).

Lemma keys_set_In k ks : In k (Js.keys_set k ks).
Proof.
  unfold Js.keys_set. destruct (existsb _ ks) eqn:E.
  - apply existsb_exists in E as (k' & Hin & Hk).
    apply String.eqb_eq in Hk. by subst.
  - apply in_or_app. right. by left.
Qed.

Lemma keys_set_other k k' ks : k' <> k -> In k' (Js.keys_set k ks) <-> In k' ks.
Proof.
  intros Hne. unfold Js.keys_set. destruct (existsb _ ks); [done|].
  rewrite in_app_iff. cbn. intuition congruence.
Qed.

Lemma keys_delete_In k k' ks : In k' (Js.keys_delete k ks) <-> In k' ks /\ k' <> k.
Proof.
  unfold Js.keys_delete. rewrite filter_In.
  destruct (String.eqb_spec k k'); cbn; intuition congruence.
Qed.

Lemma take_over_frame now nodeId w h :
  sockets (take_over' now nodeId w h) = sockets h
  /\ nodesByWallet (take_over' now nodeId w h) = nodesByWallet h
  /\ sent (take_over' now nodeId w h) = sent h
  /\ live (take_over' now nodeId w h) = live h.
Proof. unfold take_over. by repeat case_match. Qed.

(** The old connection of a wallet, when the index names one that is in
    the registry, is persisted, closed and removed, and the index then
    names the connection that registers. *)
Lemma register_takes_over now nodeId msg onChainAccount h node old oldNode :
  nodeId ∈ live h ->
  sockets h !! nodeId = Some node ->
  auth_error REQUIRE_REGISTRATION now msg = None ->
  nodesByWallet h !! Js.or_else (wallet msg) "" = Some old ->
  old <> "" -> old <> nodeId ->
  connectedNodes_get h old = Some oldNode ->
  let w := Js.or_else (wallet msg) "" in
  let h' := on_register' now nodeId msg onChainAccount h in
  ~ In old (connectedNodes h')
  /\ In nodeId (connectedNodes h')
  /\ closing h' = (closing h ++ [old])%list
  /\ nodesByWallet h' !! w = Some nodeId
  /\ walletStats h'
     = persistWalletStats ema_persist now w (Node.stats oldNode)
         (Node.connectedAt oldNode) (walletStats h).
Proof.
  intros Hlive Hnode Hauth Hold Hne1 Hne2 Hget w h'. subst h'.
  fold w in Hold.
  unfold on_register. rewrite bool_decide_true by done. cbn [negb].
  rewrite Hnode, Hauth. fold w. unfold admit_node.
  set (h1 := match active_account _ with Some _ => h | None => _ end).
  assert (walletStats h1 = walletStats h /\ nodesByWallet h1 = nodesByWallet h
          /\ connectedNodes h1 = connectedNodes h /\ sockets h1 = sockets h
          /\ closing h1 = closing h) as (Hw1 & Hn1 & Hc1 & Hs1 & Hcl1).
  { subst h1. destruct (active_account _); [done|].
    by destruct REQUIRE_REGISTRATION. }
  assert (take_over' now nodeId w h1
          = set_connectedNodes
              (ws_close old
                 (set_walletStats h1
                    (persistWalletStats ema_persist now w (Node.stats oldNode)
                       (Node.connectedAt oldNode) (walletStats h1))))
              (Js.keys_delete old (connectedNodes h1))) as Htake.
  { unfold take_over. rewrite Hn1, Hold.
    destruct (String.eqb_spec old ""); [done|].
    destruct (String.eqb_spec old nodeId); [done|]. cbn [negb andb].
    unfold connectedNodes_get in *. rewrite Hc1, Hs1, Hget.
    f_equal. cbn. by rewrite ?Hc1. }
  cbn. rewrite Htake. cbn. rewrite Hw1, Hc1, Hcl1, lookup_insert_eq.
  repeat split; try done.
  - rewrite keys_set_other by done. rewrite keys_delete_In. tauto.
  - apply keys_set_In.
Qed.

(** A wallet that is not active on chain, registering on a connection that
    is not registered, with registration required: [not_registered] and
    then [registered] go out, the connection enters the registry and the
    wallet index, and it stays unregistered and therefore ineligible. *)
Lemma unbonded_wallet_admitted now nodeId msg onChainAccount h node :
  REQUIRE_REGISTRATION = true ->
  nodeId ∈ live h ->
  sockets h !! nodeId = Some node ->
  auth_error REQUIRE_REGISTRATION now msg = None ->
  active_account onChainAccount = None ->
  Node.isRegistered node = false ->
  let w := Js.or_else (wallet msg) "" in
  let h' := on_register' now nodeId msg onChainAccount h in
  (exists restored,
     sent h' = (sent h ++ [ (nodeId, NotRegistered w);
                           (nodeId, Registered nodeId false restored) ])%list)
  /\ In nodeId (connectedNodes h')
  /\ nodesByWallet h' !! w = Some nodeId
  /\ exists node',
       sockets h' !! nodeId = Some node'
       /\ Node.operator node' = w
       /\ Node.isRegistered node' = false
       /\ forall now', eligible REQUIRE_REGISTRATION now' node' = false.
Proof.
  intros -> Hlive Hnode Hauth Hacc Hflag w h'. subst h'.
  unfold on_register. rewrite bool_decide_true by done. cbn [negb].
  rewrite Hnode, Hauth. fold w. unfold admit_node, update_node_info.
  rewrite Hacc, Hflag.
  destruct (take_over_frame now nodeId w (ws_send nodeId (NotRegistered w) h))
    as (Hs & Hn & Hsent & _).
  cbn. rewrite Hsent, lookup_insert_eq, lookup_insert_eq. cbn.
  split.
  - destruct (walletStats _ !! w); cbn; rewrite <- app_assoc; eauto.
  - split; [apply keys_set_In|]. split; [done|].
    destruct (walletStats _ !! w); eexists; (split; [reflexivity|]); done.
Qed.

End Admission.

Lemma register_takes_over_example :
  let h := run true ema_7_3 ema_8_2 (take 4 takeover) (boot ∅) in
  let h' := on_register true ema_7_3 20010 "n2" (register_frame "W1")
              (Some bonded) h in
  ~ In "n1" (connectedNodes h')
  /\ In "n2" (connectedNodes h')
  /\ closing h' = (closing h ++ ["n1"])%list
  /\ nodesByWallet h' !! Js.or_else (wallet (register_frame "W1")) ""
     = Some "n2"
  /\ walletStats h'
     = persistWalletStats ema_7_3 20010
         (Js.or_else (wallet (register_frame "W1")) "")
         (Node.stats (node_of h "n1")) (Node.connectedAt (node_of h "n1"))
         (walletStats h).
Proof.
  refine (register_takes_over true ema_7_3 20010 "n2" (register_frame "W1")
            (Some bonded)
            (run true ema_7_3 ema_8_2 (take 4 takeover) (boot ∅))
            (node_of (run true ema_7_3 ema_8_2 (take 4 takeover) (boot ∅)) "n2")
            "n1"
            (node_of (run true ema_7_3 ema_8_2 (take 4 takeover) (boot ∅)) "n1")
            _ _ _ _ _ _ _); try (vm_compute; reflexivity); discriminate.
Defined.

Lemma unbonded_wallet_admitted_example :
  (exists restored,
     sent unbonded_register
     = (sent one_socket
        ++ [ ("n1", NotRegistered
                      (Js.or_else (wallet (register_frame "W1")) ""));
             ("n1", Registered "n1" false restored) ])%list)
  /\ In "n1" (connectedNodes unbonded_register)
  /\ nodesByWallet unbonded_register
       !! Js.or_else (wallet (register_frame "W1")) "" = Some "n1"
  /\ exists node',
       sockets unbonded_register !! "n1" = Some node'
       /\ Node.operator node' = Js.or_else (wallet (register_frame "W1")) ""
       /\ Node.isRegistered node' = false
       /\ forall now', eligible true now' node' = false.
Proof.
  refine (unbonded_wallet_admitted true ema_7_3 1000 "n1" (register_frame "W1")
            None one_socket (node_of one_socket "n1") _ _ _ _ _ _);
    vm_compute; reflexivity.
Defined.

(** C2 at the failing input.  The takeover itself is as specified: the old
    connection is persisted, closed and out of the registry, and the index
    names the new one.  The close event of the old socket then deletes the
    wallet's index entry although it names the new connection, and a third
    registration for the wallet finds nothing to take over: two connections
    of one wallet are in the registry, both eligible for calls. *)
Theorem close_after_takeover :
  let h1 := run true ema_7_3 ema_8_2 takeover (boot ∅) in
  let h2 := run true ema_7_3 ema_8_2 old_socket_closes (boot ∅) in
  let h3 := run true ema_7_3 ema_8_2 third_connection (boot ∅) in
  (connectedNodes h1 = ["n2"]
   /\ nodesByWallet h1 !! "W1" = Some "n2"
   /\ closing h1 = ["n1"]
   /\ requests_of (walletStats h1) "W1" = Some 1)
  /\ (connectedNodes h2 = ["n2"]
      /\ nodesByWallet h2 !! "W1" = None)
  /\ (connectedNodes h3 = ["n2"; "n3"]
      /\ closing h3 = ["n1"]
      /\ map Node.operator (connectedNodes_values h3) = ["W1"; "W1"]
      /\ map (eligible true 31000) (connectedNodes_values h3) = [true; true]).
Proof. vm_compute. repeat split; reflexivity. Qed.

(** C10 at the failing input: the second frame names a wallet that is not
    on chain; the hub sends [not_registered] and [registered], but the
    connection keeps the [isRegistered] flag of its first registration and
    the router sends the next call to it. *)
Theorem second_wallet_keeps_flag :
  let h := run true ema_7_3 ema_8_2 second_wallet (boot ∅) in
  sent h = [ ("n1", Registered "n1" true None);
             ("n1", NotRegistered "W2");
             ("n1", Registered "n1" true None) ]
  /\ connectedNodes h = ["n1"]
  /\ nodesByWallet h !! "W2" = Some "n1"
  /\ Node.operator (node_of h "n1") = "W2"
  /\ Node.isRegistered (node_of h "n1") = true
  /\ (Node.operator ∘ fst <$> route true 1000 h) = Some "W2".
Proof. vm_compute. repeat split; reflexivity. Qed.

(** ** The node agent's cache *)

Import NodeAgent.

Section CacheFacts.
Context (JSON_stringify : Json -> string) (table : list (string * Z)).
Local Abbreviation key_of' := (key_of JSON_stringify).
Local Abbreviation handleRequest' := (handleRequest JSON_stringify table).

Lemma cache_get_set key e c : cache_get key (cache_set key e c) = Some e.
Proof.
  induction c as [|[k e'] c IH]; cbn.
  - by rewrite String.eqb_refl.
  - destruct (String.eqb key k) eqn:E; cbn; by rewrite E.
Qed.







Lemma cache_set_length key e (c : Cache) :
  (length (cache_set key e c) <= S (length c))%nat.
Proof.
  induction c as [|[k e'] c IH]; cbn; [lia|].
  destruct (String.eqb key k); cbn; lia.
Qed.

Lemma cache_set_keys key e (c : Cache) :
  key <> "" -> Forall (fun kv => fst kv <> "") c ->
  Forall (fun kv => fst kv <> "") (cache_set key e c).
Proof.
  intros Hk Hc. induction Hc as [|[k e'] c Hk' Hc IH]; cbn.
  - by repeat constructor.
  - destruct (String.eqb key k); constructor; done.
Qed.

Lemma evict_oldest_length n (c : Cache) :
  Forall (fun kv => fst kv <> "") c ->
  length (evict_oldest n c) = (length c - n)%nat.
Proof.
  intros Hc. revert n. induction Hc as [|[k e] c Hk Hc IH]; intros [|n]; cbn;
    try done.
  cbn in Hk. destruct (String.eqb_spec k ""); [done|]. apply IH.
Qed.

Lemma evict_oldest_keys n (c : Cache) :
  Forall (fun kv => fst kv <> "") c ->
  Forall (fun kv => fst kv <> "") (evict_oldest n c).
Proof.
  intros Hc. revert n. induction Hc as [|[k e] c Hk Hc IH]; intros [|n]; cbn;
    try done; [by constructor|].
  destruct (String.eqb k ""); [constructor|]; done.
Qed.

Lemma key_of_nonempty msg : key_of JSON_stringify msg <> "".
Proof.
  unfold key_of. destruct (method_of msg); cbn; [|done].
  by destruct (JSON_stringify _).
Qed.

Lemma evict_oldest_drop n (c : Cache) :
  List.Forall (fun kv => fst kv <> "") c -> evict_oldest n c = drop n c.
Proof.
  revert c. induction n as [|n IH]; intros c Hc; [done|].
  destruct c as [|[k e] c]; [done|]. cbn.
  inversion Hc as [|? ? Hk Hc']; subst. cbn in Hk.
  destruct (String.eqb_spec k ""); [done|]. by apply IH.
Qed.

Lemma cache_set_new key e (c : Cache) :
  cache_get key c = None -> cache_set key e c = (c ++ [(key, e)])%list.
Proof.
  induction c as [|[k e'] c IH]; cbn; [done|].
  destruct (String.eqb key k); [done|]. intros H. by rewrite IH.
Qed.

(** Every request leaves the cache within its bound of 5000 entries
    with non-empty keys.  A request that is stored under a new key in a
    cache of exactly 5000 entries takes the size to 5001, and the
    eviction then removes the 500 entries inserted first: what is left
    are the 4500 newest entries followed by the new one. *)
Lemma handleRequest_bounded t_lookup t_store fetchRPC msg cache :
  cache_bounded cache ->
  let r := handleRequest JSON_stringify table t_lookup t_store fetchRPC msg
             cache in
  cache_bounded (cache_after r)
  /\ (forall res_data res_size,
        Z.of_nat (length cache) = CACHE_MAX_SIZE ->
        no_cache (method_of msg) = false ->
        cache_get (key_of JSON_stringify msg) cache = None ->
        fetchRPC (payload msg) = Resolved res_data res_size ->
        truthy (Some res_data) = true ->
        truthy (prop res_data "error") = false ->
        cache_after r
        = (drop 500 cache
           ++ [(key_of JSON_stringify msg,
                Build_CacheEntry res_data t_store res_size)])%list
        /\ Z.of_nat
             (length (cache_set (key_of JSON_stringify msg)
                        (Build_CacheEntry res_data t_store res_size) cache))
           = 5001
        /\ Z.of_nat (length (cache_after r)) = 4501).
Proof.
  intros [Hlen Hkeys] r. split.
  - subst r. unfold handleRequest.
    destruct (if negb _ then _ else None); [done|].
    destruct (fetchRPC _) as [d sz|m]; [|done]. cbn [cache_after].
    destruct (_ && _); [|done].
    pose proof (cache_set_length (key_of JSON_stringify msg)
                  (Build_CacheEntry d t_store sz) cache) as Hset.
    pose proof (cache_set_keys (key_of JSON_stringify msg)
                  (Build_CacheEntry d t_store sz) cache
                  (key_of_nonempty msg) Hkeys) as Hk.
    unfold cache_store.
    destruct (Z.ltb_spec CACHE_MAX_SIZE
                (Z.of_nat (length (cache_set (key_of JSON_stringify msg)
                                     (Build_CacheEntry d t_store sz) cache))))
      as [Hbig|Hok]; [|done].
    split; [|by apply evict_oldest_keys].
    rewrite evict_oldest_length by done.
    unfold CACHE_MAX_SIZE, toDelete in *. lia.
  - intros d sz Hfull Hcacheable Hnew Hres Hd Herr.
    subst r. unfold handleRequest, cache_lookup.
    rewrite Hcacheable, Hnew, Hres, Hd, Herr. cbn [negb andb cache_after].
    unfold cache_store. rewrite (cache_set_new _ _ _ Hnew), length_app.
    cbn [length]. unfold CACHE_MAX_SIZE, toDelete in *.
    destruct (Z.ltb_spec 5000 (Z.of_nat (length cache + 1))); [|lia].
    rewrite evict_oldest_drop
      by (apply Forall_app; split; [done|];
          constructor; [apply key_of_nonempty|constructor]).
    rewrite drop_app_le by lia. split; [done|]. split; [lia|].
    rewrite length_app, length_drop. cbn [length]. lia.
Qed.





(** A deny-listed request is never a hit, leaves the cache as it is and
    goes upstream. *)
Lemma deny_listed_request t_lookup t_store fetchRPC msg cache :
  no_cache (method_of msg) = true ->
  let r := handleRequest' t_lookup t_store fetchRPC msg cache in
  cached r = false /\ cache_after r = cache
  /\ upstreamCalls r = [payload msg].
Proof.
  intros Hdeny. cbv zeta. unfold handleRequest. rewrite Hdeny.
  cbn [negb andb]. by destruct (fetchRPC _).
Qed.

(** C8.  A request for a method of the deny-list is never answered from
    the cache and never changes the cache, whatever the cache and the TTL
    table hold; its payload goes upstream.  In any sequence of requests,
    each deny-listed one is answered upstream, and a sequence of
    deny-listed requests alone leaves the cache as it was.  And whatever
    the method, the cache changes only when the upstream call resolved
    with a truthy value without a truthy [error] field. *)
Theorem deny_list_never_cached :
  (forall t_lookup t_store fetchRPC msg cache,
     let r := handleRequest' t_lookup t_store fetchRPC msg cache in
     no_cache (method_of msg) = true ->
     cached r = false /\ cache_after r = cache
     /\ upstreamCalls r = [payload msg])
  /\ (forall calls cache,
        Forall2
          (fun c r =>
             no_cache (method_of (request c)) = true ->
             cached r = false /\ upstreamCalls r = [payload (request c)])
          calls (fst (serve JSON_stringify table calls cache)))
  /\ (forall calls cache,
        Forall (fun c => no_cache (method_of (request c)) = true) calls ->
        snd (serve JSON_stringify table calls cache) = cache)
  /\ (forall t_lookup t_store fetchRPC msg cache,
        let r := handleRequest' t_lookup t_store fetchRPC msg cache in
        cache_after r <> cache ->
        no_cache (method_of msg) = false
        /\ cached r = false
        /\ exists res_data res_size,
             fetchRPC (payload msg) = Resolved res_data res_size
             /\ truthy (Some res_data) = true
             /\ truthy (prop res_data "error") = false
             /\ error r = None).
Proof.
  split; [intros; by apply deny_listed_request|].
  split; [|split].
  - intros calls. induction calls as [|c calls IH]; intros cache; cbn.
    { constructor. }
    destruct (serve _ _ calls _) as [rs cache'] eqn:E. cbn.
    constructor.
    + intros Hdeny.
      destruct (deny_listed_request (at_lookup c) (at_store c) (endpoint c)
                  (request c) cache Hdeny) as (? & _ & ?). done.
    + specialize (IH (cache_after
                        (handleRequest' (at_lookup c) (at_store c)
                           (endpoint c) (request c) cache))).
      by rewrite E in IH.
  - intros calls cache Hall. revert cache.
    induction Hall as [|c calls Hdeny _ IH]; intros cache; cbn; [done|].
    destruct (deny_listed_request (at_lookup c) (at_store c) (endpoint c)
                (request c) cache Hdeny) as (_ & Hsame & _).
    rewrite Hsame. specialize (IH cache).
    by destruct (serve _ _ calls cache).
  - intros t_lookup t_store fetchRPC msg cache r. subst r.
    unfold handleRequest.
    destruct (no_cache (method_of msg)); cbn [negb andb].
    { destruct (fetchRPC _); intros Hc; exfalso; by apply Hc. }
    destruct (cache_lookup _ _ _ _); [intros Hc; exfalso; by apply Hc|].
    destruct (fetchRPC _) as [d sz|m]; cbn [cache_after cached error];
      [|intros Hc; exfalso; by apply Hc].
    destruct (truthy (Some d)) eqn:Hd; cbn [andb];
      [|intros Hc; exfalso; by apply Hc].
    destruct (truthy (prop d "error")) eqn:He; cbn [negb];
      [intros Hc; exfalso; by apply Hc|].
    intros _. split; [done|]. split; [done|]. exists d, sz. done.
Qed.

End CacheFacts.

Lemma full_cache_bounded : cache_bounded Scenarios.full_cache.
Proof.
  split; [vm_compute; discriminate|].
  apply List.Forall_forall. intros [k e] Hin.
  apply in_map_iff in Hin as (i & Hi & _). injection Hi as <- _.
  discriminate.
Defined.

(** A request for a balance that is stored into the cache of 5000
    entries: the 500 oldest entries go, 4501 are left. *)
Lemma handleRequest_bounded_example :
  cache_bounded
    (cache_after
       (handleRequest show_params CACHE_TTL 6000 6010 upstream
          balance_request Scenarios.full_cache))
  /\ cache_after
       (handleRequest show_params CACHE_TTL 6000 6010 upstream
          balance_request Scenarios.full_cache)
     = (drop 500 Scenarios.full_cache
        ++ [(key_of show_params balance_request,
             Build_CacheEntry balance_response 6010 42)])%list
  /\ Z.of_nat
       (length (cache_set (key_of show_params balance_request)
                  (Build_CacheEntry balance_response 6010 42)
                  Scenarios.full_cache)) = 5001
  /\ Z.of_nat
       (length
          (cache_after
             (handleRequest show_params CACHE_TTL 6000 6010 upstream
                balance_request Scenarios.full_cache))) = 4501.
Proof.
  destruct (handleRequest_bounded show_params CACHE_TTL 6000 6010 upstream
              balance_request Scenarios.full_cache full_cache_bounded)
    as [Hbound Hevict].
  split; [exact Hbound|].
  apply Hevict; vm_compute; reflexivity.
Defined.


(** * The router's choice *)

Section Router.
Context (REQUIRE_REGISTRATION : bool).
Local Abbreviation eligible' := (eligible REQUIRE_REGISTRATION).
Local Abbreviation pool_at' := (pool_at REQUIRE_REGISTRATION).
Local Abbreviation route' := (route REQUIRE_REGISTRATION).

Lemma filter_nil_iff {A} (f : A -> bool) (l : list A) :
  List.filter f l = [] <-> List.Forall (fun x => f x = false) l.
Proof.
  induction l as [|x l IH]; cbn.
  - split; [constructor|done].
  - destruct (f x) eqn:E.
    + split; [done|]. intros H. inversion H; congruence.
    + rewrite IH. split; [by constructor|]. intros H. by inversion H.
Qed.

Lemma In_take {A} k (l : list A) x : In x (take k l) -> In x l.
Proof.
  revert k. induction l as [|y l IH]; intros [|k]; cbn; try done.
  intros [->|H]; [by left|right; by apply (IH k)].
Qed.

Lemma In_drop {A} k (l : list A) x : In x (drop k l) -> In x l.
Proof.
  revert k. induction l as [|y l IH]; intros [|k]; cbn; try done.
  intros H. right. by apply (IH k).
Qed.

Lemma availableNodes_length nodes :
  (length (availableNodes nodes) <= length nodes)%nat
  /\ (nodes <> [] -> availableNodes nodes <> []).
Proof.
  unfold availableNodes.
  destruct (Nat.ltb_spec 0 (length (List.filter (fun n => healthy n) nodes)))
    as [Hpos|Hzero].
  - split; [apply List.filter_length_le|].
    intros _ E. rewrite E in Hpos. cbn in Hpos. lia.
  - split; [lia|done].
Qed.

Lemma availableNodes_In n nodes :
  In n (availableNodes nodes) -> In n nodes.
Proof.
  unfold availableNodes. destruct (_ <? _)%nat; [|done].
  intros H. by apply filter_In in H as [? _].
Qed.

Lemma fastPool_length sorted :
  length (fastPool sorted)
  = Nat.min (Nat.max 3 (Nat.div2 (length sorted + 1))) (length sorted).
Proof. unfold fastPool. apply length_take. Qed.

Lemma pool_In now h n :
  In n (pool_at' now h) ->
  In n (availableNodes
          (List.filter (fun n => eligible' now n) (connectedNodes_values h))).
Proof.
  unfold pool_at, fastPool. intros H.
  apply In_take in H.
  eapply Permutation_in; [apply sortByLatency_perm|exact H].
Qed.

(** A call is answered 503 exactly when no connected node is
    eligible; with one eligible node or more the router always picks a
    node. *)
Theorem route_unavailable_iff now h :
  route' now h = None
  <-> List.Forall (fun n => eligible' now n = false) (connectedNodes_values h).
Proof.
  rewrite <- filter_nil_iff. unfold route.
  set (nodes := List.filter _ (connectedNodes_values h)).
  destruct nodes as [|n nodes'] eqn:E; [done|].
  cbn [length Nat.eqb]. rewrite <- E. split; [|subst nodes; congruence].
  set (pool := fastPool (sortByLatency (availableNodes nodes))).
  assert (0 < length pool)%nat as Hpos.
  { subst pool. rewrite fastPool_length, sortByLatency_length.
    destruct (availableNodes_length nodes) as [_ Hne].
    destruct (availableNodes nodes) as [|m l]; [|cbn; lia].
    exfalso. apply Hne; [|done]. rewrite E. discriminate. }
  assert (nextIndex (roundRobinIndex h) (length pool) < length pool)%nat
    as Hlt by (unfold nextIndex; apply Nat.mod_upper_bound; lia).
  apply lookup_lt_is_Some_2 in Hlt as [x Hx]. by rewrite Hx.
Qed.

(** The node a call is sent to is a connected node that is eligible
    at the time of the call; it is an unhealthy node only when every
    eligible node is unhealthy; and the choice changes nothing in the hub
    but the round-robin index. *)
Theorem route_target now h node h' :
  route' now h = Some (node, h') ->
  In node (connectedNodes_values h)
  /\ eligible' now node = true
  /\ (healthy node = false ->
      forall n, In n (connectedNodes_values h) ->
                eligible' now n = true -> healthy n = false)
  /\ exists i, h' = set_roundRobinIndex h i
               /\ pool_at' now h !! i = Some node.
Proof.
  unfold route. fold (pool_at' now h).
  destruct (_ =? _)%nat; [done|].
  destruct (pool_at' now h !! _) as [x|] eqn:Hx; [|done].
  intros [= -> <-].
  assert (In node (pool_at' now h)) as Hin
    by (apply list_elem_of_In; eapply list_elem_of_lookup_2; exact Hx).
  apply pool_In in Hin.
  pose proof (availableNodes_In _ _ Hin) as Hel.
  apply filter_In in Hel as [Hconn Hel].
  split; [done|]. split; [done|]. split; [|by eexists].
  intros Hbad n Hn Hn'.
  destruct (healthy n) eqn:Hh; [|done]. exfalso.
  revert Hin. unfold availableNodes.
  set (nodes := List.filter (fun n => eligible' now n) (connectedNodes_values h)).
  assert (In n (List.filter (fun n => healthy n) nodes)) as Hgood
    by (apply filter_In; split; [by apply filter_In|done]).
  destruct (Nat.ltb_spec 0 (length (List.filter (fun n => healthy n) nodes)))
    as [_|Hzero].
  - intros Hin. apply filter_In in Hin as [_ Hin]. congruence.
  - destruct (List.filter (fun n => healthy n) nodes); [done|cbn in Hzero; lia].
Qed.





End Router.

Section FailingNode.
Context (REQUIRE_REGISTRATION : bool) (ema_persist ema_route : Z -> Z -> Z).
Local Abbreviation run' := (run REQUIRE_REGISTRATION ema_persist ema_route).

Lemma rpc_rejected_node now nodeId h node :
  sockets h !! nodeId = Some node ->
  sockets (rpc_rejected ema_persist now nodeId h) !! nodeId
  = Some (Node.set_stats node
            (Stats.mk (Stats.requestsHandled (Node.stats node))
               (Stats.avgLatencyMs (Node.stats node))
               (Stats.cacheHits (Node.stats node))
               (Stats.cacheMisses (Node.stats node))
               (Stats.errors (Node.stats node) + 1))).
Proof.
  intros Hn. unfold rpc_rejected. rewrite Hn.
  destruct (negb _); cbn; by rewrite lookup_insert_eq.
Qed.

Lemma rpc_resolved_null_node now nodeId latency h node :
  sockets h !! nodeId = Some node ->
  exists avg,
    sockets (rpc_resolved_null ema_persist ema_route now nodeId latency h)
      !! nodeId
    = Some (Node.set_stats node
              (Stats.mk (Stats.requestsHandled (Node.stats node) + 1)
                 avg
                 (Stats.cacheHits (Node.stats node))
                 (Stats.cacheMisses (Node.stats node))
                 (Stats.errors (Node.stats node) + 1))).
Proof.
  intros Hn. unfold rpc_resolved_null. rewrite Hn. eexists.
  destruct (negb _); cbn; by rewrite lookup_insert_eq.
Qed.

Lemma eligible_set_stats now node st :
  eligible REQUIRE_REGISTRATION now (Node.set_stats node st)
  = eligible REQUIRE_REGISTRATION now node.
Proof. by destruct node. Qed.

(** A call that [sendToNode] rejects adds an error and no handled
    request; a call that resolves with [null] adds one of each.  So
    after any failures in a row the error count has grown by their
    number and [requestsHandled] by the number of resolutions, and the
    node is as eligible as it was.  While [requestsHandled] is below
    five the node stays healthy and keeps the rank of a new node
    (500 ms); rejections alone never take it there.  Once it is five or
    more, the node is dropped as soon as ten times the errors exceed
    three times the requests. *)
Theorem failing_new_node_stays_healthy fs nodeId h node :
  sockets h !! nodeId = Some node ->
  exists node',
    sockets (run' (map (Failures.event nodeId) fs) h) !! nodeId = Some node'
    /\ Stats.requestsHandled (Node.stats node')
       = Stats.requestsHandled (Node.stats node) + Failures.resolved fs
    /\ Stats.errors (Node.stats node')
       = Stats.errors (Node.stats node) + Z.of_nat (length fs)
    /\ (forall now, eligible REQUIRE_REGISTRATION now node'
                    = eligible REQUIRE_REGISTRATION now node)
    /\ (Stats.requestsHandled (Node.stats node) + Failures.resolved fs < 5 ->
        healthy node' = true /\ effectiveLatency node' = 500)
    /\ (5 <= Stats.requestsHandled (Node.stats node) + Failures.resolved fs ->
        3 * (Stats.requestsHandled (Node.stats node) + Failures.resolved fs)
        < 10 * (Stats.errors (Node.stats node) + Z.of_nat (length fs)) ->
        healthy node' = false)
    /\ (Forall (fun f => exists now, f = Failures.Rejects now) fs ->
        Failures.resolved fs = 0).
Proof.
  intros Hn.
  assert (exists node',
            sockets (run' (map (Failures.event nodeId) fs) h) !! nodeId
            = Some node'
            /\ Stats.requestsHandled (Node.stats node')
               = Stats.requestsHandled (Node.stats node) + Failures.resolved fs
            /\ Stats.errors (Node.stats node')
               = Stats.errors (Node.stats node) + Z.of_nat (length fs)
            /\ (forall now, eligible REQUIRE_REGISTRATION now node'
                            = eligible REQUIRE_REGISTRATION now node))
    as (node' & Hn' & Hreq & Herr & Hel).
  { revert h node Hn. induction fs as [|f fs IH]; intros h node Hn.
    - exists node. cbn. rewrite Hn. repeat split; first [lia|done].
    - destruct f as [now|now latency]; cbn [map Failures.event].
      + pose proof (rpc_rejected_node now nodeId h node Hn) as Hstep.
        destruct (IH _ _ Hstep) as (node' & Hn' & Hreq & Herr & He).
        exists node'. cbn [run fold_left step]. unfold run in Hn'.
        rewrite Hn'. cbn in Hreq, Herr.
        split; [done|]. split; [cbn [Failures.resolved]; lia|].
        split; [cbn [length]; lia|].
        intros t. rewrite He. apply eligible_set_stats.
      + destruct (rpc_resolved_null_node now nodeId latency h node Hn)
          as [avg Hstep].
        destruct (IH _ _ Hstep) as (node' & Hn' & Hreq & Herr & He).
        exists node'. cbn [run fold_left step]. unfold run in Hn'.
        rewrite Hn'. cbn in Hreq, Herr.
        split; [done|]. split; [cbn [Failures.resolved]; lia|].
        split; [cbn [length]; lia|].
        intros t. rewrite He. apply eligible_set_stats. }
  exists node'. split; [done|]. split; [done|]. split; [done|].
  split; [done|]. split; [|split].
  - intros Hnew. unfold healthy, effectiveLatency. rewrite Hreq.
    by destruct (Z.ltb_spec (Stats.requestsHandled (Node.stats node)
                             + Failures.resolved fs) 5); [|lia].
  - intros Hmany Hrate. apply healthy_false_iff_counters.
    rewrite Hreq, Herr. split; [done|by left].
  - clear. intros Hrej. induction Hrej as [|f fs' [now ->] _ IH]; [done|].
    exact IH.
Qed.

End FailingNode.

(** Three rejected calls leave a new node healthy; five calls that
    resolve with [null] take it out of the filter. *)
Lemma failing_new_node_stays_healthy_example :
  (exists node',
     sockets (run true ema_7_3 ema_8_2
                (map (Failures.event "a1") Scenarios.three_rejections)
                three_nodes) !! "a1" = Some node'
     /\ Stats.requestsHandled (Node.stats node') = 0
     /\ Stats.errors (Node.stats node') = 3
     /\ healthy node' = true /\ effectiveLatency node' = 500)
  /\ (exists node',
        sockets (run true ema_7_3 ema_8_2
                   (map (Failures.event "a1") Scenarios.five_null_answers)
                   three_nodes) !! "a1" = Some node'
        /\ Stats.requestsHandled (Node.stats node') = 5
        /\ Stats.errors (Node.stats node') = 5
        /\ healthy node' = false).
Proof.
  split.
  - destruct (failing_new_node_stays_healthy true ema_7_3 ema_8_2
                Scenarios.three_rejections "a1" three_nodes
                (node_of three_nodes "a1") eq_refl)
      as (node' & Hn & Hreq & Herr & _ & Hnew & _).
    exists node'. split; [exact Hn|]. split; [exact Hreq|].
    split; [exact Herr|]. apply Hnew. reflexivity.
  - destruct (failing_new_node_stays_healthy true ema_7_3 ema_8_2
                Scenarios.five_null_answers "a1" three_nodes
                (node_of three_nodes "a1") eq_refl)
      as (node' & Hn & Hreq & Herr & _ & _ & Hdrop & _).
    exists node'. split; [exact Hn|]. split; [exact Hreq|].
    split; [exact Herr|]. apply Hdrop; vm_compute; [discriminate|reflexivity].
Defined.

(** * The SQLite module *)

Section DatabaseFacts.
Local Abbreviation getWalletStats := Database.getWalletStats.
Local Abbreviation saveWalletStats := Database.saveWalletStats.
Local Abbreviation updateWalletStats := Database.updateWalletStats.
Local Abbreviation updateWalletUptime := Database.updateWalletUptime.

Lemma get_after_save now stats t w :
  getWalletStats w (saveWalletStats now stats t)
  = if String.eqb w (Database.WalletStats.wallet stats) then Some stats
    else getWalletStats w t.
Proof.
  unfold Database.getWalletStats, Database.saveWalletStats.
  destruct (String.eqb_spec w (Database.WalletStats.wallet stats))
    as [->|Hne].
  - rewrite lookup_insert_eq. cbn. by destruct stats.
  - by rewrite lookup_insert_ne.
Qed.

Lemma getAll_get t w :
  Database.getAllWalletStats t !! w = getWalletStats w t.
Proof.
  unfold Database.getAllWalletStats, Database.getWalletStats.
  rewrite map_lookup_imap. by destruct (t !! w).
Qed.

(** What [saveWalletStats] writes is what [getWalletStats] and
    [getAllWalletStats] read back for that wallet, whatever the table
    held for it, and the rows of the other wallets are as they were. *)
Theorem saved_stats_read_back now stats t w :
  getWalletStats w (saveWalletStats now stats t)
  = (if String.eqb w (Database.WalletStats.wallet stats) then Some stats
     else getWalletStats w t)
  /\ Database.getAllWalletStats (saveWalletStats now stats t) !! w
     = getWalletStats w (saveWalletStats now stats t).
Proof. split; [apply get_after_save|apply getAll_get]. Qed.

Lemma last_cons_default {A} (x d : A) l :
  List.last (x :: l) d = List.last l x.
Proof.
  revert x d. induction l as [|y l IH]; intros x d; [done|].
  change (List.last (x :: y :: l) d) with (List.last (y :: l) d).
  by rewrite !IH.
Qed.

Lemma updateWalletUptime_get now wallet up dt t w :
  getWalletStats w (updateWalletUptime now wallet up dt t)
  = match getWalletStats w t with
    | Some s =>
        Some (if String.eqb w wallet
              then Database.WalletStats.mk w
                     (Database.WalletStats.requestsHandled s)
                     (Database.WalletStats.avgLatencyMs s)
                     (Database.WalletStats.cacheHits s)
                     (Database.WalletStats.cacheMisses s)
                     (Database.WalletStats.errors s)
                     (Database.WalletStats.totalUptime s + up) dt
                     (Database.WalletStats.firstConnect s)
              else s)
    | None => None
    end.
Proof.
  unfold Database.updateWalletUptime, Database.getWalletStats.
  destruct (String.eqb_spec w wallet) as [->|Hne].
  - destruct (t !! wallet) as [r|] eqn:E.
    + by rewrite lookup_insert_eq.
    + by rewrite E.
  - destruct (t !! wallet) as [r|] eqn:E.
    + rewrite lookup_insert_ne by done. by destruct (t !! w).
    + by destruct (t !! w).
Qed.

(** [updateWalletUptime] never makes a row: for a wallet without
    one the sessions are dropped and the table stays as it is.  For a
    wallet with a row the uptime grows by the sum of the sessions, the
    last session's end becomes [lastDisconnect], the counters and
    [firstConnect] stay; the other wallets are untouched in both cases. *)
Theorem uptime_log_accumulates now wallet sessions t :
  match getWalletStats wallet t with
  | None => Database.log_uptimes now wallet sessions t = t
  | Some s =>
      getWalletStats wallet (Database.log_uptimes now wallet sessions t)
      = Some (Database.WalletStats.mk wallet
                (Database.WalletStats.requestsHandled s)
                (Database.WalletStats.avgLatencyMs s)
                (Database.WalletStats.cacheHits s)
                (Database.WalletStats.cacheMisses s)
                (Database.WalletStats.errors s)
                (Database.WalletStats.totalUptime s
                 + fold_right Z.add 0 (fst <$> sessions))
                (List.last (snd <$> sessions)
                   (Database.WalletStats.lastDisconnect s))
                (Database.WalletStats.firstConnect s))
  end
  /\ forall w, w <> wallet ->
       getWalletStats w (Database.log_uptimes now wallet sessions t)
       = getWalletStats w t.
Proof.
  split.
  - destruct (getWalletStats wallet t) as [s|] eqn:E.
    + revert t s E. unfold Database.log_uptimes.
      induction sessions as [|[up dt] l IH]; intros t s E.
      * cbn. rewrite E. unfold Database.getWalletStats in E.
        destruct (t !! wallet); [|done]. cbn in E. injection E as <-.
        cbn. unfold Database.select. by rewrite Z.add_0_r.
      * cbn [fold_left fst snd].
        pose proof (updateWalletUptime_get now wallet up dt t wallet) as H.
        rewrite E, String.eqb_refl in H.
        rewrite (IH _ _ H). cbn [Database.WalletStats.requestsHandled
          Database.WalletStats.avgLatencyMs Database.WalletStats.cacheHits
          Database.WalletStats.cacheMisses Database.WalletStats.errors
          Database.WalletStats.totalUptime Database.WalletStats.lastDisconnect
          Database.WalletStats.firstConnect].
        f_equal. f_equal.
        -- cbn. lia.
        -- cbn [fmap list_fmap snd]. symmetry. apply last_cons_default.
    + unfold Database.log_uptimes.
      induction sessions as [|[up dt] l IH]; [done|]. cbn [fold_left].
      unfold Database.updateWalletUptime at 2.
      unfold Database.getWalletStats in E.
      destruct (t !! wallet); [done|]. exact IH.
  - intros w Hne. revert t. unfold Database.log_uptimes.
    induction sessions as [|[up dt] l IH]; intros t; [done|].
    cbn [fold_left]. rewrite IH, updateWalletUptime_get.
    destruct (getWalletStats w t); [|done].
    by destruct (String.eqb_spec w wallet).
Qed.

(** [updateWalletStats] creates nothing for a wallet without a
    row; an update that carries no field leaves every row as
    [getWalletStats] reads it; and an update that names another wallet in
    its [wallet] field writes the merged row under that other wallet and
    leaves the row it was called for as it was. *)
Theorem updateWalletStats_merge now wallet updates t :
  (getWalletStats wallet t = None ->
   updateWalletStats now wallet updates t = t)
  /\ (forall w, getWalletStats w
                  (updateWalletStats now wallet Database.Updates.none t)
                = getWalletStats w t)
  /\ (forall existing other,
        getWalletStats wallet t = Some existing ->
        Database.Updates.wallet updates = Some other ->
        other <> wallet ->
        getWalletStats other (updateWalletStats now wallet updates t)
        = Some (Database.merge existing updates)
        /\ getWalletStats wallet (updateWalletStats now wallet updates t)
           = Some existing).
Proof.
  unfold Database.updateWalletStats. split; [by intros ->|]. split.
  - intros w. destruct (getWalletStats wallet t) as [existing|] eqn:E;
      [|done].
    rewrite get_after_save.
    assert (Database.merge existing Database.Updates.none = existing) as ->
      by (by destruct existing).
    destruct (String.eqb_spec w (Database.WalletStats.wallet existing))
      as [->|]; [|done].
    unfold Database.getWalletStats in E.
    destruct (t !! wallet) eqn:E'; [|done]. cbn in E.
    injection E as <-. cbn. unfold Database.getWalletStats.
    by rewrite E'.
  - intros existing other E Hother Hne. rewrite E, !get_after_save.
    assert (Database.WalletStats.wallet (Database.merge existing updates)
            = other) as -> by (cbn; by rewrite Hother).
    rewrite String.eqb_refl. split; [done|].
    destruct (String.eqb_spec wallet other); [congruence|done].
Qed.

End DatabaseFacts.

(** * The global counters *)

Section GlobalFacts.

Lemma boot_consistent db_throws now g file :
  (forall row, g = Some row -> Global.consistent row) ->
  (forall parsed, file = Some parsed -> Global.consistent parsed) ->
  Global.consistent
    (Global.globalStats (Global.boot db_throws now g file)).
Proof.
  intros Hg Hf. unfold Global.boot, Global.loadGlobalStats.
  destruct db_throws; cbn.
  - destruct file as [parsed|]; cbn; [by apply Hf|].
    unfold Global.consistent. cbn. lia.
  - destruct g as [row|]; cbn.
    + by destruct (Hg row eq_refl).
    + unfold Global.consistent. cbn. lia.
Qed.

Lemma boot_stores db_throws now g file :
  Global.global_stats (Global.boot db_throws now g file) = g
  /\ Global.json_file (Global.boot db_throws now g file) = file.
Proof.
  unfold Global.boot, Global.loadGlobalStats.
  destruct db_throws; [by destruct file|done].
Qed.

Lemma save_consistent db_throws fs_throws s :
  Global.consistent (Global.globalStats s) ->
  (forall row, Global.global_stats s = Some row -> Global.consistent row) ->
  (forall parsed, Global.json_file s = Some parsed ->
                  Global.consistent parsed) ->
  Global.globalStats (Global.saveGlobalStats db_throws fs_throws s)
  = Global.globalStats s
  /\ (forall row,
        Global.global_stats (Global.saveGlobalStats db_throws fs_throws s)
        = Some row -> Global.consistent row)
  /\ (forall parsed,
        Global.json_file (Global.saveGlobalStats db_throws fs_throws s)
        = Some parsed -> Global.consistent parsed).
Proof.
  intros Hm Hr Hf. unfold Global.saveGlobalStats.
  destruct db_throws; [destruct fs_throws|]; cbn; try done.
  - split; [done|]. split; [done|]. by intros parsed [= <-].
  - split; [done|]. split; [|done]. intros row [= <-].
    unfold Global.consistent in *. cbn. lia.
Qed.

Lemma global_step_consistent e s :
  Global.consistent (Global.globalStats s) ->
  (forall row, Global.global_stats s = Some row -> Global.consistent row) ->
  (forall parsed, Global.json_file s = Some parsed ->
                  Global.consistent parsed) ->
  Global.consistent (Global.globalStats (Global.step e s))
  /\ (forall row, Global.global_stats (Global.step e s) = Some row ->
                  Global.consistent row)
  /\ (forall parsed, Global.json_file (Global.step e s) = Some parsed ->
                     Global.consistent parsed).
Proof.
  intros Hm Hr Hf. destruct e; cbn [Global.step].
  - split; [|by split]. unfold Global.consistent in *. cbn. lia.
  - split; [|by split]. unfold Global.consistent in *. cbn. lia.
  - destruct (save_consistent db_throws fs_throws s Hm Hr Hf)
      as (-> & ? & ?). done.
  - destruct (save_consistent db_throws fs_throws s Hm Hr Hf)
      as (_ & Hr' & Hf'). cbv zeta.
    destruct (boot_stores load_throws now
                (Global.global_stats
                   (Global.saveGlobalStats db_throws fs_throws s))
                (Global.json_file
                   (Global.saveGlobalStats db_throws fs_throws s)))
      as [-> ->].
    split; [by apply boot_consistent|by split].
  - destruct (boot_stores load_throws now (Global.global_stats s)
                (Global.json_file s)) as [-> ->].
    split; [by apply boot_consistent|by split].
Qed.

(** Every call of [addToGlobalStats] counts a request, failed or
    not, so the global counters never show more errors than requests:
    in memory, in the table and in the JSON file, through any sequence of
    answered and failed calls, saves, shutdowns and crashes, whichever of
    the database and file calls throw, of a process that started on a
    table and a file with that property. *)
Theorem global_errors_le_requests es db_throws now g file :
  (forall row, g = Some row -> Global.consistent row) ->
  (forall parsed, file = Some parsed -> Global.consistent parsed) ->
  let s := Global.run es (Global.boot db_throws now g file) in
  Global.consistent (Global.globalStats s)
  /\ (forall row, Global.global_stats s = Some row -> Global.consistent row)
  /\ (forall parsed, Global.json_file s = Some parsed ->
                     Global.consistent parsed).
Proof.
  intros Hg Hf. cbv zeta. unfold Global.run. rewrite <- fold_left_rev_right.
  induction (rev es) as [|e l IH]; cbn [fold_right].
  - destruct (boot_stores db_throws now g file) as [-> ->].
    split; [by apply boot_consistent|by split].
  - destruct IH as (IH1 & IH2 & IH3). by apply global_step_consistent.
Qed.

(** When the database call of [loadGlobalStats] returns, start-up takes
    the counters from the table, or zeros when the table has no row, and
    the 40 MB of the initializer are gone.  When it throws, start-up takes
    the counters of the JSON file; with no such file the process runs on
    the initializer, 40 MB included.  And one call of
    [updateGlobalStats] writes the row that loading, one call of
    [addToGlobalStats] and saving write when no database call throws. *)
Theorem updateGlobalStats_agrees now bytes isError g file :
  Global.globalStats (Global.boot false now g file)
  = Database.getGlobalStats now g
  /\ (forall parsed, file = Some parsed ->
        Global.globalStats (Global.boot true now g file) = parsed)
  /\ (file = None ->
      Global.globalStats (Global.boot true now g file)
      = GlobalStats.mk 41943040 0 0 now)
  /\ (g = None ->
      GlobalStats.totalDataServed
        (Global.globalStats (Global.boot false now g file)) = 0)
  /\ Database.updateGlobalStats now bytes isError g
     = Global.global_stats
         (Global.saveGlobalStats false false
            (Global.addToGlobalStats bytes isError
               (Global.boot false now g file))).
Proof.
  split; [|split; [|split; [|split]]].
  - unfold Global.boot, Global.loadGlobalStats. cbn.
    by destruct (Database.getGlobalStats now g).
  - by intros parsed ->.
  - by intros ->.
  - by intros ->.
  - unfold Database.updateGlobalStats. cbn.
    unfold Database.saveGlobalStats. f_equal.
    destruct g as [row|]; destruct isError; cbn; f_equal; lia.
Qed.

End GlobalFacts.

(** A run in which a save falls back on the file and the start after a
    crash reads it. *)
Lemma global_errors_le_requests_example :
  Global.consistent
    (Global.globalStats
       (Global.run Scenarios.global_events (Global.boot false 0 None None)))
  /\ (forall row,
        Global.global_stats
          (Global.run Scenarios.global_events (Global.boot false 0 None None))
        = Some row ->
        Global.consistent row)
  /\ (forall parsed,
        Global.json_file
          (Global.run Scenarios.global_events (Global.boot false 0 None None))
        = Some parsed ->
        Global.consistent parsed).
Proof.
  refine (global_errors_le_requests Scenarios.global_events false 0 None
            None _ _); intros row H; discriminate H.
Defined.

(** * The on-chain lookup *)

Section OnChainFacts.
Local Abbreviation getOnChainNodeAccount := OnChain.getOnChainNodeAccount.

Lemma apply_keeps wallet stored d op cache :
  OnChain.keeps wallet stored op ->
  cache !! wallet = Some (d, stored) ->
  OnChain.apply op cache !! wallet = Some (d, stored).
Proof.
  intros Hop Hc. destruct op as [t_check t_set chain w|w|w data ts]; cbn in *.
  - unfold OnChain.getOnChainNodeAccount.
    destruct (decide (w = wallet)) as [->|Hne].
    + rewrite Hc. specialize (Hop eq_refl).
      by destruct (Z.ltb_spec (t_check - stored) OnChain.CACHE_TTL); [|lia].
    + destruct (cache !! w) as [[d' ts]|];
        [destruct (_ <? _); [done|]|];
        destruct (chain w); cbn; by rewrite ?lookup_insert_ne.
  - by rewrite lookup_delete_ne.
  - by rewrite lookup_insert_ne.
Qed.

Lemma run_keeps wallet stored d ops cache :
  Forall (OnChain.keeps wallet stored) ops ->
  cache !! wallet = Some (d, stored) ->
  OnChain.run ops cache !! wallet = Some (d, stored).
Proof.
  intros Hops. revert cache. unfold OnChain.run.
  induction Hops as [|op ops Hop Hops IH]; intros cache Hc; [done|].
  cbn [fold_left]. by apply IH, apply_keeps.
Qed.

(** An answer of the chain, an account or the absence of one, is
    served from the cache for five minutes from the moment it was stored,
    without asking the chain and whatever the chain holds by then, through
    any calls for other wallets and any deletes and stores of other
    wallets' entries; once the entry is deleted the next call asks the
    chain again. *)
Theorem lookup_reused_for_five_minutes
    t0 t0' chain1 wallet cache ops t1 t1' chain2 :
  OnChain.asked (getOnChainNodeAccount t0 t0' chain1 wallet cache)
  = [wallet] ->
  chain1 wallet <> OnChain.Threw ->
  Forall (OnChain.keeps wallet t0') ops ->
  let first := getOnChainNodeAccount t0 t0' chain1 wallet cache in
  let later := OnChain.run ops (OnChain.cache_after first) in
  (t1 - t0' < OnChain.CACHE_TTL ->
   getOnChainNodeAccount t1 t1' chain2 wallet later
   = OnChain.mkAnswer (OnChain.resolved first) later [])
  /\ OnChain.asked
       (getOnChainNodeAccount t1 t1' chain2 wallet
          (OnChain.apply (OnChain.Delete wallet) later))
     = [wallet]
  /\ (OnChain.CACHE_TTL <= t1 - t0' ->
      OnChain.asked (getOnChainNodeAccount t1 t1' chain2 wallet later)
      = [wallet]).
Proof.
  intros Hasked Hok Hops first later.
  assert (exists d,
            first
            = OnChain.mkAnswer d (<[wallet := (d, t0')]> cache) [wallet])
    as [d Hd].
  { subst first. revert Hasked. unfold OnChain.getOnChainNodeAccount.
    destruct (cache !! wallet) as [[d ts]|].
    - destruct (_ <? _); [done|].
      destruct (chain1 wallet); [by eexists|by eexists|done].
    - destruct (chain1 wallet); [by eexists|by eexists|done]. }
  assert (later !! wallet = Some (d, t0')) as Hlater.
  { subst later. apply run_keeps; [done|].
    rewrite Hd. cbn. by rewrite lookup_insert_eq. }
  rewrite Hd. cbn [OnChain.resolved].
  split; [|split].
  - intros Hfresh. unfold OnChain.getOnChainNodeAccount. rewrite Hlater.
    by destruct (Z.ltb_spec (t1 - t0') OnChain.CACHE_TTL); [|lia].
  - cbn [OnChain.apply]. unfold OnChain.getOnChainNodeAccount.
    rewrite lookup_delete_eq. by destruct (chain2 wallet).
  - intros Hold. unfold OnChain.getOnChainNodeAccount. rewrite Hlater.
    destruct (Z.ltb_spec (t1 - t0') OnChain.CACHE_TTL); [lia|].
    by destruct (chain2 wallet).
Qed.

(** With [?refresh=true] the node endpoint always asks the chain
    and answers with what the chain says; a lookup that throws is
    answered as "no account" and leaves no entry behind, so the call
    after it asks the chain again. *)
Theorem refresh_asks_the_chain t_check t_set chain wallet cache :
  let a := OnChain.node_endpoint true t_check t_set chain wallet cache in
  OnChain.asked a = [wallet]
  /\ OnChain.resolved a
     = match chain wallet with
       | OnChain.Account nodeAccount => Some nodeAccount
       | _ => None
       end
  /\ (chain wallet = OnChain.Threw ->
      forall t_check' t_set' chain',
        OnChain.asked
          (getOnChainNodeAccount t_check' t_set' chain' wallet
             (OnChain.cache_after a))
        = [wallet]).
Proof.
  cbv zeta. unfold OnChain.node_endpoint.
  assert (forall c, OnChain.getOnChainNodeAccount t_check t_set chain wallet
                      (delete wallet c)
                    = match chain wallet with
                      | OnChain.NoAccount =>
                          OnChain.mkAnswer None
                            (<[wallet := (None, t_set)]> (delete wallet c))
                            [wallet]
                      | OnChain.Account nodeAccount =>
                          OnChain.mkAnswer (Some nodeAccount)
                            (<[wallet := (Some nodeAccount, t_set)]>
                               (delete wallet c))
                            [wallet]
                      | OnChain.Threw =>
                          OnChain.mkAnswer None (delete wallet c) [wallet]
                      end) as Hmiss.
  { intros c. unfold OnChain.getOnChainNodeAccount.
    by rewrite lookup_delete_eq. }
  rewrite Hmiss.
  split; [by destruct (chain wallet)|]. split; [by destruct (chain wallet)|].
  intros Hthrew t_check' t_set' chain'. rewrite Hthrew.
  cbn [OnChain.cache_after].
  unfold OnChain.getOnChainNodeAccount. rewrite lookup_delete_eq.
  by destruct (chain' wallet).
Qed.

End OnChainFacts.

(** The chain had no account when first asked; a call for another
    wallet, a delete of that wallet's entry and an earlier second call
    follow; 199 seconds after the store the answer is still "no account"
    although the chain has one by then. *)
Lemma lookup_reused_for_five_minutes_example :
  (200000 - 1010 < OnChain.CACHE_TTL ->
   OnChain.getOnChainNodeAccount 200000 200001
     (fun _ => OnChain.Account bonded) "W1"
     (OnChain.run Scenarios.other_lookups
        (OnChain.cache_after
           (OnChain.getOnChainNodeAccount 1000 1010
              (fun _ => OnChain.NoAccount) "W1" ∅)))
   = OnChain.mkAnswer
       (OnChain.resolved
          (OnChain.getOnChainNodeAccount 1000 1010
             (fun _ => OnChain.NoAccount) "W1" ∅))
       (OnChain.run Scenarios.other_lookups
          (OnChain.cache_after
             (OnChain.getOnChainNodeAccount 1000 1010
                (fun _ => OnChain.NoAccount) "W1" ∅)))
       [])
  /\ OnChain.asked
       (OnChain.getOnChainNodeAccount 200000 200001
          (fun _ => OnChain.Account bonded) "W1"
          (OnChain.apply (OnChain.Delete "W1")
             (OnChain.run Scenarios.other_lookups
                (OnChain.cache_after
                   (OnChain.getOnChainNodeAccount 1000 1010
                      (fun _ => OnChain.NoAccount) "W1" ∅)))))
     = ["W1"]
  /\ (OnChain.CACHE_TTL <= 200000 - 1010 ->
      OnChain.asked
        (OnChain.getOnChainNodeAccount 200000 200001
           (fun _ => OnChain.Account bonded) "W1"
           (OnChain.run Scenarios.other_lookups
              (OnChain.cache_after
                 (OnChain.getOnChainNodeAccount 1000 1010
                    (fun _ => OnChain.NoAccount) "W1" ∅))))
      = ["W1"]).
Proof.
  refine (lookup_reused_for_five_minutes 1000 1010
            (fun _ => OnChain.NoAccount) "W1" ∅ Scenarios.other_lookups
            200000 200001 (fun _ => OnChain.Account bonded) _ _ _).
  - reflexivity.
  - discriminate.
  - repeat constructor; cbn; discriminate.
Defined.

(** * Calls in flight *)

Section PendingFacts.
Context (strict : bool).
Local Abbreviation step := (Pending.step strict).
Local Abbreviation run := (Pending.run strict).

Lemma coherent_empty : Pending.coherent Pending.empty.
Proof.
  unfold Pending.coherent, Pending.empty, Pending.settled_promises. cbn.
  split; [intros k p; by rewrite lookup_empty|].
  split; [intros p k; by rewrite lookup_empty|].
  split; [by intros p []|constructor].
Qed.

(** Settling a promise whose timer is set, and clearing the timer, keeps
    the bookkeeping coherent. *)
Lemma coherent_settle s p k x pending' :
  Pending.coherent s ->
  Pending.timers s !! p = Some k ->
  (forall k' p', pending' !! k' = Some p' ->
                 Pending.pendingRequests s !! k' = Some p' /\ p' <> p) ->
  Pending.coherent
    (Pending.mk pending' (delete p (Pending.timers s)) (Pending.promises s)
       (Pending.settled s ++ [(p, x)]) (Pending.frames s)).
Proof.
  intros (Hp & Ht & Hs & Hnd) Hk Hpending.
  unfold Pending.coherent, Pending.settled_promises. cbn.
  rewrite fmap_app. cbn.
  split; [|split; [|split]].
  - intros k' p' E. destruct (Hpending k' p' E) as [E' Hne].
    rewrite lookup_delete_ne by done. by apply Hp.
  - intros p' k'. destruct (decide (p = p')) as [<-|Hne].
    + by rewrite lookup_delete_eq.
    + rewrite lookup_delete_ne by done. apply Ht.
  - intros p' Hin. apply in_app_or in Hin as [Hin|[<-|[]]].
    + destruct (Hs p' Hin) as [E Hlt]. split; [|done].
      destruct (decide (p = p')) as [<-|Hne];
        [by rewrite lookup_delete_eq|by rewrite lookup_delete_ne].
    + split; [by rewrite lookup_delete_eq|by eapply Ht].
  - apply NoDup_app. split; [done|]. split; [|apply NoDup_singleton].
    intros p' Hin Hp'. apply list_elem_of_singleton in Hp' as ->.
    apply list_elem_of_In in Hin. destruct (Hs p Hin) as [E _]. congruence.
Qed.

Lemma coherent_clear s p k :
  Pending.coherent s ->
  Pending.pendingRequests s !! k = Some p ->
  Pending.coherent
    (Pending.mk (delete k (Pending.pendingRequests s))
       (delete p (Pending.timers s)) (Pending.promises s)
       (Pending.settled s) (Pending.frames s)).
Proof.
  intros (Hp & Ht & Hs & Hnd) Hk.
  split; [|split; [|split]]; cbn.
  - intros k' p'. destruct (decide (k = k')) as [<-|Hne].
    + by rewrite lookup_delete_eq.
    + rewrite lookup_delete_ne by done. intros E.
      destruct (decide (p = p')) as [<-|Hne'].
      * pose proof (Hp _ _ E). pose proof (Hp _ _ Hk). congruence.
      * rewrite lookup_delete_ne by done. by apply Hp.
  - intros p' k'. destruct (decide (p = p')) as [<-|Hne].
    + by rewrite lookup_delete_eq.
    + rewrite lookup_delete_ne by done. apply Ht.
  - intros p' Hin. destruct (Hs p' Hin) as [E Hlt]. split; [|done].
    destruct (decide (p = p')) as [<-|Hne];
      [by rewrite lookup_delete_eq|by rewrite lookup_delete_ne].
  - done.
Qed.

Lemma pending_after_delete s k p :
  Pending.coherent s ->
  Pending.timers s !! p = Some k ->
  forall k' p', delete k (Pending.pendingRequests s) !! k' = Some p' ->
                Pending.pendingRequests s !! k' = Some p' /\ p' <> p.
Proof.
  intros (Hp & _) Hk k' p'. destruct (decide (k = k')) as [<-|Hne].
  - by rewrite lookup_delete_eq.
  - rewrite lookup_delete_ne by done. intros E. split; [done|].
    intros ->. pose proof (Hp _ _ E). congruence.
Qed.

Lemma step_coherent e s : Pending.coherent s -> Pending.coherent (step e s).
Proof.
  intros Hc. pose proof Hc as (Hp & Ht & Hs & Hnd).
  destruct e as [requestId payload|msg|p]; cbn [Pending.step].
  - unfold Pending.sendToNode.
    split; [|split; [|split]]; cbn.
    + intros k p. destruct (decide (requestId = k)) as [<-|Hne].
      * rewrite lookup_insert_eq. intros [= <-]. by rewrite lookup_insert_eq.
      * rewrite lookup_insert_ne by done. intros E.
        pose proof (Hp _ _ E) as E'. pose proof (Ht _ _ E').
        rewrite lookup_insert_ne by lia. done.
    + intros p k. destruct (decide (Pending.promises s = p)) as [<-|Hne].
      * intros _. lia.
      * rewrite lookup_insert_ne by done. intros E.
        pose proof (Ht _ _ E). lia.
    + intros p Hin. destruct (Hs p Hin) as [E Hlt].
      split; [|lia]. rewrite lookup_insert_ne by lia. done.
    + done.
  - unfold Pending.rpc_response.
    destruct (Pending.key_of_id _) as [k|]; [|done].
    destruct (Pending.pendingRequests s !! k) as [p|] eqn:E; [|done].
    pose proof (Hp _ _ E) as Hk.
    pose proof (pending_after_delete s k p Hc Hk) as Hrest.
    destruct (truthy (Pending.error msg));
      [by apply (coherent_settle s p k)|].
    destruct (truthy (Pending.latencyMs msg));
      [|by apply (coherent_settle s p k)].
    destruct (Pending.set_nodeLatencyMs _ _ _);
      [by apply (coherent_settle s p k)|by apply coherent_clear].
  - unfold Pending.timeout.
    destruct (Pending.timers s !! p) as [k|] eqn:E; [|done].
    apply (coherent_settle s p k); [done|done|].
    by apply pending_after_delete.
Qed.

Lemma run_coherent es s : Pending.coherent s -> Pending.coherent (run es s).
Proof.
  revert s. induction es as [|e es IH]; intros s Hc; [done|].
  cbn. apply IH. by apply step_coherent.
Qed.

(** Whatever frames arrive and whatever timers fire, [resolve] or
    [reject] is called at most once for a call of [sendToNode], and never
    while the call's timer is still set: a response that comes after the
    timeout, a second response and a response with an id that is not
    pending settle nothing. *)
Theorem settled_at_most_once es :
  NoDup (Pending.settled_promises (run es Pending.empty))
  /\ forall p, In p (Pending.settled_promises (run es Pending.empty)) ->
               Pending.timers (run es Pending.empty) !! p = None.
Proof.
  destruct (run_coherent es Pending.empty coherent_empty)
    as (_ & _ & Hs & Hnd).
  split; [done|]. intros p Hin. by destruct (Hs p Hin).
Qed.

Lemma step_lost e s p :
  Pending.coherent s -> Pending.lost p s -> Pending.lost p (step e s).
Proof.
  intros (Hp & Ht & Hs & Hnd) (Hlt & Hno & Hun).
  assert (forall q k x pending',
            Pending.timers s !! q = Some k ->
            Pending.lost p (Pending.mk pending' (delete q (Pending.timers s))
                      (Pending.promises s) (Pending.settled s ++ [(q, x)])
                      (Pending.frames s))) as Hsettle.
  { intros q k x pending' Hq. split; [done|]. cbn. split.
    - destruct (decide (q = p)) as [->|Hne];
        [by rewrite lookup_delete_eq|by rewrite lookup_delete_ne].
    - unfold Pending.settled_promises. cbn. rewrite fmap_app. cbn.
      intros Hin. apply in_app_or in Hin as [Hin|[->|[]]]; [done|].
      congruence. }
  destruct e as [requestId payload|msg|q]; cbn [Pending.step].
  - unfold Pending.sendToNode. split; cbn; [lia|]. split; [|done].
    rewrite lookup_insert_ne by lia. done.
  - unfold Pending.rpc_response.
    destruct (Pending.key_of_id _) as [k|]; [|done].
    destruct (Pending.pendingRequests s !! k) as [q|] eqn:E; [|done].
    pose proof (Hp _ _ E) as Hk.
    destruct (truthy (Pending.error msg)); [by eapply Hsettle|].
    destruct (truthy (Pending.latencyMs msg)); [|by eapply Hsettle].
    destruct (Pending.set_nodeLatencyMs _ _ _); [by eapply Hsettle|].
    split; [done|]. cbn. split; [|done].
    destruct (decide (q = p)) as [->|Hne];
      [by rewrite lookup_delete_eq|by rewrite lookup_delete_ne].
  - unfold Pending.timeout.
    destruct (Pending.timers s !! q) as [k|] eqn:E; [|done].
    by eapply Hsettle.
Qed.

Lemma run_lost es s p :
  Pending.coherent s -> Pending.lost p s -> Pending.lost p (run es s).
Proof.
  revert s. induction es as [|e es IH]; intros s Hc Hl; [done|].
  cbn. apply IH; [by apply step_coherent|by apply step_lost].
Qed.

(** A response without an error whose [latencyMs] is not zero and
    whose [result] is [null] or missing takes the call out of
    [pendingRequests] and clears its timer, and then fails on the
    assignment to [result._nodeLatencyMs] before it settles the call: the
    call is never resolved and never rejected, whatever happens later. *)
Theorem null_result_never_settles es0 msg k p es :
  Pending.key_of_id (Pending.id msg) = Some k ->
  Pending.pendingRequests (run es0 Pending.empty) !! k = Some p ->
  truthy (Pending.error msg) = false ->
  truthy (Pending.latencyMs msg) = true ->
  Pending.result msg = None \/ Pending.result msg = Some JNull ->
  Pending.pendingRequests
    (Pending.rpc_response strict msg (run es0 Pending.empty)) !! k = None
  /\ Pending.timers
       (Pending.rpc_response strict msg (run es0 Pending.empty)) !! p = None
  /\ ~ In p (Pending.settled_promises
               (run es (Pending.rpc_response strict msg
                          (run es0 Pending.empty)))).
Proof.
  intros Hid Hk Herr Hlat Hres.
  set (s := Pending.rpc_response strict msg (run es0 Pending.empty)).
  pose proof (run_coherent es0 Pending.empty coherent_empty) as Hc.
  pose proof Hc as (Hp & Ht & Hs & Hnd).
  pose proof (Hp _ _ Hk) as Htimer.
  assert (s = Pending.mk
                (delete k (Pending.pendingRequests (run es0 Pending.empty)))
                (delete p (Pending.timers (run es0 Pending.empty)))
                (Pending.promises (run es0 Pending.empty))
                (Pending.settled (run es0 Pending.empty))
                (Pending.frames (run es0 Pending.empty))) as Hs'.
  { subst s. unfold Pending.rpc_response. rewrite Hid, Hk, Herr, Hlat.
    by destruct Hres as [-> | ->]. }
  rewrite Hs'. cbn. rewrite !lookup_delete_eq. split; [done|]. split; [done|].
  rewrite <- Hs'.
  assert (Pending.lost p s) as Hl.
  { rewrite Hs'. split; cbn; [by eapply Ht|]. split;
      [by rewrite lookup_delete_eq|].
    intros Hin. destruct (Hs p Hin). congruence. }
  apply (run_lost es s p); [|done].
  subst s. by apply (step_coherent (Pending.Response msg)).
Qed.

End PendingFacts.

(** * The node list and the latency window *)

Section ListingFacts.

Lemma walletMap_set_In k n m k' n' :
  In (k', n') (Listing.walletMap_set k n m) ->
  (k' = k /\ n' = n) \/ In (k', n') m.
Proof.
  induction m as [|[k0 n0] m IH]; cbn.
  - intros [[= <- <-]|[]]. by left.
  - destruct (String.eqb_spec k k0) as [->|Hne]; cbn.
    + intros [[= <- <-]|H]; [by left|by right; right].
    + intros [H|H]; [by right; left|].
      destruct (IH H) as [?|?]; [by left|by right; right].
Qed.

Lemma walletMap_set_keys k n m :
  fst <$> Listing.walletMap_set k n m
  = match Listing.walletMap_get k m with
    | Some _ => fst <$> m
    | None => ((fst <$> m) ++ [k])%list
    end.
Proof.
  induction m as [|[k0 n0] m IH]; cbn; [done|].
  destruct (String.eqb_spec k k0) as [->|Hne]; cbn; [done|].
  rewrite IH. by destruct (Listing.walletMap_get k m).
Qed.

Lemma walletMap_get_None k m :
  Listing.walletMap_get k m = None -> ~ In k (fst <$> m).
Proof.
  induction m as [|[k0 n0] m IH]; cbn; [by intros _ []|].
  destruct (String.eqb_spec k k0) as [->|Hne]; [done|].
  intros E [?|Hin]; [congruence|]. by apply IH.
Qed.

Lemma walletMap_get_In k m n :
  Listing.walletMap_get k m = Some n -> In (k, n) m.
Proof.
  induction m as [|[k0 n0] m IH]; cbn; [done|].
  destruct (String.eqb_spec k k0) as [->|Hne].
  - intros [= ->]. by left.
  - intros E. right. by apply IH.
Qed.

Lemma walletMap_get_set k n m k' :
  Listing.walletMap_get k' (Listing.walletMap_set k n m)
  = if String.eqb k' k then Some n else Listing.walletMap_get k' m.
Proof.
  induction m as [|[k0 n0] m IH]; cbn.
  - by destruct (String.eqb_spec k' k).
  - destruct (String.eqb_spec k k0) as [->|Hne]; cbn.
    + by destruct (String.eqb_spec k' k0).
    + rewrite IH. destruct (String.eqb_spec k' k0) as [->|Hne'];
        [|done].
      by destruct (String.eqb_spec k0 k).
Qed.

Lemma keep_best_inv seen m x :
  Listing.walletMap_inv seen m ->
  Listing.walletMap_inv (seen ++ [x]) (Listing.keep_best m x).
Proof.
  intros (Hnd & Hin & Hall).
  assert (Listing.walletMap_inv (seen ++ [x])
            (Listing.walletMap_set (Listing.wallet_key x) x m)) as Hset.
  { split; [|split].
    - rewrite walletMap_set_keys.
      destruct (Listing.walletMap_get _ m) eqn:E; [done|].
      apply NoDup_app. split; [done|]. split; [|apply NoDup_singleton].
      intros k Hk Hk'. apply list_elem_of_singleton in Hk' as ->.
      apply list_elem_of_In in Hk. by apply walletMap_get_None in E.
    - intros k n H. apply walletMap_set_In in H as [[-> ->]|H].
      + split; [done|]. apply in_or_app. right. by left.
      + destruct (Hin k n H). split; [done|]. apply in_or_app. by left.
    - intros n H. rewrite walletMap_get_set.
      destruct (String.eqb_spec (Listing.wallet_key n) (Listing.wallet_key x))
        as [_|Hne]; [by eexists|].
      apply in_app_or in H as [H|[<-|[]]]; [by apply Hall|done]. }
  unfold Listing.keep_best.
  destruct (Listing.walletMap_get _ m) as [existing|] eqn:E; [|done].
  destruct (_ || _); [done|].
  split; [done|]. split.
  - intros k n H. destruct (Hin k n H). split; [done|].
    apply in_or_app. by left.
  - intros n H. apply in_app_or in H as [H|[<-|[]]]; [by apply Hall|].
    by eexists.
Qed.

Lemma aggregate_inv seen m rest :
  Listing.walletMap_inv seen m ->
  Listing.walletMap_inv (seen ++ rest) (fold_left Listing.keep_best rest m).
Proof.
  revert seen m. induction rest as [|x rest IH]; intros seen m Hinv.
  - cbn. by rewrite app_nil_r.
  - cbn [fold_left].
    replace (seen ++ x :: rest)%list with ((seen ++ [x]) ++ rest)%list
      by (by rewrite <- app_assoc).
    by apply IH, keep_best_inv.
Qed.

(** The node list shows one entry for each wallet that has a node
    in [allNodes]: no two entries have the same operator, every node of
    [allNodes] finds an entry of a node with its wallet, and every entry
    is the entry of a node of [allNodes]. *)
Theorem nodes_one_entry_per_wallet all now h :
  NoDup (Listing.operator <$> Listing.nodes all now h)
  /\ (forall n, In n (Listing.allNodes all h) ->
        exists n', In n' (Listing.allNodes all h)
                   /\ Listing.wallet_key n' = Listing.wallet_key n
                   /\ In (Listing.entry now (walletStats h) n')
                         (Listing.nodes all now h))
  /\ (forall e, In e (Listing.nodes all now h) ->
        exists n, In n (Listing.allNodes all h)
                  /\ e = Listing.entry now (walletStats h) n).
Proof.
  unfold Listing.nodes, Listing.aggregate.
  destruct (aggregate_inv [] [] (Listing.allNodes all h))
    as (Hnd & Hin & Hall).
  { split; [constructor|]. split; [by intros k n []|by intros n []]. }
  cbn [app] in Hin, Hall.
  set (m := fold_left Listing.keep_best (Listing.allNodes all h) []) in *.
  split; [|split].
  - apply (NoDup_fmap_1 (fun o => if String.eqb o "" then "unknown" else o)).
    assert ((fun o => if String.eqb o "" then "unknown" else o)
              <$> (Listing.operator
                     <$> (Listing.entry now (walletStats h) <$> (snd <$> m)))
            = fst <$> m) as ->; [|done].
    clear Hnd Hall. induction m as [|[k n] m IH]; [done|].
    cbn [fmap list_fmap]. f_equal.
    + destruct (Hin k n (or_introl eq_refl)) as [-> _]. done.
    + apply IH. intros k' n' H. apply Hin. by right.
  - intros n Hn. destruct (Hall n Hn) as [n' E].
    apply walletMap_get_In in E. destruct (Hin _ _ E) as [Hk Hn'].
    exists n'. split; [done|]. split; [done|].
    exact (in_map (Listing.entry now (walletStats h)) _ _
             (in_map snd _ _ E)).
  - intros e He. apply in_map_iff in He as (n & <- & Hn).
    apply in_map_iff in Hn as ([k n'] & <- & Hn).
    exists n'. by destruct (Hin _ _ Hn).
Qed.

End ListingFacts.

(** * Sliding windows *)

Section Windows.

(** An array that is pushed to and shifted once when it is longer than
    [cap] holds the last [cap] values pushed. *)
Lemma window_fold {A} (cap : nat) (f : list A -> A -> list A) :
  (forall l x, f l x = if (cap <? length (l ++ [x]))%nat
                       then tail (l ++ [x])%list else (l ++ [x])%list) ->
  forall ls w, (length w <= cap)%nat ->
    fold_left f ls w
    = drop (length (w ++ ls) - cap) (w ++ ls)%list.
Proof.
  intros Hf ls. induction ls as [|x ls IH]; intros w Hw.
  - cbn. rewrite app_nil_r.
    replace (length w - cap)%nat with 0%nat by lia. done.
  - cbn [fold_left]. rewrite Hf.
    destruct (Nat.ltb_spec cap (length (w ++ [x]))) as [Hover|Hfit].
    + rewrite length_app in Hover. cbn in Hover.
      assert (length w = cap) as Hlen by lia.
      destruct (w ++ [x])%list as [|a w'] eqn:E;
        [by destruct w|].
      assert (length w' = cap) as Hw'.
      { apply (f_equal length) in E. rewrite length_app in E.
        cbn in E. lia. }
      cbn [tail]. rewrite IH by lia.
      replace (w ++ x :: ls)%list with (a :: (w' ++ ls))%list
        by (rewrite app_comm_cons, <- E, <- app_assoc; done).
      rewrite !length_app. cbn [length]. rewrite length_app.
      replace (S (length w' + length ls) - cap)%nat
        with (S (length w' + length ls - cap)) by lia.
      done.
    + rewrite IH by done. by rewrite <- app_assoc.
Qed.

Lemma mean_between (w : list Z) lo hi :
  w <> [] -> List.Forall (fun x => lo <= x <= hi) w ->
  lo <= Health.effectiveLatencyMs w <= hi.
Proof.
  intros Hne Hall. unfold Health.effectiveLatencyMs.
  assert (0 < length w)%nat as Hpos by (destruct w; [done|cbn; lia]).
  destruct (Nat.ltb_spec 0 (length w)) as [_|]; [|lia].
  assert (Z.of_nat (length w) * lo <= fold_right Z.add 0 w
          <= Z.of_nat (length w) * hi) as Hsum.
  { clear Hne Hpos. induction Hall as [|x w Hx Hall IH]; [cbn; lia|].
    cbn [fold_right length]. lia. }
  set (n := Z.of_nat (length w)) in *.
  assert (0 < n) by lia.
  split.
  - apply Z.div_le_lower_bound; nia.
  - apply Z.lt_succ_r, Z.div_lt_upper_bound; nia.
Qed.

(** [recentLatencies] holds the latencies of the last hundred
    answered calls, oldest first, and never more than a hundred; the
    latency the health endpoint reports lies between the smallest and the
    largest of them. *)
Theorem latency_window ls :
  Health.recentLatencies ls = drop (length ls - 100) ls
  /\ (length (Health.recentLatencies ls) <= 100)%nat
  /\ forall lo hi,
       ls <> [] -> List.Forall (fun x => lo <= x <= hi) ls ->
       lo <= Health.effectiveLatencyMs (Health.recentLatencies ls) <= hi.
Proof.
  assert (Health.recentLatencies ls = drop (length ls - 100) ls) as Hw.
  { unfold Health.recentLatencies.
    rewrite (window_fold 100 Health.push_latency); [done|done|cbn; lia]. }
  rewrite Hw. split; [done|]. split.
  - rewrite length_drop. lia.
  - intros lo hi Hne Hall. apply mean_between.
    + intros E. apply (f_equal length) in E. rewrite length_drop in E.
      destruct ls; [done|]. cbn in E. lia.
    + apply List.Forall_forall. intros x Hx.
      rewrite List.Forall_forall in Hall. apply Hall.
      by apply In_drop in Hx.
Qed.

End Windows.

(** * The agent's link to the relays *)

Section LinkFacts.
Local Abbreviation run := AgentLink.run.
Local Open Scope nat_scope.

(** One session that ends without the next socket opening first: the
    close event and the reconnect it scheduled. *)
Lemma one_failure l :
  AgentLink.reconnectAttempts l < 3 ->
  let switch := AgentLink.reconnectAttempts l =? 2 in
  let index :=
    if switch
    then (AgentLink.currentRelayIndex l + 1)
         mod length (AgentLink.RELAY_URLS l)
    else AgentLink.currentRelayIndex l in
  AgentLink.connect false (AgentLink.onClose l)
  = AgentLink.mkLink (AgentLink.RELAY_URLS l) index
      (if switch then 0 else S (AgentLink.reconnectAttempts l))
      false (AgentLink.lastPing l) (AgentLink.sessions l)
      (AgentLink.totalUptime l) (AgentLink.sessionStart l)
      (AgentLink.dialled l ++ [AgentLink.RELAY_URLS l !! index])
      (AgentLink.scheduled l
       ++ [AgentLink.backoff (S (AgentLink.reconnectAttempts l))]).
Proof.
  intros Ha. unfold AgentLink.connect, AgentLink.onClose.
  cbn [AgentLink.reconnectAttempts AgentLink.currentRelayIndex
       AgentLink.RELAY_URLS AgentLink.connected AgentLink.lastPing
       AgentLink.sessions AgentLink.totalUptime AgentLink.sessionStart
       AgentLink.dialled AgentLink.scheduled].
  unfold AgentLink.MAX_FAILS_BEFORE_SWITCH.
  destruct (AgentLink.reconnectAttempts l) as [|[|[|a]]]; [done..|lia].
Qed.

Lemma backoff_small a :
  a < 3 -> AgentLink.backoff (S a) = (2000 * 2 ^ Z.of_nat (a mod 3))%Z.
Proof.
  intros Ha. destruct a as [|[|[|a]]]; [vm_compute; reflexivity..|lia].
Qed.

Lemma delays_values a k :
  List.Forall (fun d => d = 2000 \/ d = 4000 \/ d = 8000)%Z
    (map (fun j => (2000 * 2 ^ Z.of_nat ((a + j) mod 3))%Z) (seq 0 k)).
Proof.
  apply List.Forall_forall. intros d Hd.
  apply in_map_iff in Hd as (j & <- & _).
  pose proof (Nat.mod_upper_bound (a + j) 3 ltac:(lia)) as Hlt.
  destruct ((a + j) mod 3) as [|[|[|r]]]; [auto..|lia].
Qed.

(** A relay is given up after three sessions in a row that ended
    without the next socket opening: after [k] such failures the agent
    has moved on by floor ((a + k) / 3) relays, wrapping around the list,
    where [a] is the failure count it started with; the count is back to
    (a + k) mod 3; the reconnect after failure number [j], counted from
    zero, was scheduled 2000 * 2 ^ ((a + j) mod 3) milliseconds after the
    close, which is 2000, 4000 or 8000; and every socket was opened to a
    relay of the list. *)
Theorem relay_switch_after_three_failures k l :
  AgentLink.currentRelayIndex l < length (AgentLink.RELAY_URLS l) ->
  AgentLink.reconnectAttempts l < AgentLink.MAX_FAILS_BEFORE_SWITCH ->
  AgentLink.RELAY_URLS (run (AgentLink.failures k) l) = AgentLink.RELAY_URLS l
  /\ AgentLink.currentRelayIndex (run (AgentLink.failures k) l)
     = (AgentLink.currentRelayIndex l
        + (AgentLink.reconnectAttempts l + k) / 3)
       mod length (AgentLink.RELAY_URLS l)
  /\ AgentLink.reconnectAttempts (run (AgentLink.failures k) l)
     = (AgentLink.reconnectAttempts l + k) mod 3
  /\ (exists delays,
        AgentLink.scheduled (run (AgentLink.failures k) l)
        = (AgentLink.scheduled l ++ delays)%list
        /\ length delays = k
        /\ delays
           = map (fun j =>
                    (2000 * 2 ^ Z.of_nat
                                ((AgentLink.reconnectAttempts l + j) mod 3))%Z)
               (seq 0 k)
        /\ List.Forall (fun d => d = 2000 \/ d = 4000 \/ d = 8000)%Z delays)
  /\ (exists dials,
        AgentLink.dialled (run (AgentLink.failures k) l)
        = (AgentLink.dialled l ++ dials)%list
        /\ length dials = k
        /\ List.Forall (fun d => exists url,
                          d = Some url /\ In url (AgentLink.RELAY_URLS l))
             dials).
Proof.
  unfold AgentLink.MAX_FAILS_BEFORE_SWITCH.
  revert l. induction k as [|k IH]; intros l Hidx Ha.
  - change (run (AgentLink.failures 0) l) with l.
    rewrite !Nat.add_0_r, Nat.div_small, Nat.add_0_r by done.
    rewrite !Nat.mod_small by done.
    split; [done|]. split; [done|]. split; [done|].
    split; exists []; rewrite app_nil_r; repeat split; constructor.
  - change (run (AgentLink.failures (S k)) l)
      with (run (AgentLink.failures k)
              (AgentLink.connect false (AgentLink.onClose l))).
    pose proof (one_failure l Ha) as Hone. cbv zeta in Hone.
    set (n := length (AgentLink.RELAY_URLS l)) in *.
    set (a := AgentLink.reconnectAttempts l) in *.
    set (i := AgentLink.currentRelayIndex l) in *.
    set (l1 := AgentLink.connect false (AgentLink.onClose l)) in *.
    set (i1 := if a =? 2 then (i + 1) mod n else i) in *.
    assert (i1 < n) as Hi1.
    { subst i1. destruct (a =? 2); [apply Nat.mod_upper_bound; lia|done]. }
    assert (AgentLink.RELAY_URLS l1 = AgentLink.RELAY_URLS l) as Hurls
      by (by rewrite Hone).
    assert (AgentLink.currentRelayIndex l1 = i1) as Hl1i by (by rewrite Hone).
    assert (AgentLink.reconnectAttempts l1 = if a =? 2 then 0 else S a)
      as Hl1a by (by rewrite Hone).
    destruct (IH l1) as (IH1 & IH2 & IH3 & (delays & IH4 & IH5 & IH6 & _)
                         & (dials & IH7 & IH8 & IH9)).
    { rewrite Hurls, Hl1i. exact Hi1. }
    { rewrite Hl1a. destruct (Nat.eqb_spec a 2); lia. }
    rewrite Hurls in *. rewrite Hl1i in IH2. rewrite Hl1a in IH2, IH3.
    fold n in IH2.
    split; [done|]. split; [|split; [|split]].
    + rewrite IH2. subst i1. destruct (Nat.eqb_spec a 2) as [Ha2|Ha2].
      * rewrite Ha2. rewrite Nat.Div0.add_mod_idemp_l.
        replace (2 + S k) with (k + 1 * 3) by lia.
        rewrite Nat.div_add by done. cbn [Nat.add]. f_equal. lia.
      * by replace (S a + k) with (a + S k) by lia.
    + rewrite IH3. destruct (Nat.eqb_spec a 2) as [Ha2|Ha2].
      * rewrite Ha2. replace (2 + S k) with (k + 1 * 3) by lia.
        by rewrite Nat.Div0.mod_add.
      * by replace (S a + k) with (a + S k) by lia.
    + assert (AgentLink.backoff (S a) :: delays
              = map (fun j => (2000 * 2 ^ Z.of_nat ((a + j) mod 3))%Z)
                  (seq 0 (S k))) as Hdelays.
      { cbn [seq map]. rewrite Nat.add_0_r, <- backoff_small by done.
        f_equal. rewrite IH6, Hl1a, <- seq_shift, map_map.
        apply List.map_ext. intros j. do 3 f_equal.
        destruct (Nat.eqb_spec a 2) as [Ha2|Ha2].
        - rewrite Ha2. replace (2 + S j) with (j + 1 * 3) by lia.
          by rewrite Nat.Div0.mod_add.
        - f_equal. lia. }
      exists (AgentLink.backoff (S a) :: delays). split; [|split; [|split]].
      * rewrite IH4, Hone. cbn [AgentLink.scheduled].
        by rewrite <- app_assoc.
      * cbn. by rewrite IH5.
      * exact Hdelays.
      * rewrite Hdelays. apply delays_values.
    + exists (AgentLink.RELAY_URLS l !! i1 :: dials). split; [|split].
      * rewrite IH7, Hone. cbn [AgentLink.dialled].
        by rewrite <- app_assoc.
      * cbn. by rewrite IH8.
      * constructor; [|done].
        destruct (lookup_lt_is_Some_2 (AgentLink.RELAY_URLS l) i1 Hi1)
          as [url Hurl].
        exists url. split; [done|].
        apply list_elem_of_In. by eapply list_elem_of_lookup_2.
Qed.

(** A relay that accepts the socket is never given up: when every
    session opens before it ends, however soon it ends, the failure count
    starts from zero each time, the agent stays on the relay it is on and
    retries it after two seconds every time. *)
Theorem accepting_relay_is_never_left nows l :
  AgentLink.currentRelayIndex (run (AgentLink.short_sessions nows) l)
  = AgentLink.currentRelayIndex l
  /\ AgentLink.scheduled (run (AgentLink.short_sessions nows) l)
     = (AgentLink.scheduled l ++ repeat 2000%Z (length nows))%list
  /\ AgentLink.dialled (run (AgentLink.short_sessions nows) l)
     = (AgentLink.dialled l
        ++ repeat (AgentLink.RELAY_URLS l !! AgentLink.currentRelayIndex l)
             (length nows))%list.
Proof.
  revert l. induction nows as [|now nows IH]; intros l.
  - cbn. by rewrite !app_nil_r.
  - change (run (AgentLink.short_sessions (now :: nows)) l)
      with (run (AgentLink.short_sessions nows)
              (AgentLink.connect false
                 (AgentLink.onClose (AgentLink.onOpen now l)))).
    destruct (IH (AgentLink.connect false
                    (AgentLink.onClose (AgentLink.onOpen now l))))
      as (IH1 & IH2 & IH3).
    rewrite IH1, IH2, IH3. cbn. by rewrite <- !app_assoc.
Qed.

Lemma reorder_cases p :
  AgentLink.reorder p
  = [AgentLink.US_url; AgentLink.EU_url; AgentLink.PL_url]
  \/ AgentLink.reorder p
     = [AgentLink.PL_url; AgentLink.EU_url; AgentLink.US_url]
  \/ AgentLink.reorder p
     = [AgentLink.EU_url; AgentLink.PL_url; AgentLink.US_url].
Proof. unfold AgentLink.reorder. repeat case_match; auto. Qed.

Lemma dialled_grows es l :
  exists more,
    AgentLink.dialled (run es l) = (AgentLink.dialled l ++ more)%list.
Proof.
  revert l. induction es as [|e es IH]; intros l.
  - exists []. cbn. by rewrite app_nil_r.
  - assert (exists more, AgentLink.dialled (AgentLink.step e l)
                         = (AgentLink.dialled l ++ more)%list) as [m1 H1].
    { destruct e as [throws|now|now m| |now throws]; cbn [AgentLink.step].
      - by eexists [_].
      - exists []. cbn. by rewrite app_nil_r.
      - exists []. destruct m; cbn; by rewrite app_nil_r.
      - exists []. cbn. by rewrite app_nil_r.
      - unfold AgentLink.healthCheck. cbn [AgentLink.saveData AgentLink.dialled].
        destruct (_ && _); [by eexists [_]|].
        destruct (_ && _); [by eexists [_]|].
        exists []. by rewrite app_nil_r. }
    destruct (IH (AgentLink.step e l)) as [m2 H2].
    exists (m1 ++ m2)%list. cbn [AgentLink.run fold_left].
    unfold AgentLink.run in H2. by rewrite H2, H1, <- app_assoc.
Qed.

Lemma failures_add j k :
  AgentLink.failures (j + k)
  = (AgentLink.failures j ++ AgentLink.failures k)%list.
Proof. unfold AgentLink.failures. by rewrite repeat_app, concat_app. Qed.

Lemma forced_reconnect_run at_check l :
  AgentLink.connected
    (run (AgentLink.Connect false :: AgentLink.failures 3) l) = false ->
  (120000 < at_check
            - AgentLink.lastPing
                (run (AgentLink.Connect false :: AgentLink.failures 3) l))%Z ->
  run (AgentLink.forced_reconnect at_check) l
  = run (AgentLink.failures 2)
      (AgentLink.saveData at_check
         (AgentLink.connect false
            (run (AgentLink.Connect false :: AgentLink.failures 3) l))).
Proof.
  intros Hc Hlate. unfold AgentLink.forced_reconnect.
  rewrite app_comm_cons. unfold run, AgentLink.run in *.
  rewrite !fold_left_app. cbn [fold_left AgentLink.step] in *.
  f_equal. unfold AgentLink.healthCheck. rewrite Hc. cbn [andb negb].
  by destruct (Z.ltb_spec 120000
                 (at_check
                  - AgentLink.lastPing
                      (fold_left (fun l e => AgentLink.step e l)
                         (AgentLink.failures 3)
                         (AgentLink.connect false l)))); [|lia].
Qed.

(** Whatever the geolocation answers, and when it fails, the
    failover list is a permutation of the three relays.  An agent whose
    sockets close one after another without one opening, each close
    followed by the reconnect it scheduled and by nothing else, has tried
    all three relays once six sockets have closed, with its seventh
    attempt, and has not tried the last relay of its list before that.
    A reconnect that the health check forces in between is an attempt
    that does not count as a failure: with one of them the first seven
    attempts go to the first two relays of the list only. *)
Theorem every_relay_is_tried geo now sessions totalUptime k at_check :
  let start := AgentLink.initial now sessions totalUptime geo in
  let dials es := AgentLink.dialled (run es start) in
  Permutation (AgentLink.detectRegion geo)
    [AgentLink.EU_url; AgentLink.US_url; AgentLink.PL_url]
  /\ (6 <= k ->
      List.Forall
        (fun url =>
           In (Some url)
              (dials (AgentLink.Connect false :: AgentLink.failures k)))
        [AgentLink.EU_url; AgentLink.US_url; AgentLink.PL_url])
  /\ length (dials (AgentLink.Connect false :: AgentLink.failures 6)) = 7
  /\ (k < 6 ->
      ~ In (AgentLink.RELAY_URLS start !! 2)
          (dials (AgentLink.Connect false :: AgentLink.failures k)))
  /\ ((120000 < at_check - now)%Z ->
      length (dials (AgentLink.forced_reconnect at_check)) = 7
      /\ ~ In (AgentLink.RELAY_URLS start !! 2)
            (dials (AgentLink.forced_reconnect at_check))).
Proof.
  intros start dials. subst dials start. unfold AgentLink.initial.
  assert (AgentLink.detectRegion geo
          = [AgentLink.US_url; AgentLink.EU_url; AgentLink.PL_url]
          \/ AgentLink.detectRegion geo
             = [AgentLink.PL_url; AgentLink.EU_url; AgentLink.US_url]
          \/ AgentLink.detectRegion geo
             = [AgentLink.EU_url; AgentLink.PL_url; AgentLink.US_url]
          \/ AgentLink.detectRegion geo
             = [AgentLink.EU_url; AgentLink.US_url; AgentLink.PL_url])
    as Hcases.
  { destruct geo as [[country continent]|]; cbn; [|by auto].
    destruct (reorder_cases (AgentLink.preferredRelay country continent))
      as [->| [->| ->]]; auto. }
  assert (forall urls,
            In urls [[AgentLink.US_url; AgentLink.EU_url; AgentLink.PL_url];
                     [AgentLink.PL_url; AgentLink.EU_url; AgentLink.US_url];
                     [AgentLink.EU_url; AgentLink.PL_url; AgentLink.US_url];
                     [AgentLink.EU_url; AgentLink.US_url; AgentLink.PL_url]] ->
            List.Forall
              (fun url =>
                 In (Some url)
                    (AgentLink.dialled
                       (run (AgentLink.Connect false :: AgentLink.failures 6)
                          (AgentLink.mkLink urls 0 0 false now sessions
                             totalUptime now [] []))))
              [AgentLink.EU_url; AgentLink.US_url; AgentLink.PL_url])
    as Htried.
  { intros urls [<-|[<-|[<-|[<-|[]]]]];
      repeat apply List.Forall_cons; try apply List.Forall_nil;
      vm_compute; tauto. }
  split; [|split; [|split; [|split]]].
  - destruct Hcases as [->| [->| [->| ->]]].
    + apply perm_swap.
    + etransitivity; [apply perm_swap|apply perm_skip, perm_swap].
    + apply perm_skip, perm_swap.
    + reflexivity.
  - intros Hk. replace k with (6 + (k - 6)) by lia.
    rewrite failures_add, app_comm_cons. unfold run, AgentLink.run.
    rewrite fold_left_app.
    destruct (dialled_grows (AgentLink.failures (k - 6))
                (AgentLink.run
                   (AgentLink.Connect false :: AgentLink.failures 6)
                   (AgentLink.mkLink (AgentLink.detectRegion geo) 0 0 false
                      now sessions totalUptime now [] [])))
      as [more Hmore].
    unfold run, AgentLink.run in Hmore. rewrite Hmore.
    eapply List.Forall_impl; [|apply Htried].
    + intros url Hin. apply in_or_app. left. exact Hin.
    + destruct Hcases as [->| [->| [->| ->]]]; cbn; tauto.
  - by destruct Hcases as [->| [->| [->| ->]]].
  - intros Hk.
    assert (In k [0; 1; 2; 3; 4; 5]) as Hin by (cbn; lia).
    destruct Hcases as [->| [->| [->| ->]]];
      destruct Hin as [<-|[<-|[<-|[<-|[<-|[<-|[]]]]]]];
      vm_compute; intros Hd;
      repeat (destruct Hd as [Hd|Hd]; [discriminate Hd|]); exact Hd.
  - intros Hlate.
    destruct Hcases as [->| [->| [->| ->]]];
      (rewrite forced_reconnect_run; [|reflexivity|exact Hlate];
       split; [reflexivity|];
       vm_compute; intros Hd;
       repeat (destruct Hd as [Hd|Hd]; [discriminate Hd|]); exact Hd).
Qed.

(** Each call of [saveData] adds the whole seconds since the call
    before it, so the uptime it has saved never runs ahead of the time
    that passed, and falls behind it by less than one second for each
    call. *)
Theorem saved_uptime_bounds nows l :
  let l' := fold_left (fun l now => AgentLink.saveData now l) nows l in
  let last := List.last nows (AgentLink.sessionStart l) in
  (AgentLink.sessionStart l' = last
   /\ AgentLink.totalUptime l
      + (last - AgentLink.sessionStart l) / 1000 - Z.of_nat (length nows)
      <= AgentLink.totalUptime l'
      <= AgentLink.totalUptime l
         + (last - AgentLink.sessionStart l) / 1000)%Z.
Proof.
  revert l. induction nows as [|now nows IH]; intros l; cbv zeta.
  - cbn [fold_left List.last length]. rewrite Z.sub_diag.
    change (0 / 1000)%Z with 0%Z. lia.
  - cbn [fold_left]. rewrite last_cons_default.
    specialize (IH (AgentLink.saveData now l)). cbv zeta in IH.
    cbn [AgentLink.saveData AgentLink.sessionStart AgentLink.totalUptime]
      in IH.
    destruct IH as (IH1 & IH2 & IH3). split; [done|].
    set (T := List.last nows now) in *.
    set (s := AgentLink.sessionStart l) in *.
    cbn [length]. rewrite Nat2Z.inj_succ.
    revert IH2 IH3. generalize (AgentLink.totalUptime
      (fold_left (fun l now => AgentLink.saveData now l) nows
         (AgentLink.saveData now l))).
    intros total' IH2 IH3.
    assert ((now - s) / 1000 + (T - now) / 1000 <= (T - s) / 1000
            <= (now - s) / 1000 + (T - now) / 1000 + 1)%Z as Hdiv.
    { clear. Z.div_mod_to_equations. lia. }
    lia.
Qed.

End LinkFacts.

(** * The agent's counters and cache order *)

Section SessionFacts.
Context (JSON_stringify : Json -> string) (table : list (string * Z)).
Local Abbreviation serve' := (AgentSession.serve JSON_stringify table).
Local Abbreviation handle :=
  (fun (c : AgentSession.Timed) cache =>
     handleRequest JSON_stringify table
       (at_lookup (AgentSession.call c)) (at_store (AgentSession.call c))
       (endpoint (AgentSession.call c)) (request (AgentSession.call c))
       cache).

(** A hit is not an error and calls nothing upstream; anything else calls
    upstream once; a deny-listed request is never a hit. *)
Lemma handled_shape t_lookup t_store fetchRPC msg cache :
  let r := handleRequest JSON_stringify table t_lookup t_store fetchRPC msg
             cache in
  (cached r = true -> AgentSession.failed r = false /\ upstreamCalls r = [])
  /\ (cached r = false -> upstreamCalls r = [payload msg])
  /\ (no_cache (method_of msg) = true -> cached r = false).
Proof.
  cbv zeta. unfold handleRequest, AgentSession.failed.
  destruct (no_cache (method_of msg)); cbn [negb].
  - destruct (fetchRPC _); cbn; repeat split; done.
  - destruct (cache_lookup _ _ _ _); [cbn; repeat split; done|].
    destruct (fetchRPC _); cbn; repeat split; done.
Qed.

Lemma log_push_length log e :
  (length log <= 50)%nat -> (length (AgentSession.log_push log e) <= 50)%nat.
Proof.
  intros Hlen. unfold AgentSession.log_push.
  destruct (Nat.ltb_spec 50 (length (log ++ [e]))) as [Hover|Hfit]; [|done].
  rewrite length_app in Hover. cbn in Hover.
  destruct log as [|x log]; cbn in *; [lia|].
  rewrite length_app. cbn. lia.
Qed.

Lemma serve_accounting calls cache s log :
  (length log <= 50)%nat ->
  let rs := fst (fst (serve' calls cache (s, log))) in
  let s' := fst (snd (serve' calls cache (s, log))) in
  let log' := snd (snd (serve' calls cache (s, log))) in
  length rs = length calls
  /\ AgentSession.requests s'
     = AgentSession.requests s + Z.of_nat (length calls)
  /\ AgentSession.hits s'
     = AgentSession.hits s + AgentSession.how_many cached rs
  /\ AgentSession.errors s'
     = AgentSession.errors s + AgentSession.how_many AgentSession.failed rs
  /\ AgentSession.upstream_calls rs
     = Z.of_nat (length calls) - AgentSession.how_many cached rs
  /\ AgentSession.how_many cached rs + AgentSession.how_many AgentSession.failed rs
     <= Z.of_nat (length calls)
  /\ AgentSession.bypassedCache s - AgentSession.bypassedCache s'
     <= 0
  /\ AgentSession.bypassedCache s'
     <= AgentSession.bypassedCache s
        + Z.of_nat (length calls) - AgentSession.how_many cached rs
  /\ AgentSession.peak s <= AgentSession.peak s'
  /\ AgentSession.latencySum s'
     <= AgentSession.latencySum s
        + Z.of_nat (length calls) * AgentSession.peak s'
  /\ (length log' <= 50)%nat.
Proof.
  revert cache s log. induction calls as [|c calls IH];
    intros cache s log Hlog; cbv zeta.
  - cbn. unfold AgentSession.how_many, AgentSession.upstream_calls. cbn.
    repeat split; lia.
  - cbn [AgentSession.serve].
    set (r := handleRequest _ _ _ _ _ _ cache).
    set (sl := AgentSession.count JSON_stringify table c cache r (s, log)).
    specialize (IH (cache_after r) (fst sl) (snd sl)).
    cbv zeta in IH. rewrite <- surjective_pairing in IH.
    destruct (serve' calls (cache_after r) sl) as [[rs cache'] [s' log']]
      eqn:E.
    cbn [fst snd] in IH |- *.
    destruct IH as (H0 & H1 & H2 & H3 & H4 & H5 & H6 & H7 & H8 & H9 & H10).
    { subst sl. cbn [snd AgentSession.count]. by apply log_push_length. }
    pose proof (handled_shape (at_lookup (AgentSession.call c))
                  (at_store (AgentSession.call c))
                  (endpoint (AgentSession.call c))
                  (request (AgentSession.call c)) cache) as Hshape.
    cbv zeta in Hshape. fold r in Hshape. destruct Hshape as (Hhit & Hmiss & Hdeny).
    subst sl. cbn [fst snd AgentSession.count AgentSession.requests
      AgentSession.hits AgentSession.errors AgentSession.latencySum
      AgentSession.peak AgentSession.bytes AgentSession.bypassedCache]
      in H1, H2, H3, H6, H7, H8, H9.
    unfold AgentSession.how_many, AgentSession.upstream_calls in *.
    cbn [List.filter length fmap list_fmap concat]. rewrite length_app.
    set (lat := AgentSession.at_end c - AgentSession.at_start c) in *.
    assert (AgentSession.peak s <= (if AgentSession.peak s <? lat then lat
                                    else AgentSession.peak s)
            /\ lat <= (if AgentSession.peak s <? lat then lat
                       else AgentSession.peak s)) as [Hp1 Hp2]
      by (destruct (Z.ltb_spec (AgentSession.peak s) lat); lia).
    destruct (cached r) eqn:Hc.
    + destruct (Hhit eq_refl) as [Hf Hup]. rewrite Hf in *. rewrite Hup.
      assert (no_cache (method_of (request (AgentSession.call c))) = false)
        as Hnc.
      { destruct (no_cache _) eqn:Hn; [|done].
        specialize (Hdeny eq_refl). congruence. }
      rewrite Hnc in *. cbn [negb] in *. cbn [length].
      repeat split; (lia || nia).
    + rewrite (Hmiss eq_refl). cbn [length].
      destruct (AgentSession.failed r); destruct (negb _); cbn [length];
        repeat split; (lia || nia).
Qed.

(** From the start of the process the agent's counters add up:
    [requests] is the number of requests handled; [hits] the number
    answered from the cache; [errors] the number whose upstream call
    failed; a request is never both; every request that was not a hit
    cost exactly one upstream call and a hit none; a request that
    bypassed the cache was never a hit; the latency sum is at most
    [requests] times the peak; and the log never holds more than fifty
    entries. *)
Theorem session_accounting calls cache :
  let rs := fst (fst (serve' calls cache (AgentSession.zero, []))) in
  let s := fst (snd (serve' calls cache (AgentSession.zero, []))) in
  let log := snd (snd (serve' calls cache (AgentSession.zero, []))) in
  AgentSession.requests s = Z.of_nat (length calls)
  /\ AgentSession.hits s = AgentSession.how_many cached rs
  /\ AgentSession.errors s = AgentSession.how_many AgentSession.failed rs
  /\ AgentSession.hits s + AgentSession.errors s <= AgentSession.requests s
  /\ AgentSession.upstream_calls rs
     = AgentSession.requests s - AgentSession.hits s
  /\ 0 <= AgentSession.bypassedCache s
     <= AgentSession.requests s - AgentSession.hits s
  /\ AgentSession.latencySum s
     <= AgentSession.requests s * AgentSession.peak s
  /\ (length log <= 50)%nat.
Proof.
  pose proof (serve_accounting calls cache AgentSession.zero []) as H.
  cbv zeta in *. cbn [AgentSession.zero AgentSession.requests AgentSession.hits
    AgentSession.errors AgentSession.latencySum AgentSession.peak
    AgentSession.bypassedCache length] in H.
  destruct H as (H0 & H1 & H2 & H3 & H4 & H5 & H6 & H7 & H8 & H9 & H10);
    [lia|].
  rewrite H1, H2, H3. repeat split; lia.
Qed.

End SessionFacts.

Section CacheOrder.

Lemma cache_set_same_keys key e e0 (c : Cache) :
  cache_get key c = Some e0 -> fst <$> cache_set key e c = fst <$> c.
Proof.
  induction c as [|[k e'] c IH]; cbn; [done|].
  destruct (String.eqb key k); [done|]. intros H. cbn. by rewrite IH.
Qed.

(** When a new entry makes the cache larger than 5000, the 500
    entries that were inserted first are the ones removed, and the new
    entry, which is the newest, stays; in a cache of exactly 5000 entries
    that leaves the 4500 newest and the new one, 4501 in all. *)
Theorem eviction_removes_the_oldest key e (c : Cache) :
  cache_bounded c -> key <> "" ->
  cache_store key e c
  = (if CACHE_MAX_SIZE <? Z.of_nat (length (cache_set key e c))
     then drop 500 (cache_set key e c)
     else cache_set key e c)
  /\ (cache_get key c = None -> Z.of_nat (length c) = CACHE_MAX_SIZE ->
      cache_store key e c = (drop 500 c ++ [(key, e)])%list
      /\ (c ++ [(key, e)] = take 500 c ++ cache_store key e c)%list
      /\ Z.of_nat (length (take 500 c)) = 500
      /\ Z.of_nat (length (cache_store key e c)) = 4501).
Proof.
  intros [Hlen Hkeys] Hkey.
  assert (cache_store key e c
          = (if CACHE_MAX_SIZE <? Z.of_nat (length (cache_set key e c))
             then drop 500 (cache_set key e c)
             else cache_set key e c)) as Hstore.
  { unfold cache_store. destruct (_ <? _); [|done].
    apply evict_oldest_drop. by apply cache_set_keys. }
  split; [done|]. intros Hnew Hfull.
  assert (cache_store key e c = (drop 500 c ++ [(key, e)])%list) as Heq.
  { rewrite Hstore.
    rewrite (cache_set_new _ _ _ Hnew), length_app. cbn [length].
    unfold CACHE_MAX_SIZE in *.
    destruct (Z.ltb_spec 5000 (Z.of_nat (length c + 1))); [|lia].
    rewrite drop_app_le by lia. done. }
  unfold CACHE_MAX_SIZE in *.
  split; [done|]. split; [|split].
  - by rewrite Heq, app_assoc, take_drop.
  - rewrite length_take. lia.
  - rewrite Heq, length_app, length_drop. cbn [length]. lia.
Qed.

(** Storing under a key that is in the cache replaces the entry
    where it stands: the order of the keys, by which entries are evicted,
    stays the order of their first insertion, and nothing is evicted. *)
Theorem overwrite_keeps_rank key e e0 (c : Cache) :
  cache_bounded c -> cache_get key c = Some e0 ->
  cache_store key e c = cache_set key e c
  /\ fst <$> cache_store key e c = fst <$> c
  /\ cache_get key (cache_store key e c) = Some e.
Proof.
  intros [Hlen Hkeys] Hold.
  pose proof (cache_set_same_keys key e e0 c Hold) as Hsame.
  assert (cache_store key e c = cache_set key e c) as ->.
  { unfold cache_store.
    assert (length (cache_set key e c) = length c) as ->
      by (by rewrite <- (length_fmap fst), Hsame, length_fmap).
    destruct (Z.ltb_spec CACHE_MAX_SIZE (Z.of_nat (length c))); [lia|done]. }
  split; [done|]. split; [done|]. apply cache_get_set.
Qed.

(** A request whose method has the name of a member of
    [Object.prototype] reads that member as its TTL, which no age is
    below: the request is never answered from the cache, whatever the
    cache holds, and always goes upstream. *)
Theorem prototype_method_never_hit
    JSON_stringify t_lookup t_store fetchRPC msg cache :
  In (method_of msg) object_prototype_keys ->
  let r := handleRequest JSON_stringify CACHE_TTL t_lookup t_store fetchRPC
             msg cache in
  ttl_of CACHE_TTL (method_of msg) = Inherited
  /\ cached r = false
  /\ upstreamCalls r = [payload msg].
Proof.
  intros Hin. cbv zeta.
  assert (ttl_of CACHE_TTL (method_of msg) = Inherited) as Httl.
  { cbn in Hin.
    repeat (destruct Hin as [<-|Hin]; [vm_compute; reflexivity|]).
    destruct Hin. }
  split; [done|]. unfold handleRequest. rewrite Httl.
  assert (forall key, cache_lookup Inherited t_lookup key cache = None)
    as Hmiss.
  { intros key. unfold cache_lookup. by destruct (cache_get key cache). }
  destruct (negb _); rewrite ?Hmiss; by destruct (fetchRPC _).
Qed.

End CacheOrder.

(** * Invariants of the agent *)

Section LinkInvariant.
Local Open Scope nat_scope.

Lemma connect_in_range throws l :
  0 < length (AgentLink.RELAY_URLS l) ->
  AgentLink.currentRelayIndex l < length (AgentLink.RELAY_URLS l) ->
  AgentLink.RELAY_URLS (AgentLink.connect throws l) = AgentLink.RELAY_URLS l
  /\ AgentLink.currentRelayIndex (AgentLink.connect throws l)
     < length (AgentLink.RELAY_URLS l)
  /\ exists url,
       AgentLink.dialled (AgentLink.connect throws l)
       = (AgentLink.dialled l ++ [Some url])%list
       /\ In url (AgentLink.RELAY_URLS l).
Proof.
  intros Hpos Hidx. unfold AgentLink.connect.
  cbn [AgentLink.RELAY_URLS AgentLink.currentRelayIndex AgentLink.dialled].
  set (i := if (_ <=? _) then _ else _).
  assert (i < length (AgentLink.RELAY_URLS l)) as Hi.
  { subst i. destruct (_ <=? _); [by apply Nat.mod_upper_bound; lia|done]. }
  split; [done|]. split; [done|].
  destruct (lookup_lt_is_Some_2 _ _ Hi) as [url Hurl]. exists url.
  rewrite Hurl. split; [done|].
  apply list_elem_of_In. by eapply list_elem_of_lookup_2.
Qed.

(** What every event keeps true of the link. *)
Lemma link_step e l urls :
  0 < length urls ->
  AgentLink.RELAY_URLS l = urls
  /\ AgentLink.currentRelayIndex l < length urls
  /\ List.Forall (fun d => exists url, d = Some url /\ In url urls)
       (AgentLink.dialled l) ->
  AgentLink.RELAY_URLS (AgentLink.step e l) = urls
  /\ AgentLink.currentRelayIndex (AgentLink.step e l) < length urls
  /\ List.Forall (fun d => exists url, d = Some url /\ In url urls)
       (AgentLink.dialled (AgentLink.step e l)).
Proof.
  intros Hpos (Hurls & Hidx & Hdial). subst urls.
  assert (forall throws l',
            AgentLink.RELAY_URLS l' = AgentLink.RELAY_URLS l ->
            AgentLink.currentRelayIndex l' < length (AgentLink.RELAY_URLS l) ->
            List.Forall (fun d => exists url,
                           d = Some url /\ In url (AgentLink.RELAY_URLS l))
              (AgentLink.dialled l') ->
            AgentLink.RELAY_URLS (AgentLink.connect throws l')
            = AgentLink.RELAY_URLS l
            /\ AgentLink.currentRelayIndex (AgentLink.connect throws l')
               < length (AgentLink.RELAY_URLS l)
            /\ List.Forall (fun d => exists url,
                              d = Some url /\ In url (AgentLink.RELAY_URLS l))
                 (AgentLink.dialled (AgentLink.connect throws l')))
    as Hconnect.
  { intros throws l' Hu Hi Hd.
    destruct (connect_in_range throws l') as (H1 & H2 & url & H3 & H4);
      [by rewrite Hu..|].
    rewrite Hu in *. split; [done|]. split; [done|].
    rewrite H3. apply Forall_app. split; [done|].
    constructor; [by exists url|constructor]. }
  destruct e as [throws|now|now m| |now throws]; cbn [AgentLink.step].
  - by apply Hconnect.
  - done.
  - by destruct m.
  - done.
  - unfold AgentLink.healthCheck.
    cbn [AgentLink.saveData AgentLink.RELAY_URLS AgentLink.currentRelayIndex
         AgentLink.dialled].
    destruct (_ && _); [by apply Hconnect|].
    destruct (_ && _); [by apply Hconnect|done].
Qed.

(** Whatever happens to the link, in whatever order, the relay
    index stays inside the list of three relays that the start-up
    ordered, and every socket the agent opens goes to one of the three
    relays. *)
Theorem agent_dials_only_relays es now sessions totalUptime geo :
  let l := AgentLink.run es
             (AgentLink.initial now sessions totalUptime geo) in
  AgentLink.RELAY_URLS l = AgentLink.detectRegion geo
  /\ AgentLink.currentRelayIndex l < 3
  /\ List.Forall
       (fun d => exists url,
          d = Some url
          /\ In url [AgentLink.EU_url; AgentLink.US_url; AgentLink.PL_url])
       (AgentLink.dialled l).
Proof.
  cbv zeta.
  assert (Permutation (AgentLink.detectRegion geo)
            [AgentLink.EU_url; AgentLink.US_url; AgentLink.PL_url]) as Hperm.
  { destruct geo as [[country continent]|]; cbn; [|reflexivity].
    destruct (reorder_cases (AgentLink.preferredRelay country continent))
      as [-> | [-> | ->]].
    - apply perm_swap.
    - etransitivity; [apply perm_swap|apply perm_skip, perm_swap].
    - apply perm_skip, perm_swap. }
  assert (length (AgentLink.detectRegion geo) = 3) as Hlen
    by (by rewrite (Permutation_length Hperm)).
  assert (AgentLink.RELAY_URLS
            (AgentLink.run es (AgentLink.initial now sessions totalUptime geo))
          = AgentLink.detectRegion geo
          /\ AgentLink.currentRelayIndex
               (AgentLink.run es
                  (AgentLink.initial now sessions totalUptime geo))
             < length (AgentLink.detectRegion geo)
          /\ List.Forall
               (fun d => exists url,
                  d = Some url /\ In url (AgentLink.detectRegion geo))
               (AgentLink.dialled
                  (AgentLink.run es
                     (AgentLink.initial now sessions totalUptime geo))))
    as (H1 & H2 & H3).
  { unfold AgentLink.run. rewrite <- fold_left_rev_right.
    induction (rev es) as [|e l IH]; cbn [fold_right].
    - cbn. rewrite Hlen. split; [done|]. split; [lia|constructor].
    - apply link_step; [lia|exact IH]. }
  split; [done|]. split; [lia|].
  eapply List.Forall_impl; [|exact H3].
  intros d (url & -> & Hin). exists url. split; [done|].
  eapply Permutation_in; [exact Hperm|exact Hin].
Qed.

Lemma quiet_checks ticks l :
  AgentLink.connected l = true ->
  List.Forall (fun tick => (fst tick - AgentLink.lastPing l <= 60000)%Z)
    ticks ->
  let l' := AgentLink.run
              (map (fun tick => AgentLink.HealthCheck (fst tick) (snd tick))
                 ticks) l in
  AgentLink.RELAY_URLS l' = AgentLink.RELAY_URLS l
  /\ AgentLink.currentRelayIndex l' = AgentLink.currentRelayIndex l
  /\ AgentLink.reconnectAttempts l' = AgentLink.reconnectAttempts l
  /\ AgentLink.connected l' = true
  /\ AgentLink.lastPing l' = AgentLink.lastPing l
  /\ AgentLink.dialled l' = AgentLink.dialled l
  /\ AgentLink.scheduled l' = AgentLink.scheduled l.
Proof.
  revert l. induction ticks as [|[now throws] ticks IH]; intros l Hc Hq;
    cbv zeta; [done|].
  inversion Hq as [|? ? Hnow Hq']; subst. cbn [fst] in Hnow.
  cbn [map AgentLink.run fold_left AgentLink.step fst snd].
  assert (AgentLink.healthCheck now throws l = AgentLink.saveData now l)
    as ->.
  { unfold AgentLink.healthCheck. rewrite Hc. cbn [andb negb].
    by destruct (Z.ltb_spec 60000 (now - AgentLink.lastPing l)); [lia|]. }
  apply (IH (AgentLink.saveData now l)); [exact Hc|exact Hq'].
Qed.

(** The health checks of a connected agent open no socket and leave the
    relay index and the failure count alone as long as the last ping is
    at most sixty seconds old; the first check that finds it older drops
    the link and dials the next relay of the list at once, whatever the
    failure count was. *)
Theorem stale_link_moves_on ticks now throws l :
  AgentLink.connected l = true ->
  List.Forall (fun tick => (fst tick - AgentLink.lastPing l <= 60000)%Z)
    ticks ->
  (60000 < now - AgentLink.lastPing l)%Z ->
  (AgentLink.dialled
     (AgentLink.run
        (map (fun tick => AgentLink.HealthCheck (fst tick) (snd tick))
           ticks) l)
   = AgentLink.dialled l
   /\ AgentLink.currentRelayIndex
        (AgentLink.run
           (map (fun tick => AgentLink.HealthCheck (fst tick) (snd tick))
              ticks) l)
      = AgentLink.currentRelayIndex l
   /\ AgentLink.connected
        (AgentLink.run
           (map (fun tick => AgentLink.HealthCheck (fst tick) (snd tick))
              ticks) l)
      = true)
  /\ AgentLink.currentRelayIndex
       (AgentLink.run
          (map (fun tick => AgentLink.HealthCheck (fst tick) (snd tick))
             ticks ++ [AgentLink.HealthCheck now throws]) l)
     = (AgentLink.currentRelayIndex l + 1)
       mod length (AgentLink.RELAY_URLS l)
  /\ AgentLink.dialled
       (AgentLink.run
          (map (fun tick => AgentLink.HealthCheck (fst tick) (snd tick))
             ticks ++ [AgentLink.HealthCheck now throws]) l)
     = (AgentLink.dialled l
        ++ [AgentLink.RELAY_URLS l
            !! ((AgentLink.currentRelayIndex l + 1)
                mod length (AgentLink.RELAY_URLS l))])%list
  /\ AgentLink.connected
       (AgentLink.run
          (map (fun tick => AgentLink.HealthCheck (fst tick) (snd tick))
             ticks ++ [AgentLink.HealthCheck now throws]) l)
     = false
  /\ AgentLink.reconnectAttempts
       (AgentLink.run
          (map (fun tick => AgentLink.HealthCheck (fst tick) (snd tick))
             ticks ++ [AgentLink.HealthCheck now throws]) l)
     = (if throws then 1 else 0).
Proof.
  intros Hc Hq Hstale.
  destruct (quiet_checks ticks l Hc Hq) as (H1 & H2 & H3 & H4 & H5 & H6 & H7).
  split; [done|].
  unfold AgentLink.run at 1 2 3 4. rewrite !fold_left_app.
  fold (AgentLink.run
          (map (fun tick => AgentLink.HealthCheck (fst tick) (snd tick))
             ticks) l).
  set (q := AgentLink.run _ l) in *.
  cbn [fold_left AgentLink.step]. unfold AgentLink.healthCheck.
  rewrite H4, H5. cbn [andb].
  destruct (Z.ltb_spec 60000 (now - AgentLink.lastPing l)); [|lia].
  cbn. rewrite H1, H2, H6. by destruct throws.
Qed.

End LinkInvariant.

Section CleanCache.
Context (JSON_stringify : Json -> string) (table : list (string * Z)).

Lemma cache_set_Forall (P : string * CacheEntry -> Prop) key e (c : Cache) :
  (forall k, P (k, e)) -> List.Forall P c -> List.Forall P (cache_set key e c).
Proof.
  intros He. induction 1 as [|[k e'] c Hx Hc IH]; cbn.
  - by repeat constructor.
  - destruct (String.eqb key k); constructor; done.
Qed.

Lemma evict_oldest_Forall (P : string * CacheEntry -> Prop) n (c : Cache) :
  List.Forall P c -> List.Forall P (evict_oldest n c).
Proof.
  revert c. induction n as [|n IH]; intros c Hc; [done|].
  destruct Hc as [|[k e] c Hx Hc]; [constructor|]. cbn.
  destruct (String.eqb k ""); [constructor; [done|]|]; by apply IH.
Qed.

Lemma handleRequest_clean t_lookup t_store fetchRPC msg cache :
  AgentSession.clean cache ->
  AgentSession.clean
    (cache_after
       (handleRequest JSON_stringify table t_lookup t_store fetchRPC msg
          cache)).
Proof.
  intros Hc. unfold handleRequest.
  destruct (if negb _ then _ else None); [done|].
  destruct (fetchRPC _) as [d sz|m]; [|done]. cbn [cache_after].
  destruct (negb (no_cache _)); [|done]. cbn [andb].
  destruct (truthy (Some d)) eqn:Hd; [|done]. cbn [andb].
  destruct (truthy (prop d "error")) eqn:He; [done|]. cbn [negb].
  unfold cache_store, AgentSession.clean.
  destruct (_ <? _); [apply evict_oldest_Forall|];
    by apply cache_set_Forall.
Qed.

(** The cache never holds a failed answer: starting from an empty
    cache, after any requests, every entry holds an upstream answer that
    is a truthy value without a truthy [error] member. *)
Theorem cache_holds_no_errors calls :
  AgentSession.clean (snd (serve JSON_stringify table calls [])).
Proof.
  assert (forall cache, AgentSession.clean cache ->
            AgentSession.clean (snd (serve JSON_stringify table calls cache)))
    as H; [|apply H; constructor].
  induction calls as [|c calls IH]; intros cache Hc; [done|].
  cbn [serve]. specialize (IH _ (handleRequest_clean (at_lookup c)
    (at_store c) (endpoint c) (request c) cache Hc)).
  by destruct (serve _ _ calls _).
Qed.

End CleanCache.

(** * The properties on example inputs *)

Lemma route_target_example :
  In node_b (connectedNodes_values three_nodes)
  /\ eligible true 1000 node_b = true
  /\ (healthy node_b = false ->
      forall n, In n (connectedNodes_values three_nodes) ->
                eligible true 1000 n = true -> healthy n = false)
  /\ exists i, Scenarios.after_first_call = set_roundRobinIndex three_nodes i
               /\ pool_at true 1000 three_nodes !! i = Some node_b.
Proof.
  refine (route_target true 1000 three_nodes node_b
            Scenarios.after_first_call _).
  vm_compute. reflexivity.
Defined.

Lemma null_result_never_settles_example :
  Pending.pendingRequests
    (Pending.rpc_response true Scenarios.null_answer
       (Pending.run true Scenarios.one_call Pending.empty)) !! "r1" = None
  /\ Pending.timers
       (Pending.rpc_response true Scenarios.null_answer
          (Pending.run true Scenarios.one_call Pending.empty)) !! 0%nat
     = None
  /\ ~ In 0%nat
         (Pending.settled_promises
            (Pending.run true Scenarios.after_null_answer
               (Pending.rpc_response true Scenarios.null_answer
                  (Pending.run true Scenarios.one_call Pending.empty)))).
Proof.
  refine (null_result_never_settles true Scenarios.one_call
            Scenarios.null_answer "r1" 0 Scenarios.after_null_answer
            _ _ _ _ _).
  - reflexivity.
  - vm_compute. reflexivity.
  - reflexivity.
  - reflexivity.
  - right. reflexivity.
Defined.

Lemma relay_switch_after_three_failures_example :
  AgentLink.RELAY_URLS
    (AgentLink.run (AgentLink.failures 7) Scenarios.first_dial)
  = AgentLink.RELAY_URLS Scenarios.first_dial
  /\ AgentLink.currentRelayIndex
       (AgentLink.run (AgentLink.failures 7) Scenarios.first_dial)
     = ((AgentLink.currentRelayIndex Scenarios.first_dial
         + (AgentLink.reconnectAttempts Scenarios.first_dial + 7) / 3)
        mod length (AgentLink.RELAY_URLS Scenarios.first_dial))%nat
  /\ AgentLink.reconnectAttempts
       (AgentLink.run (AgentLink.failures 7) Scenarios.first_dial)
     = ((AgentLink.reconnectAttempts Scenarios.first_dial + 7) mod 3)%nat
  /\ (exists delays,
        AgentLink.scheduled
          (AgentLink.run (AgentLink.failures 7) Scenarios.first_dial)
        = (AgentLink.scheduled Scenarios.first_dial ++ delays)%list
        /\ length delays = 7%nat
        /\ delays
           = map (fun j =>
                    2000 * 2 ^ Z.of_nat
                               ((AgentLink.reconnectAttempts
                                   Scenarios.first_dial + j) mod 3))
               (seq 0 7)
        /\ List.Forall (fun d => d = 2000 \/ d = 4000 \/ d = 8000) delays)
  /\ (exists dials,
        AgentLink.dialled
          (AgentLink.run (AgentLink.failures 7) Scenarios.first_dial)
        = (AgentLink.dialled Scenarios.first_dial ++ dials)%list
        /\ length dials = 7%nat
        /\ List.Forall
             (fun d => exists url,
                d = Some url
                /\ In url (AgentLink.RELAY_URLS Scenarios.first_dial))
             dials).
Proof.
  refine (relay_switch_after_three_failures 7 Scenarios.first_dial _ _);
    vm_compute; lia.
Defined.

Lemma stale_link_moves_on_example :
  (AgentLink.dialled
     (AgentLink.run
        (map (fun tick => AgentLink.HealthCheck (fst tick) (snd tick))
           Scenarios.quiet_ticks) Scenarios.pinged_at_1000)
   = AgentLink.dialled Scenarios.pinged_at_1000
   /\ AgentLink.currentRelayIndex
        (AgentLink.run
           (map (fun tick => AgentLink.HealthCheck (fst tick) (snd tick))
              Scenarios.quiet_ticks) Scenarios.pinged_at_1000)
      = AgentLink.currentRelayIndex Scenarios.pinged_at_1000
   /\ AgentLink.connected
        (AgentLink.run
           (map (fun tick => AgentLink.HealthCheck (fst tick) (snd tick))
              Scenarios.quiet_ticks) Scenarios.pinged_at_1000)
      = true)
  /\ AgentLink.currentRelayIndex
       (AgentLink.run
          (map (fun tick => AgentLink.HealthCheck (fst tick) (snd tick))
             Scenarios.quiet_ticks ++ [AgentLink.HealthCheck 90500 false])
          Scenarios.pinged_at_1000)
     = ((AgentLink.currentRelayIndex Scenarios.pinged_at_1000 + 1)
        mod length (AgentLink.RELAY_URLS Scenarios.pinged_at_1000))%nat
  /\ AgentLink.dialled
       (AgentLink.run
          (map (fun tick => AgentLink.HealthCheck (fst tick) (snd tick))
             Scenarios.quiet_ticks ++ [AgentLink.HealthCheck 90500 false])
          Scenarios.pinged_at_1000)
     = (AgentLink.dialled Scenarios.pinged_at_1000
        ++ [AgentLink.RELAY_URLS Scenarios.pinged_at_1000
            !! (((AgentLink.currentRelayIndex Scenarios.pinged_at_1000 + 1)
                 mod length (AgentLink.RELAY_URLS Scenarios.pinged_at_1000))
                %nat)])%list
  /\ AgentLink.connected
       (AgentLink.run
          (map (fun tick => AgentLink.HealthCheck (fst tick) (snd tick))
             Scenarios.quiet_ticks ++ [AgentLink.HealthCheck 90500 false])
          Scenarios.pinged_at_1000)
     = false
  /\ AgentLink.reconnectAttempts
       (AgentLink.run
          (map (fun tick => AgentLink.HealthCheck (fst tick) (snd tick))
             Scenarios.quiet_ticks ++ [AgentLink.HealthCheck 90500 false])
          Scenarios.pinged_at_1000)
     = (if false then 1%nat else 0%nat).
Proof.
  refine (stale_link_moves_on Scenarios.quiet_ticks 90500 false
            Scenarios.pinged_at_1000 _ _ _).
  - vm_compute. reflexivity.
  - repeat constructor; vm_compute; discriminate.
  - vm_compute. reflexivity.
Defined.

(** A new entry stored into the cache of 5000 entries: entries 0 to
    499 go, entries 500 to 4999 and the new one are left. *)
Lemma eviction_removes_the_oldest_example :
  cache_store "getBalance:[W1]" Scenarios.newer_entry Scenarios.full_cache
  = (drop 500 Scenarios.full_cache
     ++ [("getBalance:[W1]", Scenarios.newer_entry)])%list
  /\ (Scenarios.full_cache ++ [("getBalance:[W1]", Scenarios.newer_entry)]
      = take 500 Scenarios.full_cache
        ++ cache_store "getBalance:[W1]" Scenarios.newer_entry
             Scenarios.full_cache)%list
  /\ Z.of_nat (length (take 500 Scenarios.full_cache)) = 500
  /\ Z.of_nat (length (cache_store "getBalance:[W1]" Scenarios.newer_entry
                         Scenarios.full_cache)) = 4501.
Proof.
  refine (proj2 (eviction_removes_the_oldest "getBalance:[W1]"
                   Scenarios.newer_entry Scenarios.full_cache
                   full_cache_bounded _) _ _).
  - discriminate.
  - vm_compute. reflexivity.
  - vm_compute. reflexivity.
Defined.

Lemma overwrite_keeps_rank_example :
  cache_store "getSlot:[]" Scenarios.newer_entry Scenarios.one_entry
  = cache_set "getSlot:[]" Scenarios.newer_entry Scenarios.one_entry
  /\ fst <$> cache_store "getSlot:[]" Scenarios.newer_entry
               Scenarios.one_entry
     = fst <$> Scenarios.one_entry
  /\ cache_get "getSlot:[]"
       (cache_store "getSlot:[]" Scenarios.newer_entry Scenarios.one_entry)
     = Some Scenarios.newer_entry.
Proof.
  refine (overwrite_keeps_rank "getSlot:[]" Scenarios.newer_entry
            Scenarios.slot_entry Scenarios.one_entry _ _).
  - split; [vm_compute; discriminate|].
    repeat constructor. discriminate.
  - reflexivity.
Defined.

Lemma prototype_method_never_hit_example :
  ttl_of CACHE_TTL (method_of Scenarios.toString_request) = Inherited
  /\ cached (handleRequest show_params CACHE_TTL 1000 1010 upstream
               Scenarios.toString_request Scenarios.one_entry) = false
  /\ upstreamCalls (handleRequest show_params CACHE_TTL 1000 1010 upstream
                      Scenarios.toString_request Scenarios.one_entry)
     = [payload Scenarios.toString_request].
Proof.
  refine (prototype_method_never_hit show_params 1000 1010 upstream
            Scenarios.toString_request Scenarios.one_entry _).
  vm_compute. tauto.
Defined.
